(** * DokuWiki -> Markdown migrator: a shallow embedding of
      [dokuwiki_to_japlin.py] and the properties of its specification.

    Python [str] values are sequences of Unicode code points, modelled as
    [list N]; [bytes] are lists of numbers below 256.  Code that can raise
    lives in the [result] monad; the output tree is a finite map. *)

From Stdlib Require Import NArith Ascii String DecimalString Lia.
From stdpp Require Import base option list gmap.

Local Open Scope N_scope.

(** ** Python values *)

Abbreviation str := (list N) (only parsing).
Abbreviation bytes := (list N) (only parsing).

(** A literal: the code points of an ASCII Rocq string. *)
Definition py (s : string) : str := N_of_ascii <$> list_ascii_of_string s.

Definition ch (a : ascii) : N := N_of_ascii a.

Definition c_slash : N := Eval cbv in ch "/".
Definition c_bslash : N := Eval cbv in ch "\".
Definition c_q : N := Eval cbv in ch "?".
Definition c_hash : N := Eval cbv in ch "#".
Definition c_colon : N := Eval cbv in ch ":".
Definition c_pct : N := Eval cbv in ch "%".
Definition c_dot : N := Eval cbv in ch ".".
Definition c_pipe : N := Eval cbv in ch "|".
Definition c_sp : N := Eval cbv in ch " ".
Definition c_lf : N := 10.
Definition c_cr : N := 13.
Definition c_tab : N := 9.

(** ** Exceptions *)

Inductive exn :=
  | ValueError | TypeError | IndexError | RuntimeError | OSError
  | UnicodeEncodeError
  | OutsideTree.   (* a path that leaves the modelled output tree *)

Inductive result (A : Type) :=
  | Ok (a : A)
  | Raise (e : exn).
Arguments Ok {A} a.
Arguments Raise {A} e.

#[global] Instance result_ret : MRet result := fun A a => Ok a.
#[global] Instance result_bind : MBind result := fun A B f m =>
  match m with Ok a => f a | Raise e => Raise e end.

#[global] Instance exn_eq_dec : EqDecision exn.
Proof. solve_decision. Defined.

(** ** str methods *)

Module Str.

(* [c in s] for a one-character [c] is written [c ∈ s]. *)

(** [s.replace(a, b)] for one-character [a] and [b]. *)
Definition replace (a b : N) (s : str) : str :=
  (fun c => if decide (c = a) then b else c) <$> s.

(** The text before the first [sep], and the text after it if there is one. *)
Fixpoint break (sep : N) (s : str) : str * option str :=
  match s with
  | [] => ([], None)
  | c :: s' =>
      if decide (c = sep) then ([], Some s')
      else let '(p, r) := break sep s' in (c :: p, r)
  end.

(** [s.split(sep, 1)] *)
Definition split1 (sep : N) (s : str) : list str :=
  match break sep s with
  | (p, None) => [p]
  | (p, Some r) => [p; r]
  end.

(** [s.rsplit(sep, 1)] *)
Definition rsplit1 (sep : N) (s : str) : list str :=
  match break sep (reverse s) with
  | (_, None) => [s]
  | (p, Some r) => [reverse r; reverse p]
  end.

(** [s.split(sep)] *)
Fixpoint split (sep : N) (s : str) : list str :=
  match s with
  | [] => [[]]
  | c :: s' =>
      let r := split sep s' in
      if decide (c = sep) then [] :: r else (c :: hd [] r) :: tl r
  end.

(** [sep.join(parts)] *)
Fixpoint join (sep : str) (parts : list str) : str :=
  match parts with
  | [] => []
  | [p] => p
  | p :: ps => p ++ sep ++ join sep ps
  end.

(** [s.startswith(p)] and [s.endswith(p)] *)
Fixpoint startswith (p s : str) : bool :=
  match p, s with
  | [], _ => true
  | a :: p', b :: s' => bool_decide (a = b) && startswith p' s'
  | _ :: _, [] => false
  end.

Definition endswith (p s : str) : bool := startswith (reverse p) (reverse s).

(** [str.isspace] on one code point (also what [\s] matches in a str
    pattern). *)
Definition isspace (c : N) : bool :=
  ((9 <=? c) && (c <=? 13)) || ((28 <=? c) && (c <=? 32))
  || (c =? 133) || (c =? 160) || (c =? 5760)
  || ((8192 <=? c) && (c <=? 8202)) || (c =? 8232) || (c =? 8233)
  || (c =? 8239) || (c =? 8287) || (c =? 12288).

Fixpoint lstrip_by (f : N -> bool) (s : str) : str :=
  match s with
  | c :: s' => if f c then lstrip_by f s' else s
  | [] => []
  end.

Definition rstrip_by (f : N -> bool) (s : str) : str :=
  reverse (lstrip_by f (reverse s)).

(** [s.strip()] *)
Definition strip (s : str) : str := rstrip_by isspace (lstrip_by isspace s).

(** ASCII part of [str.lower]; the Kelvin sign is the only other code
    point whose lower case is an ASCII letter.  Its results are only
    compared with ASCII constants. *)
Definition lower (s : str) : str :=
  (fun c => if (65 <=? c) && (c <=? 90) then c + 32
            else if c =? 8490 then 107 else c) <$> s.

(** [l[0]] *)
Definition index0 {A} (l : list A) : result A :=
  match l with x :: _ => Ok x | [] => Raise IndexError end.

(** [a, b = l] *)
Definition unpack2 {A} (l : list A) : result (A * A) :=
  match l with [a; b] => Ok (a, b) | _ => Raise ValueError end.

End Str.

(** ** urllib.parse.unquote, with its defaults encoding='utf-8',
       errors='replace' *)

Module Urllib.

(** The characters of [_hexdig]. *)
Definition hexval (c : N) : option N :=
  if (48 <=? c) && (c <=? 57) then Some (c - 48)
  else if (65 <=? c) && (c <=? 70) then Some (c - 55)
  else if (97 <=? c) && (c <=? 102) then Some (c - 87)
  else None.

(** One item of [string.split(b'%')] after the first: a pair of hex
    digits becomes a byte, anything else keeps its '%'. *)
Definition unquote_item (item : bytes) : bytes :=
  match item with
  | a :: b :: rest =>
      match hexval a, hexval b with
      | Some x, Some y => (16 * x + y) :: rest
      | _, _ => c_pct :: item
      end
  | _ => c_pct :: item
  end.

Definition unquote_to_bytes (s : bytes) : bytes :=
  match Str.split c_pct s with
  | [] => []
  | b0 :: items => b0 ++ concat (unquote_item <$> items)
  end.

Definition is_cont (b : N) : bool := (128 <=? b) && (b <=? 191).

Definition FFFD : N := 65533.

(** [bytes.decode('utf-8', 'replace')]: an invalid start byte, and the
    valid part of a sequence cut short by a wrong byte or by the end of
    the data, each become one U+FFFD. *)
Fixpoint decode_utf8_replace (bs : bytes) : str :=
  match bs with
  | [] => []
  | b0 :: r0 =>
    if b0 <? 128 then b0 :: decode_utf8_replace r0
    else if b0 <? 194 then FFFD :: decode_utf8_replace r0
    else if b0 <? 224 then
      match r0 with
      | [] => [FFFD]
      | b1 :: r1 =>
          if is_cont b1
          then ((b0 - 192) * 64 + (b1 - 128)) :: decode_utf8_replace r1
          else FFFD :: decode_utf8_replace r0
      end
    else if b0 <? 240 then
      match r0 with
      | [] => [FFFD]
      | b1 :: r1 =>
          if negb (is_cont b1) || ((b0 =? 224) && (b1 <? 160))
             || ((b0 =? 237) && (160 <=? b1))
          then FFFD :: decode_utf8_replace r0
          else
            match r1 with
            | [] => [FFFD]
            | b2 :: r2 =>
                if is_cont b2
                then ((b0 - 224) * 4096 + (b1 - 128) * 64 + (b2 - 128))
                       :: decode_utf8_replace r2
                else FFFD :: decode_utf8_replace r1
            end
      end
    else if b0 <? 245 then
      match r0 with
      | [] => [FFFD]
      | b1 :: r1 =>
          if negb (is_cont b1) || ((b0 =? 240) && (b1 <? 144))
             || ((b0 =? 244) && (144 <=? b1))
          then FFFD :: decode_utf8_replace r0
          else
            match r1 with
            | [] => [FFFD]
            | b2 :: r2 =>
                if negb (is_cont b2) then FFFD :: decode_utf8_replace r1
                else
                  match r2 with
                  | [] => [FFFD]
                  | b3 :: r3 =>
                      if is_cont b3
                      then ((b0 - 240) * 262144 + (b1 - 128) * 4096
                            + (b2 - 128) * 64 + (b3 - 128))
                             :: decode_utf8_replace r3
                      else FFFD :: decode_utf8_replace r2
                  end
            end
      end
    else FFFD :: decode_utf8_replace r0
  end.

(** An ASCII run [_asciire] matched: unquote it to bytes and decode. *)
Definition unquote_run (run : str) : str :=
  decode_utf8_replace (unquote_to_bytes run).

(** The runs of ASCII characters are unquoted, the characters between
    them are kept; [run] is the ASCII run read so far. *)
Fixpoint unquote_parts (run : str) (s : str) : str :=
  match s with
  | [] => unquote_run run
  | c :: s' =>
      if c <? 128 then unquote_parts (run ++ [c]) s'
      else unquote_run run ++ c :: unquote_parts [] s'
  end.

Definition unquote (s : str) : str :=
  if decide (c_pct ∈ s) then unquote_parts [] s else s.

End Urllib.

(** ** Path normalization utilities (lines 47-87) *)

Definition to_posix (p : str) : str := Str.replace c_bslash c_slash p.

Definition decode_path_segments (path_like : str) : str :=
  let parts := Str.split c_slash (to_posix path_like) in
  let decoded := Urllib.unquote <$> filter (fun part => part ≠ []) parts in
  Str.join [c_slash] decoded.

Definition strip_query (filename_or_path : str) : result str :=
  let s := filename_or_path in
  if decide (c_q ∉ s) then Ok s
  else if decide (c_hash ∈ s) then
    '(before_hash, after_hash) ← Str.unpack2 (Str.split1 c_hash s);
    before_q ← Str.index0 (Str.split1 c_q before_hash);
    Ok (before_q ++ [c_hash] ++ after_hash)
  else Str.index0 (Str.split1 c_q s).

(** ** posixpath, as far as the migrator uses it.  [os.getcwd()] is the
       parameter [cwd]. *)

Module Posixpath.

Definition sep : str := [c_slash].
Definition curdir : str := [c_dot].
Definition pardir : str := [c_dot; c_dot].

Definition isabs (s : str) : bool := Str.startswith sep s.

(** [join(a, *p)] *)
Definition join_step (path b : str) : str :=
  if Str.startswith sep b then b
  else if bool_decide (path = []) || Str.endswith sep path then path ++ b
  else path ++ sep ++ b.

Definition join (a : str) (p : list str) : str := foldl join_step a p.

(** [join] applied to an unpacked list: the call needs at least one
    argument. *)
Definition join_star (l : list str) : result str :=
  match l with
  | [] => Raise TypeError
  | a :: p => Ok (join a p)
  end.

(** One turn of the loop of [normpath] over the components. *)
Definition normpath_step (initial_slashes : nat) (new_comps : list str)
    (comp : str) : list str :=
  if decide (comp = [] \/ comp = curdir) then new_comps
  else if decide (comp <> pardir
                  \/ (initial_slashes = 0%nat /\ new_comps = [])
                  \/ (new_comps <> [] /\ last new_comps = Some pardir))
  then new_comps ++ [comp]
  else removelast new_comps.

Definition initial_slashes_of (path : str) : nat :=
  if Str.startswith sep path then
    if Str.startswith (sep ++ sep) path
       && negb (Str.startswith (sep ++ sep ++ sep) path)
    then 2%nat else 1%nat
  else 0%nat.

Definition normpath (path : str) : str :=
  if decide (path = []) then curdir
  else
    let initial_slashes := initial_slashes_of path in
    let comps :=
      foldl (normpath_step initial_slashes) [] (Str.split c_slash path) in
    let path' := Str.join sep comps in
    let path' := replicate initial_slashes c_slash ++ path' in
    if decide (path' = []) then curdir else path'.

Definition abspath (cwd path : str) : str :=
  if isabs path then normpath path else normpath (join cwd [path]).

(** [genericpath.commonprefix] of two lists: their longest common
    prefix (it compares the least and the greatest of the two, which
    gives the same list). *)
Fixpoint commonprefix (l1 l2 : list str) : list str :=
  match l1, l2 with
  | a :: l1', b :: l2' =>
      if decide (a = b) then a :: commonprefix l1' l2' else []
  | _, _ => []
  end.

Definition relpath (cwd path start : str) : result str :=
  if decide (path = []) then Raise ValueError
  else
    let start_list :=
      filter (fun x => x <> []) (Str.split c_slash (abspath cwd start)) in
    let path_list :=
      filter (fun x => x <> []) (Str.split c_slash (abspath cwd path)) in
    let i := length (commonprefix start_list path_list) in
    let rel_list :=
      replicate (length start_list - i) pardir ++ drop i path_list in
    if decide (rel_list = []) then Ok curdir else join_star rel_list.

(** [dirname(p)] *)
Definition dirname (p : str) : str :=
  match Str.break c_slash (reverse p) with
  | (_, None) => []
  | (_, Some r) =>
      let head := reverse r ++ sep in
      if forallb (fun c => bool_decide (c = c_slash)) head then head
      else Str.rstrip_by (fun c => bool_decide (c = c_slash)) head
  end.

(** [basename(p)] *)
Definition basename (p : str) : str :=
  match Str.break c_slash (reverse p) with
  | (b, _) => reverse b
  end.

End Posixpath.

Definition relposix (cwd from_dir to_path : str) : result str :=
  rel ← Posixpath.relpath cwd to_path
          (if decide (from_dir = []) then Posixpath.curdir else from_dir);
  Ok (Str.replace c_bslash c_slash rel).

(** ** pathlib, POSIX flavour: the pure part *)

Module Pathlib.

(** The components of a path string: empty ones and "." are dropped. *)
Definition comps (s : str) : list str :=
  filter (fun c => c <> [] /\ c <> [c_dot]) (Str.split c_slash s).

(** [name] of the last component [n]: the pair (before, after) of its
    last dot when that dot is neither first nor last. *)
Definition split_suffix (n : str) : option (str * str) :=
  match Str.break c_dot (reverse n) with
  | (a, Some b) =>
      if bool_decide (a <> []) && bool_decide (b <> [])
      then Some (reverse b, reverse a) else None
  | (_, None) => None
  end.

Definition name_of (cs : list str) : str := default [] (last cs).

Definition suffix_of (cs : list str) : str :=
  match split_suffix (name_of cs) with
  | Some (_, a) => c_dot :: a
  | None => []
  end.

Definition stem_of (cs : list str) : str :=
  match split_suffix (name_of cs) with
  | Some (b, _) => b
  | None => name_of cs
  end.

(** [Path(s).name] and [Path(s).suffix] *)
Definition name (s : str) : str := name_of (comps s).
Definition suffix (s : str) : str := suffix_of (comps s).

End Pathlib.

(** ** Reference resolver (lines 219-302) *)

Definition IMAGE_EXTS : list str :=
  py <$> [".png"; ".jpg"; ".jpeg"; ".gif"; ".bmp"; ".webp"; ".svg"]%string.

Definition current_page_id_from_rel (rel_md_posix : str) : str :=
  let rel_noext :=
    if Str.endswith (py ".md") (Str.lower rel_md_posix)
    then take (length rel_md_posix - 3) rel_md_posix
    else rel_md_posix in
  Str.replace c_slash c_colon rel_noext.

(** [re.sub(r"\s+", " ", s)]; [in_run] says that the previous character
    was white space. *)
Fixpoint sub_spaces (in_run : bool) (s : str) : str :=
  match s with
  | [] => []
  | c :: s' =>
      if Str.isspace c
      then (if in_run then sub_spaces true s' else c_sp :: sub_spaces true s')
      else c :: sub_spaces false s'
  end.

(** [t, anchor = t.split("#", 1); anchor = "#" + anchor], when [t] has
    a "#". *)
Definition split_anchor (t : str) : result (str * str) :=
  if decide (c_hash ∈ t) then
    '(t', anchor) ← Str.unpack2 (Str.split1 c_hash t);
    Ok (t', c_hash :: anchor)
  else Ok (t, []).

(** Lines 236-262 of [resolve_page_target]: the value of [resolved_id]
    with the anchor, or [None] where the function returns "" because the
    target is empty. *)
Definition resolve_page_id (raw_target current_id : str)
    : result (option (str * str)) :=
  let t := Str.strip raw_target in
  let t := Urllib.unquote t in
  t ← strip_query t;
  '(t, anchor) ← split_anchor t;
  if decide (t = []) then Ok None
  else
    let is_absolute := Str.startswith [c_colon] t in
    let t2 := if is_absolute then drop 1 t else t in
    resolved_id ←
      (if bool_decide (c_colon ∈ t2) || is_absolute then Ok t2
       else
         ns ← (if decide (c_colon ∈ current_id)
               then Str.index0 (Str.rsplit1 c_colon current_id)
               else Ok []);
         Ok (if decide (ns = []) then t2 else ns ++ [c_colon] ++ t2));
    Ok (Some (Str.strip (sub_spaces false resolved_id), anchor)).

(** [a or b] on the results of two [dict.get]: the first unless it is
    [None] or empty. *)
Definition py_or (a b : option str) : option str :=
  match a with
  | Some (_ :: _) => a
  | _ => b
  end.

Definition synth_md (resolved_id : str) : str :=
  Str.replace c_colon c_slash resolved_id ++ py ".md".

Definition resolve_page_target (raw_target current_id : str)
    (page_index : gmap str str) : result str :=
  r ← resolve_page_id raw_target current_id;
  match r with
  | None => Ok []
  | Some (resolved_id, anchor) =>
      let out_md :=
        match py_or (page_index !! resolved_id)
                    (page_index !! (c_colon :: resolved_id)) with
        | Some v => v
        | None => synth_md resolved_id
        end in
      Ok (Str.replace c_bslash c_slash out_md ++ anchor)
  end.

Definition normalize_media_target (raw_target : str) : result str :=
  let t := Str.strip raw_target in
  let t := Urllib.unquote t in
  t ← strip_query t;
  '(t, anchor) ← split_anchor t;
  let t := if Str.startswith [c_colon] t then drop 1 t else t in
  let t := to_posix t in
  let t := Str.replace c_colon c_slash t in
  let t := decode_path_segments t in
  t ← strip_query t;
  Ok (t ++ anchor).

(** ** Conversion of one page (lines 305-496) *)

(** [re.match(r"^(https?|ftp)://", s, flags=re.IGNORECASE)]: a pattern
    letter matches its two cases, and "s" also matches U+017F. *)
Definition ci_match (pat c : N) : bool :=
  (c =? pat) || ((97 <=? pat) && (pat <=? 122) && (c =? pat - 32))
  || ((pat =? 115) && (c =? 383)).

Fixpoint ci_startswith (p s : str) : bool :=
  match p, s with
  | [], _ => true
  | a :: p', b :: s' => ci_match a b && ci_startswith p' s'
  | _ :: _, [] => false
  end.

Definition is_external (s : str) : bool :=
  ci_startswith (py "http://") s || ci_startswith (py "https://") s
  || ci_startswith (py "ftp://") s.

(** [":" + c if not c.startswith(":") else c] *)
Definition with_colon (c : str) : str :=
  if Str.startswith [c_colon] c then c else c_colon :: c.

(** The loop over the candidate keys of [repl_media]: each one is
    stripped of its query and looked up; the first hit wins. *)
Fixpoint first_hit (media_index : gmap str str) (candidates : list str)
    : result (option str) :=
  match candidates with
  | [] => Ok None
  | c :: cs =>
      c' ← strip_query c;
      match media_index !! c' with
      | Some v => Ok (Some v)
      | None => first_hit media_index cs
      end
  end.

(** The loop over the keys of [repl_link], already stripped. *)
Fixpoint first_key (media_index : gmap str str) (keys : list str)
    : option str :=
  match keys with
  | [] => None
  | k :: ks =>
      match media_index !! k with
      | Some v => Some v
      | None => first_key media_index ks
      end
  end.

(** The relative link from the note's directory to a file of the media
    tree. *)
Definition media_rel (cwd current_dir out_media_rel : str) : result str :=
  let to_path :=
    Posixpath.normpath
      (Posixpath.join (py "..") [py "media"; out_media_rel]) in
  relposix cwd current_dir to_path.

Definition colon_slash_variants (c : str) : list str :=
  let c1 := Str.replace c_slash c_colon c in
  let c2 := Str.replace c_colon c_slash c in
  [c1; with_colon c1; c2; with_colon c2].

Definition repl_media (cwd current_dir : str) (media_index : gmap str str)
    (group1 : str) : result str :=
  let inner := Str.strip group1 in
  left ← Str.index0 (Str.split1 c_pipe inner);
  let left := Str.strip left in
  if decide (left = []) then Ok []
  else if is_external left then Ok left
  else
    normalized_key ← strip_query (Urllib.unquote (Str.strip left));
    let normalized_key := Str.strip normalized_key in
    nmt ← normalize_media_target normalized_key;
    let first4 :=
      [normalized_key; with_colon normalized_key; nmt; with_colon nmt] in
    let candidates := first4 ++ concat (colon_slash_variants <$> first4) in
    hit ← first_hit media_index candidates;
    out_media_rel ←
      match hit with
      | Some v => Ok v
      | None =>
          t ← normalize_media_target left;
          Str.index0 (Str.split1 c_hash t)
      end;
    rel ← media_rel cwd current_dir out_media_rel;
    let ext := Str.lower (Pathlib.suffix out_media_rel) in
    let fname := Posixpath.basename out_media_rel in
    if decide (ext ∈ IMAGE_EXTS) then Ok (py "![](" ++ rel ++ py ")")
    else Ok (py "[" ++ fname ++ py "](" ++ rel ++ py ")").

(** [l[-1]] *)
Definition index_last {A} (l : list A) : result A :=
  match last l with Some x => Ok x | None => Raise IndexError end.

Definition repl_link (cwd current_dir current_id : str)
    (page_index media_index : gmap str str) (group1 : str) : result str :=
  let inner := Str.strip group1 in
  '(target, title) ←
    (if decide (c_pipe ∈ inner) then
       '(target, title) ← Str.unpack2 (Str.split1 c_pipe inner);
       Ok (Str.strip target, Str.strip title)
     else Ok (Str.strip inner, []));
  if decide (target = []) then Ok title
  else if is_external target then
    let label := if decide (title = []) then target else title in
    Ok (py "[" ++ label ++ py "](" ++ target ++ py ")")
  else
    t_norm ← strip_query target;
    let t_norm := Str.strip (Urllib.unquote t_norm) in
    '(t_norm_base, anchor) ← split_anchor t_norm;
    let ext := Str.lower (Pathlib.suffix t_norm_base) in
    if bool_decide (ext <> []) && bool_decide (ext <> py ".md") then
      media_target ← normalize_media_target t_norm;
      let colon_if (x : str) : str :=
        if Str.startswith [c_colon] t_norm then x else c_colon :: x in
      k1 ← strip_query t_norm;
      k2 ← strip_query (colon_if t_norm);
      k3 ← strip_query media_target;
      k4 ← strip_query (with_colon media_target);
      k5 ← strip_query (Str.replace c_colon c_slash t_norm);
      k6 ← strip_query (colon_if (Str.replace c_colon c_slash t_norm));
      k7 ← strip_query (Str.replace c_slash c_colon t_norm);
      k8 ← strip_query (colon_if (Str.replace c_slash c_colon t_norm));
      out_media_rel ←
        match first_key media_index [k1; k2; k3; k4; k5; k6; k7; k8] with
        | Some v => Ok v
        | None => Str.index0 (Str.split1 c_hash media_target)
        end;
      rel ← media_rel cwd current_dir out_media_rel;
      let label :=
        if decide (title = []) then Posixpath.basename out_media_rel
        else title in
      if decide (ext ∈ IMAGE_EXTS) then
        if decide (title = []) then Ok (py "![](" ++ rel ++ py ")")
        else Ok (py "![" ++ title ++ py "](" ++ rel ++ py ")")
      else Ok (py "[" ++ label ++ py "](" ++ rel ++ py ")")
    else
      target_md_rel ← resolve_page_target t_norm current_id page_index;
      if decide (target_md_rel = []) then Ok title
      else
        '(target_md_rel_no_anchor, page_anchor) ← split_anchor target_md_rel;
        rel ← relposix cwd current_dir target_md_rel_no_anchor;
        let rel_link := rel ++ page_anchor in
        label ←
          (if decide (title = []) then
             if decide (c_colon ∈ t_norm_base)
             then index_last (Str.split c_colon t_norm_base)
             else Ok (Pathlib.name t_norm_base)
           else Ok title);
        Ok (py "[" ++ label ++ py "](" ++ rel_link ++ py ")").

(** A match of [o o ([^c]+?) c c] at the head of [s]: the group, which
    runs to the first [c] and is not empty. *)
Definition match_brackets (o c : N) (s : str) : option str :=
  match s with
  | a :: b :: rest =>
      if bool_decide (a = o) && bool_decide (b = o) then
        match Str.break c rest with
        | (g, Some after) =>
            if bool_decide (g <> []) && Str.startswith [c] after
            then Some g else None
        | (_, None) => None
        end
      else None
  | _ => None
  end.

(** [pattern.sub(repl, text)] for such a pattern: matches are found from
    left to right and do not overlap; [skip] counts the characters of the
    current match that are still to be passed. *)
Fixpoint sub_brackets (o c : N) (repl : str -> result str) (skip : nat)
    (s : str) : result str :=
  match s with
  | [] => Ok []
  | x :: s' =>
      match skip with
      | S k => sub_brackets o c repl k s'
      | O =>
          match match_brackets o c s with
          | Some g =>
              r ← repl g;
              rest ← sub_brackets o c repl (length g + 3) s';
              Ok (r ++ rest)
          | None =>
              rest ← sub_brackets o c repl 0 s';
              Ok (x :: rest)
          end
      end
  end.

Definition is_blank (c : N) : bool := (c =? c_sp) || (c =? c_tab).

(** [RE_MULTISPACE.sub(" ", text)]; [run] is the run of blanks read. *)
Definition flush_blanks (run : str) : str :=
  match run with
  | _ :: _ :: _ => [c_sp]
  | _ => run
  end.

Fixpoint sub_multispace (run : str) (s : str) : str :=
  match s with
  | [] => flush_blanks run
  | c :: s' =>
      if is_blank c then sub_multispace (run ++ [c]) s'
      else flush_blanks run ++ c :: sub_multispace [] s'
  end.

(** [re.sub(r"[ \t]+\n", "\n", text)] *)
Fixpoint sub_blank_eol (run : str) (s : str) : str :=
  match s with
  | [] => run
  | c :: s' =>
      if is_blank c then sub_blank_eol (run ++ [c]) s'
      else if c =? c_lf then c :: sub_blank_eol [] s'
      else run ++ c :: sub_blank_eol [] s'
  end.

(** [text.replace("\r\n", "\n")] *)
Fixpoint replace_crlf (s : str) : str :=
  match s with
  | [] => []
  | c :: s' =>
      match s' with
      | d :: _ =>
          if (c =? c_cr) && (d =? c_lf) then replace_crlf s'
          else c :: replace_crlf s'
      | [] => [c]
      end
  end.

Definition normalize_newlines (text : str) : str :=
  Str.replace c_cr c_lf (replace_crlf text).

Definition convert_dokuwiki_to_markdown (cwd text current_note_rel_md_posix : str)
    (page_index media_index : gmap str str) : result str :=
  let text := normalize_newlines text in
  let current_dir := Posixpath.dirname current_note_rel_md_posix in
  let current_id := current_page_id_from_rel current_note_rel_md_posix in
  text ← sub_brackets (ch "{") (ch "}")
           (repl_media cwd current_dir media_index) 0 text;
  text ← sub_brackets (ch "[") (ch "]")
           (repl_link cwd current_dir current_id page_index media_index)
           0 text;
  let text := sub_multispace [] text in
  let text := sub_blank_eol [] text in
  Ok (Str.replace c_bslash c_slash text).

(** ** The output tree

    Paths are lists of components below the output root, whose own path
    is the empty list.  The source trees are never written, so a source
    file is given by its relative path and what reading it yields. *)

Abbreviation path := (list str) (only parsing).

Inductive node :=
  | File (content : bytes)
  | Dir.

#[global] Instance node_eq_dec : EqDecision node.
Proof. solve_decision. Defined.

Abbreviation tree := (gmap (list (list N)) node) (only parsing).

(** Code that reads and writes the output tree; the tree is kept when an
    exception is raised. *)
Definition io (A : Type) : Type := tree -> tree * result A.

#[global] Instance io_ret : MRet io := fun A a fs => (fs, Ok a).
#[global] Instance io_bind : MBind io := fun A B f m fs =>
  match m fs with
  | (fs', Ok a) => f a fs'
  | (fs', Raise e) => (fs', Raise e)
  end.

Definition lift {A} (r : result A) : io A := fun fs => (fs, r).
Definition raise {A} (e : exn) : io A := fun fs => (fs, Raise e).
Definition get_tree : io tree := fun fs => (fs, Ok fs).
Definition put (p : path) (n : node) : io unit :=
  fun fs => (<[p := n]> fs, Ok tt).

Module Fs.

Definition exists_ (fs : tree) (p : path) : bool :=
  bool_decide (p = []) || bool_decide (is_Some (fs !! p)).

Definition is_dir (fs : tree) (p : path) : bool :=
  bool_decide (p = []) || bool_decide (fs !! p = Some Dir).

Definition parent (p : path) : path := removelast p.

(** [p.mkdir(parents=True, exist_ok=True)]: the prefixes of [p] from
    the root down; [done] is the prefix already passed. *)
Fixpoint mkdirs (done : path) (todo : path) : io unit :=
  match todo with
  | [] => mret tt
  | c :: todo' =>
      let q := done ++ [c] in
      fs ← get_tree;
      match fs !! q with
      | Some Dir => mkdirs q todo'
      | Some (File _) => raise OSError
      | None => put q Dir;; mkdirs q todo'
      end
  end.

(** [shutil.copy2(src, dst)]: the source is read, a destination that
    is a directory receives the file under the source's name. *)
Definition copy2 (src_name : str) (src : option bytes) (dst : path)
    : io unit :=
  match src with
  | None => raise OSError
  | Some data =>
      fs ← get_tree;
      let dst' := if is_dir fs dst then dst ++ [src_name] else dst in
      if is_dir fs dst' || negb (is_dir fs (parent dst')) then raise OSError
      else put dst' (File data)
  end.

End Fs.

Definition safe_mkdir (p : path) : io unit := Fs.mkdirs [] p.

(** ** UTF-8 text files *)

Definition encode_char (c : N) : option bytes :=
  if c <? 128 then Some [c]
  else if c <? 2048 then Some [192 + c / 64; 128 + c mod 64]
  else if c <? 65536 then
    if (55296 <=? c) && (c <=? 57343) then None
    else Some [224 + c / 4096; 128 + (c / 64) mod 64; 128 + c mod 64]
  else if c <? 1114112 then
    Some [240 + c / 262144; 128 + (c / 4096) mod 64;
          128 + (c / 64) mod 64; 128 + c mod 64]
  else None.

(** [text.encode("utf-8")] *)
Fixpoint encode_utf8 (s : str) : option bytes :=
  match s with
  | [] => Some []
  | c :: s' =>
      b ← encode_char c;
      bs ← encode_utf8 s';
      Some (b ++ bs)
  end.

(** The text read from a file opened with encoding="utf-8",
    errors="replace" and universal newlines. *)
Definition read_text_bytes (data : bytes) : str :=
  normalize_newlines (Urllib.decode_utf8_replace data).

(** ** Idempotent writer and copier (lines 90-144) *)

Definition write_text_if_changed (dst : path) (text : str) : io unit :=
  fs ← get_tree;
  let unchanged :=
    match fs !! dst with
    | Some (File old) => bool_decide (read_text_bytes old = text)
    | _ => false
    end in
  if unchanged then mret tt
  else
    safe_mkdir (Fs.parent dst);;
    fs ← get_tree;
    if Fs.is_dir fs dst || negb (Fs.is_dir fs (Fs.parent dst))
    then raise OSError
    else
      match encode_utf8 text with
      | Some data => put dst (File data)
      | None => put dst (File []);; raise UnicodeEncodeError
      end.

Section Sync.

(** [sha256_file] on the content of a file. *)
Variable sha256 : bytes -> bytes.

Definition copy_file_if_changed (src_name : str) (src : option bytes)
    (dst : path) : io unit :=
  safe_mkdir (Fs.parent dst);;
  fs ← get_tree;
  if negb (Fs.exists_ fs dst) then Fs.copy2 src_name src dst
  else
    let same :=
      match src, fs !! dst with
      | Some data, Some (File old) =>
          bool_decide (length data = length old)
          && bool_decide (sha256 data = sha256 old)
      | _, _ => false
      end in
    if same then mret tt else Fs.copy2 src_name src dst.

(** The loop of [unique_path_if_needed]: [n] values of [i] are left to
    try. *)
Fixpoint first_free (fs : tree) (parent : path) (stem suffix : str)
    (n : nat) (i : N) : result (list str) :=
  match n with
  | O => Raise RuntimeError
  | S n' =>
      let candidate :=
        parent ++ [stem ++ py "__dup"
                   ++ py (NilEmpty.string_of_uint (N.to_uint i))
                   ++ suffix] in
      if negb (Fs.exists_ fs candidate) then Ok candidate
      else first_free fs parent stem suffix n' (i + 1)
  end.

Definition unique_path_if_needed (fs : tree) (dst : path)
    : result (list str) :=
  if negb (Fs.exists_ fs dst) then Ok dst
  else
    let stem := Pathlib.stem_of dst in
    let suffix := Pathlib.suffix_of dst in
    let parent := Fs.parent dst in
    first_free fs parent stem suffix (N.to_nat 9999) 1.

End Sync.

(** ** pathlib: paths as component lists *)

Module PathOps.

(** [str(p)] of a relative path. *)
Definition to_str (p : path) : str :=
  if decide (p = []) then [c_dot] else Str.join [c_slash] p.

(** [p.with_suffix(suffix)] *)
Definition with_suffix (p : path) (suffix : str) : result (list str) :=
  if bool_decide (c_slash ∈ suffix)
     || (bool_decide (suffix <> []) && negb (Str.startswith [c_dot] suffix))
     || bool_decide (suffix = [c_dot])
  then Raise ValueError
  else
    let name := Pathlib.name_of p in
    if decide (name = []) then Raise ValueError
    else
      let old_suffix := Pathlib.suffix_of p in
      let name' :=
        if decide (old_suffix = []) then name ++ suffix
        else take (length name - length old_suffix) name ++ suffix in
      Ok (removelast p ++ [name']).

End PathOps.

(** ** Indices and the pipeline (lines 147-216 and 499-533) *)

Definition out_notes : path := [py "notes"].
Definition out_media : path := [py "media"].

(** A page of the source tree as [rglob] yields it: its path below the
    pages root and its bytes, [None] when it cannot be read. *)
Abbreviation page_src := (list (list N) * option (list N))%type (only parsing).

(** An entry of the media tree: a directory, or a file with its bytes,
    [None] when it cannot be read. *)
Inductive media_kind :=
  | MediaDir
  | MediaFile (data : option bytes).

#[global] Instance media_kind_eq_dec : EqDecision media_kind.
Proof. solve_decision. Defined.

Abbreviation media_src := (list (list N) * media_kind)%type (only parsing).

Definition index_page (idx : gmap str str) (src : page_src)
    : result (gmap str str) :=
  rel_noext ← PathOps.with_suffix src.1 [];
  let rel_posix := to_posix (PathOps.to_str rel_noext) in
  let dokuwiki_id := Str.replace c_slash c_colon rel_posix in
  let out_md_rel := rel_posix ++ py ".md" in
  Ok (<[c_colon :: dokuwiki_id := out_md_rel]>
        (<[dokuwiki_id := out_md_rel]> idx)).

Fixpoint build_page_index_from (idx : gmap str str) (pages : list page_src)
    : result (gmap str str) :=
  match pages with
  | [] => Ok idx
  | src :: rest => idx' ← index_page idx src; build_page_index_from idx' rest
  end.

Definition build_page_index (pages : list page_src) : result (gmap str str) :=
  build_page_index_from ∅ pages.

(** [out_media_root / Path(out_rel_posix)], inside the output tree. *)
Definition media_dst (out_rel_posix : str) : result (list str) :=
  if Posixpath.isabs out_rel_posix then Raise OutsideTree
  else
    let cs := Pathlib.comps out_rel_posix in
    if decide (Posixpath.pardir ∈ cs) then Raise OutsideTree
    else Ok (out_media ++ cs).

(** [dst_unique.relative_to(out_media_root)] *)
Definition relative_to_media (p : path) : result (list str) :=
  match p with
  | r :: rest => if decide ([r] = out_media) then Ok rest else Raise ValueError
  | [] => Raise ValueError
  end.

(** The four key forms of one spelling of a path. *)
Definition key_forms (x : str) : list str :=
  [x; c_colon :: x; Str.replace c_slash c_colon x;
   c_colon :: Str.replace c_slash c_colon x].

Fixpoint strip_all (l : list str) : result (list str) :=
  match l with
  | [] => Ok []
  | x :: l' => y ← strip_query x; ys ← strip_all l'; Ok (y :: ys)
  end.

Section Pipeline.

Variable sha256 : bytes -> bytes.
Variable cwd : str.

(** The body of the loop of [build_media_index_and_copy] for one file. *)
Definition sync_media_file (idx : gmap str str) (rel_src : path)
    (data : option bytes) : io (gmap str str) :=
  let rel_src_posix := to_posix (PathOps.to_str rel_src) in
  let rel_decoded_posix := decode_path_segments rel_src_posix in
  rel_decoded_posix ← lift (strip_query rel_decoded_posix);
  let out_rel_posix := rel_decoded_posix in
  dst ← lift (media_dst out_rel_posix);
  fs ← get_tree;
  dst_unique ← lift (unique_path_if_needed fs dst);
  copy_file_if_changed sha256 (Pathlib.name_of rel_src) data dst_unique;;
  rel_final ← lift (relative_to_media dst_unique);
  let out_rel_posix_final := to_posix (PathOps.to_str rel_final) in
  key_variants ←
    lift (strip_all (key_forms rel_src_posix
                     ++ key_forms rel_decoded_posix
                     ++ key_forms (Urllib.unquote rel_src_posix)));
  mret (foldl (fun idx k => <[k := out_rel_posix_final]> idx)
              idx key_variants).

Fixpoint build_media_index_from (idx : gmap str str)
    (media : list media_src) : io (gmap str str) :=
  match media with
  | [] => mret idx
  | (rel_src, MediaDir) :: rest => build_media_index_from idx rest
  | (rel_src, MediaFile data) :: rest =>
      idx' ← sync_media_file idx rel_src data;
      build_media_index_from idx' rest
  end.

Definition build_media_index_and_copy (media : list media_src)
    : io (gmap str str) :=
  build_media_index_from ∅ media.

(** The body of the loop of [migrate] for one page. *)
Definition migrate_page (page_index media_index : gmap str str)
    (src : page_src) : io unit :=
  rel_noext ← lift (PathOps.with_suffix src.1 []);
  rel_md ← lift (PathOps.with_suffix rel_noext (py ".md"));
  let rel_md_posix := to_posix (PathOps.to_str rel_md) in
  let dst := out_notes ++ rel_md in
  raw ← lift (match src.2 with
              | Some data => Ok (read_text_bytes data)
              | None => Raise OSError
              end);
  converted ← lift (convert_dokuwiki_to_markdown cwd raw rel_md_posix
                      page_index media_index);
  write_text_if_changed dst converted.

Fixpoint migrate_pages (page_index media_index : gmap str str)
    (pages : list page_src) : io unit :=
  match pages with
  | [] => mret tt
  | src :: rest =>
      migrate_page page_index media_index src;;
      migrate_pages page_index media_index rest
  end.

Definition migrate (pages : list page_src) (media : list media_src)
    : io unit :=
  safe_mkdir out_notes;;
  safe_mkdir out_media;;
  page_index ← lift (build_page_index pages);
  media_index ← build_media_index_and_copy media;
  migrate_pages page_index media_index pages.

End Pipeline.

(** ** Notions used by the properties *)

(** A path component that [normpath] keeps as it is. *)
Definition plain_comp (c : list N) : Prop :=
  c <> [] /\ c <> Posixpath.curdir /\ c <> Posixpath.pardir /\ c_slash ∉ c.

(** The components [normpath] collects are never empty and have no
    slash. *)
Definition kept (c : list N) : Prop := c <> [] /\ c_slash ∉ c.

(** What [abspath] puts before a relative path: the working directory,
    followed by a slash unless it is empty or ends with one; and the
    components [normpath] keeps of it. *)
Definition cwd_prefix (cwd : list N) : list N :=
  if bool_decide (cwd = []) || Str.endswith Posixpath.sep cwd then cwd
  else cwd ++ Posixpath.sep.

Definition cwd_comps (cwd : list N) : list (list N) :=
  foldl (Posixpath.normpath_step
           (Posixpath.initial_slashes_of (cwd_prefix cwd)))
        [] (removelast (Str.split c_slash (cwd_prefix cwd))).

(** A character of a bare page name: no white space and none of the
    characters that the resolver treats specially. *)
Definition name_char (c : N) : bool :=
  negb (Str.isspace c) && negb (bool_decide (c ∈ py "%?#:|./\")).

Definition bare_name (t : list N) : Prop :=
  t <> [] /\ Forall (fun c => name_char c = true) t.

(** The Page Index of a tree with the pages a/b/page.txt and a/b/c.txt. *)
Definition two_pages : list (list (list N) * option (list N)) :=
  [([py "a"; py "b"; py "page.txt"], Some (py "[[c]]"));
   ([py "a"; py "b"; py "c.txt"], Some (py "text"))].

Definition bytes123 : list N := [1; 2; 3].

(** An output tree that already holds media/a.png. *)
Definition tree_with_a : gmap (list (list N)) node :=
  <[[py "media"; py "a.png"] := File bytes123]> (<[[py "media"] := Dir]> ∅).

Definition media_a : list (list (list N) * media_kind) :=
  [([py "a.png"], MediaFile (Some bytes123))].

(** Two source files with the same bytes whose names decode to a.png. *)
Definition media_twins : list (list (list N) * media_kind) :=
  [([py "%61.png"], MediaFile (Some bytes123));
   ([py "a.png"], MediaFile (Some bytes123))].

Definition pages_p : list (list (list N) * option (list N)) :=
  [([py "p.txt"], Some (py "see {{a.png}}"))].

(** The output tree after a first run over [pages_p] and [media_a]. *)
Definition first_run_tree : gmap (list (list N)) node :=
  (migrate (fun b => b) (py "/home/u") pages_p media_a ∅).1.

(** The output path registered for a key by a run of the synchronizer. *)
Definition registered (r : result (gmap (list N) (list N))) (k : list N)
    : option (list N) :=
  match r with
  | Ok idx => idx !! k
  | Raise _ => None
  end.

(** A computation that never removes a path from the output tree. *)
Definition grows {A} (m : io A) : Prop :=
  forall (fs fs' : gmap (list (list N)) node) (r : result A),
    m fs = (fs', r) ->
    forall p : list (list N), is_Some (fs !! p) -> is_Some (fs' !! p).

(** ** Notions used by the further properties *)

(** The text before the first character that is one of [stops]. *)
Fixpoint before_any (stops : list N) (s : list N) : list N :=
  match s with
  | [] => []
  | c :: s' => if decide (c ∈ stops) then [] else c :: before_any stops s'
  end.

(** The text from the first [c] on, [c] included. *)
Fixpoint from_first (c : N) (s : list N) : list N :=
  match s with
  | [] => []
  | d :: s' => if decide (d = c) then s else from_first c s'
  end.

(** Every prefix of [done ++ todo] longer than [done] is a directory. *)
Fixpoint all_dirs (fs : gmap (list (list N)) node) (done todo : list (list N))
    : Prop :=
  match todo with
  | [] => True
  | c :: todo' =>
      fs !! (done ++ [c]) = Some Dir /\ all_dirs fs (done ++ [c]) todo'
  end.

(** The candidate number [i] of [unique_path_if_needed]. *)
Definition dup_path (parent : list (list N)) (stem suffix : list N) (i : N)
    : list (list N) :=
  parent ++ [stem ++ py "__dup"
             ++ py (NilEmpty.string_of_uint (N.to_uint i)) ++ suffix].

(** The number of files among the entries of a media scan. *)
Fixpoint count_files (media : list (list (list N) * media_kind)) : nat :=
  match media with
  | [] => 0
  | (_, MediaDir) :: rest => count_files rest
  | (_, MediaFile _) :: rest => S (count_files rest)
  end.

(** Some two neighbours [a], [b] of [s] satisfy [P a b]. *)
Fixpoint adjacent (P : N -> N -> bool) (s : list N) : bool :=
  match s with
  | [] => false
  | a :: s' =>
      match s' with
      | b :: _ => P a b || adjacent P s'
      | [] => false
      end
  end.

(** The opening of a wiki reference: the character [o] twice. *)
Definition opens (o : N) (a b : N) : bool :=
  bool_decide (a = o) && bool_decide (b = o).

(** Two blanks in a row, and a blank at the end of a line. *)
Definition two_blanks (a b : N) : bool := is_blank a && is_blank b.
Definition blank_then_lf (a b : N) : bool := is_blank a && (b =? c_lf).

(** The cleanup that ends [convert_dokuwiki_to_markdown]. *)
Definition cleanup (text : list N) : list N :=
  Str.replace c_bslash c_slash (sub_blank_eol [] (sub_multispace [] text)).

(** [pre] is empty or ends with a character that is no blank. *)
Definition ends_nonblank (pre : list N) : Prop :=
  forall p, last pre = Some p -> is_blank p = false.

(** The path of a page's note below notes/: [rel_md] of [migrate]. *)
Definition note_path (rel : list (list N)) : result (list (list N)) :=
  rel_noext ← PathOps.with_suffix rel [];
  PathOps.with_suffix rel_noext (py ".md").

(** * Properties *)

(** One step of a computation that has returned. *)
Ltac bind_ok := cbn [mbind result_bind mret result_ret].

(** ** Facts on the str methods *)

Section StrFacts.

Implicit Types (s p r : list N) (sep c : N).

Lemma break_notin sep s : sep ∉ s -> Str.break sep s = (s, None).
Proof.
  induction s as [|c s IH]; simpl; intros H; [done|].
  apply not_elem_of_cons in H as [Hc Hs].
  case_decide; [congruence|]. by rewrite IH.
Qed.

Lemma break_app sep p r :
  sep ∉ p -> Str.break sep (p ++ sep :: r) = (p, Some r).
Proof.
  induction p as [|c p IH]; simpl; intros H.
  - by case_decide.
  - apply not_elem_of_cons in H as [Hc Hp].
    case_decide; [congruence|]. by rewrite IH.
Qed.

(** A string that has [sep] splits at its first [sep]. *)
Lemma elem_of_first sep s :
  sep ∈ s -> exists p r, s = p ++ sep :: r /\ sep ∉ p.
Proof.
  induction s as [|c s IH]; intros H; [by apply elem_of_nil in H|].
  destruct (decide (c = sep)) as [->|Hne].
  - exists [], s. split; [done|]. apply not_elem_of_nil.
  - apply elem_of_cons in H as [->|H]; [done|].
    destruct (IH H) as (p & r & -> & Hp).
    exists (c :: p), r. split; [done|].
    apply not_elem_of_cons. split; [congruence|done].
Qed.

Lemma break_fst_notin sep s : sep ∉ (Str.break sep s).1.
Proof.
  induction s as [|c s IH]; simpl; [apply not_elem_of_nil|].
  case_decide; simpl; [apply not_elem_of_nil|].
  destruct (Str.break sep s) as [p r]; simpl in *.
  apply not_elem_of_cons. split; [congruence|done].
Qed.

Lemma break_fst_other sep c s :
  c ∉ s -> c ∉ (Str.break sep s).1.
Proof.
  induction s as [|d s IH]; simpl; intros H; [apply not_elem_of_nil|].
  apply not_elem_of_cons in H as [Hd Hs].
  case_decide; simpl; [apply not_elem_of_nil|].
  specialize (IH Hs). destruct (Str.break sep s) as [p r]; simpl in *.
  apply not_elem_of_cons. split; [congruence|done].
Qed.

Lemma split1_index0 sep s :
  Str.index0 (Str.split1 sep s) = Ok (Str.break sep s).1.
Proof.
  unfold Str.split1. by destruct (Str.break sep s) as [p [r|]].
Qed.

Lemma split1_unpack2 sep p r :
  sep ∉ p -> Str.unpack2 (Str.split1 sep (p ++ sep :: r)) = Ok (p, r).
Proof. intros H. unfold Str.split1. by rewrite break_app. Qed.

End StrFacts.

(** ** strip_query *)

Section StripQuery.

Implicit Types (s p r : list N).

Lemma strip_query_no_query s : c_q ∉ s -> strip_query s = Ok s.
Proof. intros H. unfold strip_query. by case_decide. Qed.

(** With an anchor: the query of the part before the first "#" goes. *)
Lemma strip_query_anchor p r :
  c_hash ∉ p -> c_q ∈ p ++ c_hash :: r ->
  strip_query (p ++ c_hash :: r)
  = Ok ((Str.break c_q p).1 ++ c_hash :: r).
Proof.
  intros Hp Hq. unfold strip_query.
  case_decide; [done|].
  case_decide as Hh.
  - rewrite split1_unpack2 by done. simpl.
    by rewrite split1_index0.
  - exfalso. apply Hh. apply elem_of_app. right. apply elem_of_cons. by left.
Qed.

Lemma strip_query_plain s :
  c_hash ∉ s -> c_q ∈ s -> strip_query s = Ok (Str.break c_q s).1.
Proof.
  intros Hh Hq. unfold strip_query.
  case_decide; [done|]. case_decide; [done|]. apply split1_index0.
Qed.

(** [strip_query] never raises. *)
Lemma strip_query_total s : exists r, strip_query s = Ok r.
Proof.
  destruct (decide (c_q ∈ s)) as [Hq|Hq];
    [|eexists; by apply strip_query_no_query].
  destruct (decide (c_hash ∈ s)) as [Hh|Hh];
    [|eexists; by apply strip_query_plain].
  destruct (elem_of_first _ _ Hh) as (p & r & -> & Hp).
  eexists. by apply strip_query_anchor.
Qed.

Lemma strip_query_idem s r :
  strip_query s = Ok r -> strip_query r = Ok r.
Proof.
  intros H.
  destruct (decide (c_q ∈ s)) as [Hq|Hq].
  2:{ rewrite strip_query_no_query in H by done. inversion H; subst.
      by apply strip_query_no_query. }
  destruct (decide (c_hash ∈ s)) as [Hh|Hh].
  - destruct (elem_of_first _ _ Hh) as (p & t & -> & Hp).
    rewrite strip_query_anchor in H by done. inversion H; subst; clear H.
    set (b := (Str.break c_q p).1).
    assert (Hbq : c_q ∉ b) by apply break_fst_notin.
    assert (Hbh : c_hash ∉ b) by by apply break_fst_other.
    destruct (decide (c_q ∈ b ++ c_hash :: t)) as [Hq'|Hq'];
      [|by apply strip_query_no_query].
    rewrite strip_query_anchor by done.
    by rewrite break_notin.
  - rewrite strip_query_plain in H by done. inversion H; subst.
    apply strip_query_no_query, break_fst_notin.
Qed.

End StripQuery.

(** C6.  [strip_query] on the two examples of its docstring; it returns a
    string without "?" unchanged; applying it to its own result changes
    nothing. *)
Theorem strip_query_spec :
  strip_query (py "image.png?800") = Ok (py "image.png")
  /\ strip_query (py "x.pdf?download#p=2") = Ok (py "x.pdf#p=2")
  /\ (forall s : list N, c_q ∉ s -> strip_query s = Ok s)
  /\ (forall s : list N, exists r,
        strip_query s = Ok r /\ strip_query r = Ok r).
Proof.
  split; [by vm_compute|]. split; [by vm_compute|].
  split; [apply strip_query_no_query|].
  intros s. destruct (strip_query_total s) as [r Hr].
  exists r. split; [done|]. by eapply strip_query_idem.
Qed.

Lemma strip_query_spec_witness :
  strip_query (py "notes/a.md") = Ok (py "notes/a.md").
Proof.
  apply (proj1 (proj2 (proj2 strip_query_spec))). compute_done.
Defined.

(** C10.  When the first "#" of a string comes before any "?",
    [strip_query] returns the string unchanged: a "?" inside the anchor
    is kept. *)
Theorem strip_query_anchor_first (p r : list N) :
  c_hash ∉ p -> c_q ∉ p ->
  strip_query (p ++ c_hash :: r) = Ok (p ++ c_hash :: r).
Proof.
  intros Hh Hq.
  destruct (decide (c_q ∈ p ++ c_hash :: r)) as [H|H];
    [|by apply strip_query_no_query].
  rewrite strip_query_anchor by done. by rewrite break_notin.
Qed.

Lemma strip_query_anchor_first_witness :
  strip_query (py "a#b?c") = Ok (py "a#b?c").
Proof.
  apply (strip_query_anchor_first (py "a") (py "b?c")); compute_done.
Defined.

(** ** split, and the segments of a path *)

Section SplitFacts.

Implicit Types (s : list N) (sep : N).

Lemma split_cons_shape sep s :
  Str.split sep s = hd [] (Str.split sep s) :: tl (Str.split sep s).
Proof. destruct s as [|c s]; simpl; [done|]. by case_decide. Qed.

Lemma split_app sep s1 s2 :
  Str.split sep (s1 ++ sep :: s2) = Str.split sep s1 ++ Str.split sep s2.
Proof.
  induction s1 as [|c s1 IH]; simpl.
  - by case_decide.
  - rewrite IH. case_decide; [done|].
    rewrite (split_cons_shape sep s1). done.
Qed.

Lemma to_posix_app s1 s2 : to_posix (s1 ++ s2) = to_posix s1 ++ to_posix s2.
Proof. apply fmap_app. Qed.

Lemma to_posix_idem s : to_posix (to_posix s) = to_posix s.
Proof.
  unfold to_posix, Str.replace. rewrite <- list_fmap_compose.
  apply list_fmap_ext. intros _ c _. simpl.
  repeat case_decide; subst; done.
Qed.

End SplitFacts.

(** ** unquote never returns an empty string for a non-empty one *)

Section UnquoteFacts.

Import Urllib.

Lemma decode_utf8_replace_nonempty (bs : list N) :
  bs <> [] -> decode_utf8_replace bs <> [].
Proof.
  destruct bs as [|b0 r0]; [done|]. intros _. simpl.
  repeat (case_match; try done).
Qed.

Lemma unquote_item_nonempty (item : list N) : unquote_item item <> [].
Proof. unfold unquote_item. repeat (case_match; try done). Qed.

Lemma unquote_to_bytes_nonempty (s : list N) :
  s <> [] -> unquote_to_bytes s <> [].
Proof.
  destruct s as [|c s]; [done|]. intros _.
  unfold unquote_to_bytes. simpl. case_decide.
  - rewrite (split_cons_shape c_pct s). simpl.
    pose proof (unquote_item_nonempty (hd [] (Str.split c_pct s))).
    destruct (unquote_item _); done.
  - done.
Qed.

Lemma unquote_parts_nonempty (s run : list N) :
  run <> [] \/ s <> [] -> unquote_parts run s <> [].
Proof.
  revert run. induction s as [|c s IH]; intros run H; simpl.
  - destruct H as [H|H]; [|done].
    by apply decode_utf8_replace_nonempty, unquote_to_bytes_nonempty.
  - case_match.
    + apply IH. left. by destruct run.
    + by destruct (unquote_run run).
Qed.

Lemma unquote_nonempty (s : list N) : s <> [] -> unquote s <> [].
Proof.
  intros H. unfold unquote. case_decide; [|done].
  apply unquote_parts_nonempty. by right.
Qed.

(** An item that does not start with two hex digits keeps its "%". *)
Lemma unquote_item_literal (item : list N) :
  (forall a b rest, item = a :: b :: rest ->
     hexval a = None \/ hexval b = None) ->
  unquote_item item = c_pct :: item.
Proof.
  intros H. unfold unquote_item.
  destruct item as [|a [|b rest]]; [done..|].
  destruct (H a b rest eq_refl) as [-> | ->]; [done|].
  by destruct (hexval a).
Qed.

End UnquoteFacts.

(** ** relposix *)

Section Relposix.

Implicit Types (cwd from_dir to_path start : list N).

Lemma join_star_nonempty (l : list (list N)) :
  l <> [] -> exists r, Posixpath.join_star l = Ok r.
Proof. destruct l as [|a p]; [done|]. intros _. by eexists. Qed.

Lemma relpath_nonempty cwd to_path start :
  to_path <> [] -> exists r, Posixpath.relpath cwd to_path start = Ok r.
Proof.
  intros H. unfold Posixpath.relpath.
  case_decide; [done|].
  case_decide; [by eexists|].
  by apply join_star_nonempty.
Qed.

Lemma relposix_nonempty cwd from_dir to_path :
  to_path <> [] -> exists r, relposix cwd from_dir to_path = Ok r.
Proof.
  intros H. unfold relposix.
  destruct (relpath_nonempty cwd to_path
              (if decide (from_dir = []) then Posixpath.curdir
               else from_dir) H) as [r ->].
  by eexists.
Qed.

Lemma relposix_empty cwd from_dir :
  relposix cwd from_dir [] = Raise ValueError.
Proof. done. Qed.

End Relposix.

(** C5, as the code has it.  [to_posix] and [decode_path_segments] use no
    operation that can raise and are total functions; [strip_query]
    returns a result for every string; [relposix] returns a result for
    every start directory and every target that is not empty, and raises
    ValueError on the empty target; an escape that is not "%" and two hex
    digits is left as it is written. *)
Theorem path_utils_total :
  (forall s : list N, exists r, strip_query s = Ok r)
  /\ (forall cwd from_dir to_path : list N,
        to_path <> [] -> exists r, relposix cwd from_dir to_path = Ok r)
  /\ (forall cwd from_dir : list N,
        relposix cwd from_dir [] = Raise ValueError)
  /\ (forall item : list N,
        (forall a b rest, item = a :: b :: rest ->
           Urllib.hexval a = None \/ Urllib.hexval b = None) ->
        Urllib.unquote_item item = c_pct :: item)
  /\ decode_path_segments (py "a%zz\100%/%4/%C3%28") 
     = py "a%zz/100%/%4/" ++ [Urllib.FFFD] ++ py "(".
Proof.
  split; [apply strip_query_total|].
  split; [apply relposix_nonempty|].
  split; [apply relposix_empty|].
  split; [apply unquote_item_literal|].
  by vm_compute.
Qed.

Lemma path_utils_total_witness :
  (exists r, relposix (py "/home/u") (py "a/b") (py "a/b/c.md") = Ok r)
  /\ Urllib.unquote_item (py "zz") = c_pct :: py "zz".
Proof.
  split.
  - apply (proj1 (proj2 path_utils_total)). done.
  - apply (proj1 (proj2 (proj2 (proj2 path_utils_total)))).
    intros a b rest Heq. inversion Heq; subst. by left.
Defined.

(** C5 as the specification states it fails: [relposix] raises on an
    empty target path. *)
Lemma relposix_not_total :
  relposix (py "/home/u") (py "a") (py "") = Raise ValueError
  /\ ~ (forall cwd from_dir to_path : list N,
          exists r, relposix cwd from_dir to_path = Ok r).
Proof.
  split; [done|].
  intros H. destruct (H (py "/home/u") (py "a") (py "")) as [r Hr].
  discriminate Hr.
Qed.

(** ** The relative path between two notes of one directory *)

Section SameDir.

Import Posixpath.
Implicit Types (s pre : list N) (M d : list (list N)).

Lemma split_notin sep s : sep ∉ s -> Str.split sep s = [s].
Proof.
  induction s as [|c s IH]; simpl; intros H; [done|].
  apply not_elem_of_cons in H as [Hc Hs].
  case_decide; [congruence|]. by rewrite IH.
Qed.

Lemma split_join M :
  M <> [] -> Forall (fun c => c_slash ∉ c) M ->
  Str.split c_slash (Str.join sep M) = M.
Proof.
  induction M as [|p M IH]; [done|]. intros _ HM.
  apply Forall_cons in HM as [Hp HM].
  destruct M as [|q M].
  - simpl. by apply split_notin.
  - change (Str.join sep (p :: q :: M))
      with (p ++ c_slash :: Str.join sep (q :: M)).
    rewrite split_app, IH by done. by rewrite split_notin.
Qed.

Lemma split_slash_free sep s : Forall (fun c => sep ∉ c) (Str.split sep s).
Proof.
  induction s as [|c s IH]; simpl.
  - constructor; [apply not_elem_of_nil|constructor].
  - rewrite (split_cons_shape sep s) in IH.
    apply Forall_cons in IH as [Hh Ht].
    case_decide.
    + constructor; [apply not_elem_of_nil|].
      rewrite (split_cons_shape sep s). by constructor.
    + constructor; [|done].
      apply not_elem_of_cons. split; [congruence|done].
Qed.

Lemma split_slashes n s :
  Str.split c_slash (replicate n c_slash ++ s)
  = replicate n [] ++ Str.split c_slash s.
Proof.
  induction n as [|n IH]; [done|].
  change (replicate (S n) c_slash ++ s)
    with ([] ++ c_slash :: (replicate n c_slash ++ s)).
  by rewrite split_app, IH.
Qed.

Lemma filter_nonempty_replicate n M :
  filter (fun x : list N => x <> []) (replicate n [] ++ M)
  = filter (fun x : list N => x <> []) M.
Proof.
  induction n as [|n IH]; [done|]. simpl.
  by rewrite filter_cons_False by tauto.
Qed.

Lemma filter_all_nonempty M :
  Forall (fun c => c <> []) M -> filter (fun x : list N => x <> []) M = M.
Proof.
  induction 1 as [|c M Hc HM IH]; [done|].
  by rewrite filter_cons_True, IH.
Qed.

Lemma normpath_step_plain n acc c :
  plain_comp c -> normpath_step n acc c = acc ++ [c].
Proof.
  intros (H1 & H2 & H3 & _). unfold normpath_step.
  case_decide; [tauto|]. case_decide; [done|tauto].
Qed.

Lemma normpath_fold_plain n acc d :
  Forall plain_comp d -> foldl (normpath_step n) acc d = acc ++ d.
Proof.
  intros H. revert acc.
  induction H as [|c d Hc Hd IH]; intros acc; simpl.
  - by rewrite app_nil_r.
  - rewrite normpath_step_plain, IH by done. by rewrite <- app_assoc.
Qed.

Lemma normpath_step_kept n acc c :
  Forall kept acc -> c_slash ∉ c -> Forall kept (normpath_step n acc c).
Proof.
  intros Hacc Hc. unfold normpath_step.
  case_decide as H1; [done|]. case_decide.
  - apply Forall_app. split; [done|].
    constructor; [|constructor]. split; [tauto|done].
  - clear -Hacc. induction Hacc as [|x acc Hx Hacc IH]; [constructor|].
    destruct acc; [constructor|]. constructor; done.
Qed.

Lemma normpath_fold_kept n acc l :
  Forall kept acc -> Forall (fun c => c_slash ∉ c) l ->
  Forall kept (foldl (normpath_step n) acc l).
Proof.
  intros Hacc Hl. revert acc Hacc.
  induction Hl as [|c l Hc Hl IH]; intros acc Hacc; simpl; [done|].
  apply IH. by apply normpath_step_kept.
Qed.

Lemma plain_kept d : Forall plain_comp d -> Forall kept d.
Proof.
  intros H. eapply Forall_impl; [exact H|].
  intros c (? & _ & _ & ?). by split.
Qed.

Lemma startswith_slashes q pre c rest :
  q <> [] -> Forall (fun x => x = c_slash) q -> c <> c_slash ->
  Str.startswith q (pre ++ c :: rest) = Str.startswith q pre.
Proof.
  intros Hq Hall Hc. revert q Hq Hall.
  induction pre as [|x pre IH]; intros q Hq Hall.
  - destruct q as [|a q]; [done|]. simpl.
    apply Forall_cons in Hall as [-> _].
    rewrite bool_decide_eq_false_2; [done|congruence].
  - destruct q as [|a q]; [done|]. simpl.
    apply Forall_cons in Hall as [_ Hall].
    destruct q as [|b q]; [done|]. by rewrite IH.
Qed.

Lemma initial_slashes_app pre c rest :
  c <> c_slash ->
  initial_slashes_of (pre ++ c :: rest) = initial_slashes_of pre.
Proof.
  intros Hc. unfold initial_slashes_of.
  rewrite !startswith_slashes; try done; repeat constructor.
Qed.

End SameDir.

Section Abspath.

Import Posixpath.
Implicit Types (cwd s pre : list N) (M d : list (list N)).

Lemma cwd_prefix_shape cwd :
  cwd_prefix cwd = [] \/ exists X, cwd_prefix cwd = X ++ [c_slash].
Proof.
  unfold cwd_prefix.
  destruct (bool_decide (cwd = [])) eqn:He; simpl.
  - left. by apply bool_decide_eq_true in He.
  - right. destruct (Str.endswith sep cwd) eqn:Hs; [|by eexists].
    unfold Str.endswith in Hs.
    destruct (reverse cwd) as [|x Y] eqn:Hr; [done|].
    simpl in Hs. apply andb_true_iff in Hs as [Hx _].
    apply bool_decide_eq_true in Hx. subst x.
    exists (reverse Y).
    rewrite <- (reverse_involutive cwd), Hr. by rewrite reverse_cons.
Qed.

Lemma split_prefix pre s :
  (pre = [] \/ exists X, pre = X ++ [c_slash]) ->
  Str.split c_slash (pre ++ s)
  = removelast (Str.split c_slash pre) ++ Str.split c_slash s.
Proof.
  intros [->|[X ->]]; [done|].
  rewrite <- app_assoc. simpl. rewrite !split_app.
  change (Str.split c_slash []) with [@nil N].
  by rewrite removelast_last.
Qed.

Lemma join_head d :
  d <> [] -> Forall plain_comp d ->
  exists c rest, Str.join sep d = c :: rest /\ c <> c_slash.
Proof.
  destruct d as [|c0 d]; [done|]. intros _ H.
  apply Forall_cons in H as [(Hne & _ & _ & Hs) _].
  destruct c0 as [|c r]; [done|].
  exists c. destruct d; simpl; eexists; (split; [done|]);
    intros ->; apply Hs; by left.
Qed.

Lemma abspath_join cwd d :
  d <> [] -> Forall plain_comp d ->
  abspath cwd (Str.join sep d) = normpath (cwd_prefix cwd ++ Str.join sep d).
Proof.
  intros Hd Hp. destruct (join_head d Hd Hp) as (c & rest & -> & Hc).
  unfold abspath, isabs, join, join_step, cwd_prefix. simpl.
  rewrite bool_decide_eq_false_2 by congruence. simpl.
  destruct (bool_decide (cwd = []) || Str.endswith sep cwd); [done|].
  by rewrite <- app_assoc.
Qed.

(** The components of the absolute path of a relative path made of
    plain components. *)
Lemma abspath_parts cwd d :
  d <> [] -> Forall plain_comp d ->
  filter (fun x : list N => x <> [])
    (Str.split c_slash (abspath cwd (Str.join sep d)))
  = cwd_comps cwd ++ d.
Proof.
  intros Hd Hp. rewrite abspath_join by done.
  assert (Hsf : Forall (fun c => c_slash ∉ c) d).
  { eapply Forall_impl; [exact Hp|]. by intros c (_ & _ & _ & ?). }
  assert (HM : Forall kept (cwd_comps cwd ++ d)).
  { apply Forall_app. split; [|by apply plain_kept].
    apply normpath_fold_kept; [constructor|].
    pose proof (split_slash_free c_slash (cwd_prefix cwd)) as H.
    clear -H. induction H as [|x l Hx Hl IH]; [constructor|].
    destruct l; [constructor|]. simpl. constructor; [done|]. apply IH. }
  assert (HMne : cwd_comps cwd ++ d <> []) by by destruct (cwd_comps cwd), d.
  assert (HMs : Forall (fun c => c_slash ∉ c) (cwd_comps cwd ++ d)).
  { eapply Forall_impl; [exact HM|]. by intros c [_ ?]. }
  destruct (join_head d Hd Hp) as (c & rest & Hj & Hc).
  unfold normpath.
  case_decide as Hnil.
  { rewrite Hj in Hnil. by destruct (cwd_prefix cwd). }
  rewrite split_prefix by apply cwd_prefix_shape.
  rewrite (split_join d) by done.
  rewrite foldl_app.
  assert (Hi : initial_slashes_of (cwd_prefix cwd ++ Str.join sep d)
               = initial_slashes_of (cwd_prefix cwd))
    by (rewrite Hj; by apply initial_slashes_app).
  rewrite !Hi. fold (cwd_comps cwd).
  rewrite normpath_fold_plain by done.
  case_decide as Hempty.
  { exfalso. apply app_eq_nil in Hempty as [_ Hempty].
    pose proof (split_join _ HMne HMs) as Hs. rewrite Hempty in Hs.
    simpl in Hs. rewrite <- Hs in HM.
    apply Forall_cons in HM as [[? _] _]. done. }
  rewrite split_slashes, filter_nonempty_replicate, split_join by done.
  apply filter_all_nonempty.
  eapply Forall_impl; [exact HM|]. by intros x [? _].
Qed.

Lemma commonprefix_app (l r : list (list N)) :
  commonprefix l (l ++ r) = l.
Proof.
  induction l as [|x l IH]; simpl; [by destruct r|].
  case_decide; [|done]. by rewrite IH.
Qed.

(** From the directory [d] to the file [name] of that directory the
    relative path is [name], whatever the working directory. *)
Lemma relposix_same_dir cwd d name :
  d <> [] -> Forall plain_comp d -> plain_comp name -> c_bslash ∉ name ->
  relposix cwd (Str.join sep d) (Str.join sep (d ++ [name])) = Ok name.
Proof.
  intros Hd Hp Hn Hb.
  assert (Hp' : Forall plain_comp (d ++ [name])).
  { apply Forall_app. split; [done|]. by constructor. }
  assert (Hd' : d ++ [name] <> []) by by destruct d.
  destruct (join_head d Hd Hp) as (c & rest & Hj & _).
  destruct (join_head _ Hd' Hp') as (c' & rest' & Hj' & _).
  unfold relposix, relpath.
  rewrite (decide_False (P := Str.join sep d = [])) by by rewrite Hj.
  rewrite (decide_False (P := Str.join sep (d ++ [name]) = []))
    by by rewrite Hj'.
  rewrite !abspath_parts by done.
  rewrite app_assoc, commonprefix_app, Nat.sub_diag, drop_app_length.
  simpl. f_equal.
  unfold Str.replace. rewrite <- (list_fmap_id name) at 2.
  apply list_fmap_ext. intros i x Hx. simpl.
  case_decide; [|done]. subst x. exfalso. apply Hb.
  by eapply list_elem_of_lookup_2.
Qed.

End Abspath.

(** ** Bare page names *)

Section BareNames.

Implicit Types (t s ns : list N) (c : N).

Lemma bare_notin t c : bare_name t -> name_char c = false -> c ∉ t.
Proof.
  intros [_ H] Hc Hin. rewrite Forall_forall in H.
  specialize (H c Hin). congruence.
Qed.

Lemma bare_nospace t : bare_name t -> Forall (fun c => Str.isspace c = false) t.
Proof.
  intros [_ H]. eapply Forall_impl; [exact H|].
  intros c Hc. unfold name_char in Hc.
  apply andb_true_iff in Hc as [Hc _]. by apply negb_true_iff in Hc.
Qed.

Lemma lstrip_by_id f s :
  Forall (fun c => f c = false) s -> Str.lstrip_by f s = s.
Proof. destruct 1 as [|c s Hc Hs]; simpl; [done|]. by rewrite Hc. Qed.

Lemma strip_id s : Forall (fun c => Str.isspace c = false) s -> Str.strip s = s.
Proof.
  intros H. unfold Str.strip, Str.rstrip_by.
  rewrite (lstrip_by_id _ s) by done.
  rewrite lstrip_by_id; [apply reverse_involutive|].
  by apply Forall_reverse.
Qed.

Lemma sub_spaces_id s :
  Forall (fun c => Str.isspace c = false) s -> sub_spaces false s = s.
Proof.
  induction 1 as [|c s Hc Hs IH]; simpl; [done|]. by rewrite Hc, IH.
Qed.

Lemma unquote_no_percent s : c_pct ∉ s -> Urllib.unquote s = s.
Proof. intros H. unfold Urllib.unquote. by case_decide. Qed.

Lemma split_anchor_none s : c_hash ∉ s -> split_anchor s = Ok (s, []).
Proof. intros H. unfold split_anchor. by case_decide. Qed.

Lemma replace_notin a b s : a ∉ s -> Str.replace a b s = s.
Proof.
  intros H. unfold Str.replace. rewrite <- (list_fmap_id s) at 2.
  apply list_fmap_ext. intros i x Hx. simpl.
  case_decide; [|done]. subst x. exfalso. apply H.
  by eapply list_elem_of_lookup_2.
Qed.

Lemma rsplit1_last ns s c :
  c ∉ s -> Str.rsplit1 c (ns ++ c :: s) = [ns; s].
Proof.
  intros H. unfold Str.rsplit1.
  rewrite reverse_app, reverse_cons, <- app_assoc. simpl.
  rewrite break_app by by rewrite elem_of_reverse.
  by rewrite !reverse_involutive.
Qed.

Lemma ci_startswith_elem p s x :
  ci_startswith p s = true -> x ∈ p ->
  (forall c, ci_match x c = true -> c = x) -> x ∈ s.
Proof.
  intros H Hx Hm. revert s H.
  induction p as [|a p IH]; intros s H; [by apply elem_of_nil in Hx|].
  destruct s as [|b s]; [done|]. simpl in H.
  apply andb_true_iff in H as [Hab Hps].
  apply elem_of_cons in Hx as [->|Hx].
  - rewrite (Hm b Hab). by left.
  - right. by apply IH.
Qed.

Lemma is_external_colon s : c_colon ∉ s -> is_external s = false.
Proof.
  intros H. apply not_true_is_false. intros He. apply H.
  assert (Hm : forall c, ci_match c_colon c = true -> c = c_colon).
  { intros c Hc. unfold ci_match in Hc. simpl in Hc.
    rewrite !orb_false_r in Hc. by apply N.eqb_eq in Hc. }
  unfold is_external in He.
  apply orb_true_iff in He as [He|He];
    [apply orb_true_iff in He as [He|He]|];
    (eapply ci_startswith_elem; [exact He| |exact Hm]); compute_done.
Qed.

Lemma bare_comps t : bare_name t -> Pathlib.comps t = [t].
Proof.
  intros Ht. unfold Pathlib.comps.
  rewrite split_notin by (apply (bare_notin t); done).
  rewrite filter_cons_True; [done|].
  split; [apply Ht|]. intros ->.
  destruct Ht as [_ Ht]. by apply Forall_cons in Ht as [? _].
Qed.

Lemma bare_split_suffix t : bare_name t -> Pathlib.split_suffix t = None.
Proof.
  intros Ht. unfold Pathlib.split_suffix.
  rewrite break_notin; [done|].
  rewrite elem_of_reverse. by apply (bare_notin t).
Qed.

Lemma bare_suffix t : bare_name t -> Pathlib.suffix t = [].
Proof.
  intros Ht. unfold Pathlib.suffix, Pathlib.suffix_of, Pathlib.name_of.
  rewrite bare_comps by done. simpl. by rewrite bare_split_suffix.
Qed.

Lemma bare_path_name t : bare_name t -> Pathlib.name t = t.
Proof.
  intros Ht. unfold Pathlib.name, Pathlib.name_of.
  by rewrite bare_comps.
Qed.

End BareNames.

(** ** Page-link resolution *)

Section Resolve.

Implicit Types (t ns page cur raw : list N) (idx : gmap (list N) (list N)).

Lemma resolve_page_id_total raw cur :
  exists r, resolve_page_id raw cur = Ok r.
Proof.
  unfold resolve_page_id.
  destruct (strip_query_total (Urllib.unquote (Str.strip raw))) as [q ->].
  simpl.
  assert (Ha : exists t a, split_anchor q = Ok (t, a)).
  { unfold split_anchor. case_decide as Hh; [|by eexists _, _].
    destruct (elem_of_first _ _ Hh) as (p & r & -> & Hp).
    rewrite split1_unpack2 by done. by eexists _, _. }
  destruct Ha as (t & a & ->). simpl.
  case_decide; [by eexists|].
  destruct (bool_decide (c_colon ∈ _) || _); simpl; [by eexists|].
  case_decide as Hc; simpl; [|by eexists].
  unfold Str.rsplit1.
  destruct (Str.break c_colon (reverse cur)) as [p [r|]]; simpl; by eexists.
Qed.

(** A bare name is resolved in the namespace of the current page. *)
Lemma resolve_page_id_bare t ns page :
  bare_name t -> ns <> [] -> c_colon ∉ page ->
  resolve_page_id t (ns ++ c_colon :: page)
  = Ok (Some (Str.strip (sub_spaces false (ns ++ c_colon :: t)), [])).
Proof.
  intros Ht Hns Hpage. unfold resolve_page_id.
  rewrite strip_id by by apply bare_nospace.
  rewrite unquote_no_percent by by apply (bare_notin t).
  rewrite strip_query_no_query by by apply (bare_notin t).
  bind_ok. rewrite split_anchor_none by by apply (bare_notin t).
  bind_ok. rewrite decide_False by apply Ht.
  assert (Hc : c_colon ∉ t) by by apply (bare_notin t).
  assert (Hs : Str.startswith [c_colon] t = false).
  { destruct t as [|c t]; [done|]. simpl.
    rewrite bool_decide_eq_false_2; [done|].
    intros <-. apply Hc. by left. }
  rewrite Hs, bool_decide_eq_false_2 by done.
  cbn [orb]. rewrite decide_True by (apply elem_of_app; right; by left).
  rewrite rsplit1_last by done. cbn [Str.index0]. bind_ok.
  by rewrite decide_False.
Qed.

Lemma resolve_page_target_total raw cur idx :
  exists r, resolve_page_target raw cur idx = Ok r.
Proof.
  unfold resolve_page_target.
  destruct (resolve_page_id_total raw cur) as [[[rid a]|] ->]; simpl;
    by eexists.
Qed.

Lemma resolve_page_target_dangling raw cur idx rid anchor :
  resolve_page_id raw cur = Ok (Some (rid, anchor)) ->
  idx !! rid = None -> idx !! (c_colon :: rid) = None ->
  resolve_page_target raw cur idx
  = Ok (to_posix (Str.replace c_colon c_slash rid ++ py ".md") ++ anchor).
Proof.
  intros Hr H1 H2. unfold resolve_page_target. rewrite Hr. simpl.
  by rewrite H1, H2.
Qed.

End Resolve.

(** ** Rendering of a link to a page of the same namespace *)

Section RenderLink.

Implicit Types (cwd t : list N) (idx midx : gmap (list N) (list N)).

Lemma bare_md_plain t : bare_name t -> plain_comp (t ++ py ".md").
Proof.
  intros Ht. pose proof (bare_notin t c_slash Ht eq_refl) as Hs.
  assert (Hn : c_slash ∉ t ++ py ".md").
  { intros H. apply elem_of_app in H as [H|H]; [done|].
    revert H. compute_done. }
  assert (Hl : (4 <= length (t ++ py ".md"))%nat).
  { rewrite length_app. change (length (py ".md")) with 3%nat.
    destruct Ht as [Hne _]. destruct t; [done|]. simpl. lia. }
  repeat split; [| | |done]; intros H; rewrite H in Hl; simpl in Hl; lia.
Qed.

Lemma relposix_sibling cwd t :
  bare_name t ->
  relposix cwd (py "a/b") (py "a/b/" ++ t ++ py ".md") = Ok (t ++ py ".md").
Proof.
  intros Ht.
  apply (relposix_same_dir cwd [py "a"; py "b"] (t ++ py ".md")).
  - done.
  - repeat constructor; compute_done.
  - by apply bare_md_plain.
  - intros H. apply elem_of_app in H as [H|H].
    + by apply (bare_notin t c_bslash Ht).
    + revert H. compute_done.
Qed.

(** The page branch of [repl_link] for a bare name, given what
    [resolve_page_target] returns for it. *)
Lemma repl_link_page cwd idx midx t :
  bare_name t ->
  resolve_page_target t (py "a:b:page") idx
  = Ok (py "a/b/" ++ t ++ py ".md") ->
  repl_link cwd (py "a/b") (py "a:b:page") idx midx t
  = Ok (py "[" ++ t ++ py "](" ++ (t ++ py ".md") ++ py ")").
Proof.
  intros Ht Hres.
  pose proof (bare_nospace t Ht) as Hsp.
  unfold repl_link. cbv zeta.
  rewrite !(strip_id t) by done.
  rewrite (decide_False (P := c_pipe ∈ t)) by by apply (bare_notin t).
  bind_ok. rewrite (decide_False (P := t = [])) by apply Ht.
  rewrite is_external_colon by by apply (bare_notin t).
  rewrite strip_query_no_query by by apply (bare_notin t).
  bind_ok. rewrite unquote_no_percent by by apply (bare_notin t).
  rewrite !(strip_id t) by done.
  rewrite split_anchor_none by by apply (bare_notin t).
  bind_ok. rewrite bare_suffix by done.
  change (bool_decide (Str.lower [] <> []) && _) with false. cbv iota.
  rewrite Hres. bind_ok.
  rewrite (decide_False (P := py "a/b/" ++ t ++ py ".md" = [])) by done.
  rewrite split_anchor_none.
  2:{ intros H. apply elem_of_app in H as [H|H]; [revert H; compute_done|].
      apply elem_of_app in H as [H|H]; [|revert H; compute_done].
      by apply (bare_notin t c_hash Ht). }
  bind_ok. rewrite relposix_sibling by done. bind_ok.
  rewrite (decide_True (P := @nil N = [])) by done.
  rewrite (decide_False (P := c_colon ∈ t)) by by apply (bare_notin t).
  bind_ok. rewrite bare_path_name by done.
  by rewrite app_nil_r.
Qed.

Lemma nospace_ab t :
  bare_name t -> Forall (fun c => Str.isspace c = false) (py "a:b:" ++ t).
Proof.
  intros Ht. apply Forall_app. split; [|by apply bare_nospace].
  repeat constructor.
Qed.

Lemma resolve_page_id_ab t :
  bare_name t ->
  resolve_page_id t (py "a:b:page") = Ok (Some (py "a:b:" ++ t, [])).
Proof.
  intros Ht.
  pose proof (resolve_page_id_bare t (py "a:b") (py "page") Ht) as H.
  rewrite sub_spaces_id, strip_id in H by by apply nospace_ab.
  apply H; [done|compute_done].
Qed.

Lemma synth_md_ab t :
  bare_name t -> to_posix (synth_md (py "a:b:" ++ t)) = py "a/b/" ++ t ++ py ".md".
Proof.
  intros Ht. unfold synth_md, to_posix.
  assert (Hr : Str.replace c_colon c_slash (py "a:b:" ++ t) = py "a/b/" ++ t).
  { unfold Str.replace. rewrite fmap_app. f_equal.
    apply (replace_notin c_colon c_slash t). by apply (bare_notin t). }
  rewrite Hr, <- app_assoc. apply replace_notin.
  intros H. apply elem_of_app in H as [H|H]; [revert H; compute_done|].
  apply elem_of_app in H as [H|H]; [|revert H; compute_done].
  by apply (bare_notin t c_bslash Ht).
Qed.

End RenderLink.

(** ** A page that holds one link *)

Section OneLink.

Implicit Types (cwd t : list N) (idx midx : gmap (list N) (list N)).

Lemma note_context :
  Posixpath.dirname (py "a/b/page.md") = py "a/b"
  /\ current_page_id_from_rel (py "a/b/page.md") = py "a:b:page".
Proof. split; by vm_compute. Qed.

(** Conversion of the text "[[name]]" of the note a/b/page.md, for a
    closed [name], from what [repl_link] returns for the name. *)
Lemma convert_one_link cwd idx midx (name out : string) :
  (forall rm, sub_brackets (ch "{") (ch "}") rm 0
                (normalize_newlines (py ("[[" ++ name ++ "]]")))
              = Ok (py ("[[" ++ name ++ "]]"))) ->
  (forall rl, sub_brackets (ch "[") (ch "]") rl 0
                (py ("[[" ++ name ++ "]]"))
              = r ← rl (py name); Ok (r ++ [])) ->
  Str.replace c_bslash c_slash
    (sub_blank_eol [] (sub_multispace [] (py out ++ []))) = py out ->
  repl_link cwd (py "a/b") (py "a:b:page") idx midx (py name)
  = Ok (py out) ->
  convert_dokuwiki_to_markdown cwd (py ("[[" ++ name ++ "]]"))
    (py "a/b/page.md") idx midx = Ok (py out).
Proof.
  intros E1 E2 E3 H. unfold convert_dokuwiki_to_markdown. cbv zeta.
  destruct note_context as [-> ->].
  rewrite E1. bind_ok. rewrite E2, H. bind_ok. by rewrite E3.
Qed.

End OneLink.

(** C7.  A link target that is a bare name is resolved in the namespace of
    the current page: from a page [ns:page] the name [t] becomes the
    identifier [ns:t].  From the note a/b/page.md, with [a:b:t] indexed at
    a/b/t.md, [resolve_page_target] returns a/b/t.md, the relative path
    from a/b to it is t.md for every working directory, and the link
    [[t]] is rendered [t](t.md); in particular [[c]] becomes [c](c.md)
    with the index built from the pages a/b/page.txt and a/b/c.txt. *)
Theorem relative_page_link :
  (forall t ns page : list N,
     bare_name t -> ns <> [] ->
     Forall (fun c => Str.isspace c = false) ns -> c_colon ∉ page ->
     resolve_page_id t (ns ++ c_colon :: page)
     = Ok (Some (ns ++ c_colon :: t, [])))
  /\ (forall (cwd t : list N) (idx midx : gmap (list N) (list N)),
        bare_name t ->
        idx !! (py "a:b:" ++ t) = Some (py "a/b/" ++ t ++ py ".md") ->
        resolve_page_id t (current_page_id_from_rel (py "a/b/page.md"))
        = Ok (Some (py "a:b:" ++ t, []))
        /\ resolve_page_target t
             (current_page_id_from_rel (py "a/b/page.md")) idx
           = Ok (py "a/b/" ++ t ++ py ".md")
        /\ relposix cwd (Posixpath.dirname (py "a/b/page.md"))
             (py "a/b/" ++ t ++ py ".md")
           = Ok (t ++ py ".md")
        /\ repl_link cwd (Posixpath.dirname (py "a/b/page.md"))
             (current_page_id_from_rel (py "a/b/page.md")) idx midx t
           = Ok (py "[" ++ t ++ py "](" ++ (t ++ py ".md") ++ py ")"))
  /\ (forall (cwd : list N) (midx : gmap (list N) (list N)),
        exists idx,
          build_page_index two_pages = Ok idx
          /\ idx !! py "a:b:c" = Some (py "a/b/c.md")
          /\ convert_dokuwiki_to_markdown cwd (py "[[c]]")
               (py "a/b/page.md") idx midx
             = Ok (py "[c](c.md)")).
Proof.
  assert (Hgen : forall (cwd t : list N) (idx midx : gmap (list N) (list N)),
    bare_name t ->
    idx !! (py "a:b:" ++ t) = Some (py "a/b/" ++ t ++ py ".md") ->
    resolve_page_target t (py "a:b:page") idx
    = Ok (py "a/b/" ++ t ++ py ".md")).
  { intros cwd t idx midx Ht Hidx. unfold resolve_page_target.
    rewrite resolve_page_id_ab by done. bind_ok.
    rewrite Hidx. cbn [py_or app]. rewrite app_nil_r.
    f_equal. rewrite <- (synth_md_ab t Ht). apply to_posix_idem. }
  split; [|split].
  - intros t ns page Ht Hns Hsp Hpage.
    rewrite resolve_page_id_bare by done.
    assert (Hall : Forall (fun c => Str.isspace c = false) (ns ++ c_colon :: t)).
    { apply Forall_app. split; [done|].
      constructor; [done|by apply bare_nospace]. }
    by rewrite sub_spaces_id, strip_id.
  - intros cwd t idx midx Ht Hidx.
    destruct note_context as [-> ->].
    split; [by apply resolve_page_id_ab|].
    split; [by eapply Hgen|].
    split; [by apply relposix_sibling|].
    apply repl_link_page; [done|]. by eapply Hgen.
  - intros cwd midx.
    assert (Hex : exists idx, build_page_index two_pages = Ok idx)
      by (vm_compute; eexists; reflexivity).
    destruct Hex as [idx Hb].
    assert (Hidx : registered (build_page_index two_pages) (py "a:b:c")
                   = Some (py "a/b/c.md")) by (vm_compute; reflexivity).
    rewrite Hb in Hidx. cbn [registered] in Hidx.
    exists idx. split; [done|]. split; [done|].
    apply (convert_one_link cwd idx midx "c" "[c](c.md)").
    + intros rm. by vm_compute.
    + intros rl. vm_compute. by destruct (rl _).
    + by vm_compute.
    + assert (Hc : bare_name (py "c")) by (split; [done|]; repeat constructor).
      apply (repl_link_page cwd idx midx (py "c") Hc).
      by apply (Hgen cwd (py "c") idx midx Hc).
Qed.

Lemma relative_page_link_witness :
  repl_link (py "/home/u") (Posixpath.dirname (py "a/b/page.md"))
    (current_page_id_from_rel (py "a/b/page.md"))
    (<[py "a:b:c" := py "a/b/c.md"]> ∅) ∅ (py "c")
  = Ok (py "[c](c.md)").
Proof.
  apply (proj1 (proj2 relative_page_link) (py "/home/u") (py "c")
           (<[py "a:b:c" := py "a/b/c.md"]> ∅) ∅).
  - split; [done|]. repeat constructor.
  - by vm_compute.
Defined.

(** The resolver on a miss.  [resolve_page_target] never raises.  When
    the identifier it resolves is in the Page Index neither as it is nor
    with a leading colon, it returns the path made from the identifier,
    colons turned into slashes and ".md" appended (separators normalized
    as for every result), followed by the anchor; that is not the empty
    string, so [repl_link] does not drop the link.  From the note
    a/b/page.md a dangling bare name [t] is rendered [t](t.md); so is
    [[nopage]] with empty indices. *)
Theorem dangling_page_link :
  (forall (raw cur : list N) (idx : gmap (list N) (list N)),
     exists r, resolve_page_target raw cur idx = Ok r)
  /\ (forall (raw cur rid anchor : list N) (idx : gmap (list N) (list N)),
        resolve_page_id raw cur = Ok (Some (rid, anchor)) ->
        idx !! rid = None -> idx !! (c_colon :: rid) = None ->
        resolve_page_target raw cur idx
        = Ok (Str.replace c_bslash c_slash
                (Str.replace c_colon c_slash rid ++ py ".md") ++ anchor)
        /\ resolve_page_target raw cur idx <> Ok [])
  /\ (forall (cwd t : list N) (idx midx : gmap (list N) (list N)),
        bare_name t ->
        idx !! (py "a:b:" ++ t) = None ->
        idx !! (c_colon :: py "a:b:" ++ t) = None ->
        repl_link cwd (Posixpath.dirname (py "a/b/page.md"))
          (current_page_id_from_rel (py "a/b/page.md")) idx midx t
        = Ok (py "[" ++ t ++ py "](" ++ (t ++ py ".md") ++ py ")"))
  /\ (forall cwd : list N,
        convert_dokuwiki_to_markdown cwd (py "[[nopage]]")
          (py "a/b/page.md") ∅ ∅
        = Ok (py "[nopage](nopage.md)")).
Proof.
  assert (Hgen : forall (cwd t : list N) (idx midx : gmap (list N) (list N)),
    bare_name t ->
    idx !! (py "a:b:" ++ t) = None ->
    idx !! (c_colon :: py "a:b:" ++ t) = None ->
    repl_link cwd (py "a/b") (py "a:b:page") idx midx t
    = Ok (py "[" ++ t ++ py "](" ++ (t ++ py ".md") ++ py ")")).
  { intros cwd t idx midx Ht H1 H2. apply repl_link_page; [done|].
    rewrite (resolve_page_target_dangling t _ idx (py "a:b:" ++ t) [])
      by (try done; by apply resolve_page_id_ab).
    fold (synth_md (py "a:b:" ++ t)).
    by rewrite (synth_md_ab t Ht), app_nil_r. }
  split; [apply resolve_page_target_total|].
  split; [|split].
  - intros raw cur rid anchor idx Hr H1 H2.
    rewrite (resolve_page_target_dangling raw cur idx rid anchor) by done.
    split; [done|]. intros H. inversion H as [H'].
    apply app_eq_nil in H' as [H' _].
    apply fmap_nil_inv in H'. by destruct (Str.replace c_colon c_slash rid).
  - intros cwd t idx midx Ht H1 H2.
    destruct note_context as [-> ->]. by apply Hgen.
  - intros cwd.
    apply (convert_one_link cwd ∅ ∅ "nopage" "[nopage](nopage.md)").
    + intros rm. by vm_compute.
    + intros rl. vm_compute. by destruct (rl _).
    + by vm_compute.
    + apply (Hgen cwd (py "nopage")); [|done..].
      split; [done|]. repeat constructor.
Qed.

Lemma dangling_page_link_witness :
  resolve_page_target (py "nopage#sec") (py "a:b:page") ∅
  = Ok (py "a/b/nopage.md#sec").
Proof.
  apply (proj1 (proj2 dangling_page_link) (py "nopage#sec")
           (py "a:b:page") (py "a:b:nopage") (py "#sec") ∅);
    vm_compute; reflexivity.
Defined.

(** ** A page that cannot be read *)

Section Unreadable.

Variable cwd : list N.
Implicit Types (pages pre post : list (list (list N) * option (list N)))
  (fs : gmap (list (list N)) node) (pi mi : gmap (list N) (list N)).

Lemma migrate_page_unreadable pi mi rel fs :
  exists e, migrate_page cwd pi mi (rel, None) fs = (fs, Raise e).
Proof.
  unfold migrate_page, lift, mbind, io_bind. simpl.
  destruct (PathOps.with_suffix rel []) as [n|e]; [|by eexists].
  destruct (PathOps.with_suffix n (py ".md")) as [m|e]; by eexists.
Qed.

Lemma break_some sep (s p r : list N) :
  Str.break sep s = (p, Some r) -> s = p ++ sep :: r.
Proof.
  revert p. induction s as [|c s IH]; intros p; simpl; [done|].
  case_decide as Hc.
  - intros [= ? ?]. by subst.
  - destruct (Str.break sep s) as [p' r'] eqn:Hb.
    intros [= ? ?]. subst. by rewrite (IH p' eq_refl).
Qed.

Lemma split_suffix_some (n b a : list N) :
  Pathlib.split_suffix n = Some (b, a) -> n = b ++ c_dot :: a /\ b <> [].
Proof.
  unfold Pathlib.split_suffix.
  destruct (Str.break c_dot (reverse n)) as [ra [rb|]] eqn:Hb; [|done].
  destruct (bool_decide (ra <> [])); [|done]. simpl.
  destruct (bool_decide (rb <> [])) eqn:Hrb; [|done].
  intros [= ? ?]. subst. apply break_some in Hb.
  apply bool_decide_eq_true in Hrb.
  split.
  - rewrite <- (reverse_involutive n), Hb.
    by rewrite reverse_app, reverse_cons, <- app_assoc.
  - intros H. apply Hrb. apply (f_equal reverse) in H.
    by rewrite reverse_involutive in H.
Qed.

(** Changing the suffix of a path that has a name gives a path that
    has a name. *)
Lemma with_suffix_named (p : list (list N)) (suffix : list N) :
  bool_decide (c_slash ∈ suffix)
  || (bool_decide (suffix <> []) && negb (Str.startswith [c_dot] suffix))
  || bool_decide (suffix = [c_dot]) = false ->
  Pathlib.name_of p <> [] ->
  exists q, PathOps.with_suffix p suffix = Ok q /\ Pathlib.name_of q <> [].
Proof.
  intros Hv Hn. unfold PathOps.with_suffix. rewrite Hv.
  rewrite decide_False by done.
  eexists. split; [done|].
  unfold Pathlib.name_of at 1. rewrite last_snoc. simpl.
  unfold Pathlib.suffix_of.
  destruct (Pathlib.split_suffix (Pathlib.name_of p)) as [[b a]|] eqn:Hsp.
  - rewrite decide_False by done.
    apply split_suffix_some in Hsp as [-> Hb].
    rewrite length_app. simpl.
    replace (length b + S (length a) - S (length a))%nat
      with (length b) by lia.
    rewrite take_app_length. by destruct b.
  - rewrite decide_True by done. by destruct (Pathlib.name_of p).
Qed.

(** The read error is the exception when the path has a name. *)
Lemma migrate_page_unreadable_named pi mi rel fs :
  Pathlib.name_of rel <> [] ->
  migrate_page cwd pi mi (rel, None) fs = (fs, Raise OSError).
Proof.
  intros Hn. unfold migrate_page, lift, mbind, io_bind. simpl.
  destruct (with_suffix_named rel [] eq_refl Hn) as (q & -> & Hq).
  by destruct (with_suffix_named q (py ".md") eq_refl Hq) as (q' & -> & _).
Qed.

Lemma migrate_pages_app pi mi pre post fs :
  migrate_pages cwd pi mi (pre ++ post) fs
  = match migrate_pages cwd pi mi pre fs with
    | (fs', Ok _) => migrate_pages cwd pi mi post fs'
    | (fs', Raise e) => (fs', Raise e)
    end.
Proof.
  revert fs. induction pre as [|p pre IH]; intros fs; [done|].
  simpl. unfold mbind, io_bind.
  destruct (migrate_page cwd pi mi p fs) as [fs1 [[]|e]]; [|done].
  apply IH.
Qed.

(** The pages after an unreadable one play no part. *)
Lemma migrate_pages_stop pi mi pre rel post fs :
  migrate_pages cwd pi mi (pre ++ (rel, None) :: post) fs
  = migrate_pages cwd pi mi (pre ++ [(rel, None)]) fs.
Proof.
  rewrite !migrate_pages_app.
  destruct (migrate_pages cwd pi mi pre fs) as [fs1 [[]|e]]; [|done].
  simpl. unfold mbind, io_bind.
  by destruct (migrate_page_unreadable pi mi rel fs1) as [e ->].
Qed.

Lemma migrate_pages_raise pi mi pages rel fs :
  (rel, None) ∈ pages ->
  exists e, (migrate_pages cwd pi mi pages fs).2 = Raise e.
Proof.
  intros Hin. apply list_elem_of_split in Hin as (pre & post & ->).
  rewrite migrate_pages_stop, migrate_pages_app.
  destruct (migrate_pages cwd pi mi pre fs) as [fs1 [[]|e]];
    [|by eexists].
  simpl. unfold mbind, io_bind.
  destruct (migrate_page_unreadable pi mi rel fs1) as [e ->]. by eexists.
Qed.

End Unreadable.

(** C4, as the code has it.  A page that cannot be read is not skipped:
    [migrate] reads it outside any handler, so the run ends with an
    exception whenever some page is unreadable; the pages after it in the
    scan take no part in the result; and when the pages before it were
    converted, the exception is the read error and the tree is the one
    those pages left. *)
Theorem unreadable_page_aborts :
  (forall (sha256 : list N -> list N) (cwd : list N)
          (pages : list (list (list N) * option (list N)))
          (media : list (list (list N) * media_kind))
          (fs : gmap (list (list N)) node) (rel : list (list N)),
     (rel, None) ∈ pages ->
     exists e, (migrate sha256 cwd pages media fs).2 = Raise e)
  /\ (forall (cwd : list N) (pi mi : gmap (list N) (list N))
             (pre post : list (list (list N) * option (list N)))
             (rel : list (list N)) (fs : gmap (list (list N)) node),
        migrate_pages cwd pi mi (pre ++ (rel, None) :: post) fs
        = migrate_pages cwd pi mi (pre ++ [(rel, None)]) fs)
  /\ (forall (cwd : list N) (pi mi : gmap (list N) (list N))
             (pre post : list (list (list N) * option (list N)))
             (rel : list (list N)) (fs fs' : gmap (list (list N)) node),
        Pathlib.name_of rel <> [] ->
        migrate_pages cwd pi mi pre fs = (fs', Ok tt) ->
        migrate_pages cwd pi mi (pre ++ (rel, None) :: post) fs
        = (fs', Raise OSError)).
Proof.
  split; [|split].
  - intros sha256 cwd pages media fs rel Hin.
    unfold migrate, mbind, io_bind, lift.
    destruct (safe_mkdir out_notes fs) as [fs1 [[]|e]]; [|by eexists].
    destruct (safe_mkdir out_media fs1) as [fs2 [[]|e]]; [|by eexists].
    destruct (build_page_index pages) as [pi|e]; [|by eexists].
    destruct (build_media_index_and_copy sha256 media fs2)
      as [fs3 [mi|e]]; [|by eexists].
    by eapply migrate_pages_raise.
  - intros. apply migrate_pages_stop.
  - intros cwd pi mi pre post rel fs fs' Hn Hpre.
    rewrite migrate_pages_app, Hpre. simpl. unfold mbind, io_bind.
    by rewrite migrate_page_unreadable_named.
Qed.

Lemma unreadable_page_aborts_witness :
  exists e,
    (migrate (fun b => b) (py "/home/u")
       [([py "a.txt"], None); ([py "b.txt"], Some (py "text"))] [] ∅).2
    = Raise e.
Proof.
  apply (proj1 unreadable_page_aborts _ _ _ _ _ [py "a.txt"]).
  apply (bool_decide_unpack _). vm_compute. exact I.
Defined.

(** C4 as the specification states it fails: with an unreadable page
    a.txt before the readable page b.txt, the run ends with the read
    error and b.txt is never converted. *)
Lemma unreadable_page_not_skipped :
  let run :=
    migrate (fun b => b) (py "/home/u")
      [([py "a.txt"], None); ([py "b.txt"], Some (py "text"))] [] ∅ in
  run.2 = Raise OSError
  /\ run.1 !! [py "notes"; py "b.md"] = None
  /\ ~ (forall pages,
          exists fs', migrate (fun b => b) (py "/home/u") pages [] ∅
                      = (fs', Ok tt)).
Proof.
  split; [by vm_compute|]. split; [by vm_compute|].
  intros H.
  destruct (H [([py "a.txt"], None); ([py "b.txt"], Some (py "text"))])
    as [fs' Hfs].
  apply (f_equal snd) in Hfs. vm_compute in Hfs. discriminate Hfs.
Qed.

(** ** The media synchronizer on destinations that exist *)

Section UniquePath.

Implicit Types (fs : gmap (list (list N)) node) (dst : list (list N)).

Lemma first_free_fresh fs parent stem suffix n i c :
  first_free fs parent stem suffix n i = Ok c -> Fs.exists_ fs c = false.
Proof.
  revert i. induction n as [|n IH]; intros i; cbn [first_free]; [done|].
  match goal with
  | |- context [negb (Fs.exists_ fs ?x)] =>
      destruct (Fs.exists_ fs x) eqn:He; cbn [negb]
  end.
  - apply IH.
  - by intros [= <-].
Qed.

Lemma unique_path_fresh fs dst c :
  unique_path_if_needed fs dst = Ok c -> Fs.exists_ fs c = false.
Proof.
  unfold unique_path_if_needed.
  destruct (Fs.exists_ fs dst) eqn:He; cbn [negb].
  - apply first_free_fresh.
  - by intros [= <-].
Qed.

End UniquePath.

(** C2, evaluated.  [unique_path_if_needed] looks only at whether the
    destination exists: for a destination that exists it never returns
    that destination, whatever the file holds.  With media/a.png already
    holding the bytes of the source a.png, the synchronizer copies the
    source to media/a__dup1.png and registers that name. *)
Theorem unique_path_ignores_content :
  (forall (fs : gmap (list (list N)) node) (dst : list (list N)),
     Fs.exists_ fs dst = true -> unique_path_if_needed fs dst <> Ok dst)
  /\ unique_path_if_needed tree_with_a [py "media"; py "a.png"]
     = Ok [py "media"; py "a__dup1.png"]
  /\ (forall sha256 : list N -> list N,
        let run := build_media_index_and_copy sha256 media_a tree_with_a in
        registered run.2 (py "a.png") = Some (py "a__dup1.png")
        /\ run.1 !! [py "media"; py "a.png"] = Some (File bytes123)
        /\ run.1 !! [py "media"; py "a__dup1.png"] = Some (File bytes123)).
Proof.
  split; [|split].
  - intros fs dst He H. apply unique_path_fresh in H. congruence.
  - vm_compute. reflexivity.
  - intros sha256 run.
    split; [vm_compute; reflexivity|].
    split; vm_compute; reflexivity.
Qed.

Lemma unique_path_ignores_content_witness :
  unique_path_if_needed tree_with_a [py "media"; py "a.png"]
  <> Ok [py "media"; py "a.png"].
Proof.
  apply (proj1 unique_path_ignores_content). vm_compute. reflexivity.
Defined.

(** ** The output tree only grows, and every synchronized file is new *)

Section Grows.

Variable sha256 : list N -> list N.
Variable cwd : list N.
Implicit Types (fs : gmap (list (list N)) node) (p dst : list (list N)).

Lemma grows_lift {A} (r : result A) : grows (lift r).
Proof. intros fs fs' r' [= <- _] p Hp. done. Qed.

Lemma grows_ret {A} (a : A) : grows (mret a).
Proof. intros fs fs' r' [= <- _] p Hp. done. Qed.

Lemma grows_raise {A} e : grows (raise (A := A) e).
Proof. intros fs fs' r' [= <- _] p Hp. done. Qed.

Lemma grows_get : grows get_tree.
Proof. intros fs fs' r' [= <- _] p Hp. done. Qed.

Lemma grows_put q n : grows (put q n).
Proof.
  intros fs fs' r' [= <- _] p Hp.
  destruct (decide (q = p)) as [->|Hne].
  - rewrite lookup_insert_eq. by eexists.
  - by rewrite lookup_insert_ne.
Qed.

Lemma grows_bind {A B} (m : io A) (f : A -> io B) :
  grows m -> (forall a, grows (f a)) -> grows (m ≫= f).
Proof.
  intros Hm Hf fs fs' r H p Hp. unfold mbind, io_bind in H.
  destruct (m fs) as [fs1 [a|e]] eqn:Hmfs.
  - eapply Hf; [exact H|]. eapply Hm; [exact Hmfs|done].
  - injection H as <- _. eapply Hm; [exact Hmfs|done].
Qed.

Lemma grows_mkdirs done_ todo : grows (Fs.mkdirs done_ todo).
Proof.
  revert done_. induction todo as [|c todo IH]; intros done_; simpl.
  - apply grows_ret.
  - apply grows_bind; [apply grows_get|]. intros fs0.
    destruct (fs0 !! (done_ ++ [c])) as [[|]|].
    + apply grows_raise.
    + apply IH.
    + apply grows_bind; [apply grows_put|]. intros _. apply IH.
Qed.

Lemma grows_copy2 name src dst : grows (Fs.copy2 name src dst).
Proof.
  unfold Fs.copy2. destruct src as [data|]; [|apply grows_raise].
  apply grows_bind; [apply grows_get|]. intros fs0.
  destruct (_ || _); [apply grows_raise|apply grows_put].
Qed.

Lemma grows_copy_file_if_changed name src dst :
  grows (copy_file_if_changed sha256 name src dst).
Proof.
  unfold copy_file_if_changed.
  apply grows_bind; [apply grows_mkdirs|]. intros _.
  apply grows_bind; [apply grows_get|]. intros fs0.
  destruct (negb _); [apply grows_copy2|].
  destruct (match src with Some _ => _ | None => _ end);
    [apply grows_ret|apply grows_copy2].
Qed.

Lemma grows_write_text_if_changed dst text :
  grows (write_text_if_changed dst text).
Proof.
  unfold write_text_if_changed.
  apply grows_bind; [apply grows_get|]. intros fs0.
  destruct (match fs0 !! dst with Some _ => _ | None => _ end);
    [apply grows_ret|].
  apply grows_bind; [apply grows_mkdirs|]. intros _.
  apply grows_bind; [apply grows_get|]. intros fs1.
  destruct (_ || _); [apply grows_raise|].
  destruct (encode_utf8 text); [apply grows_put|].
  apply grows_bind; [apply grows_put|]. intros _. apply grows_raise.
Qed.

Lemma grows_sync_media_file idx rel data :
  grows (sync_media_file sha256 idx rel data).
Proof.
  unfold sync_media_file.
  apply grows_bind; [apply grows_lift|]. intros a.
  apply grows_bind; [apply grows_lift|]. intros dst.
  apply grows_bind; [apply grows_get|]. intros fs0.
  apply grows_bind; [apply grows_lift|]. intros dst_unique.
  apply grows_bind; [apply grows_copy_file_if_changed|]. intros _.
  apply grows_bind; [apply grows_lift|]. intros rel_final.
  apply grows_bind; [apply grows_lift|]. intros keys. apply grows_ret.
Qed.

Lemma grows_build_media idx media :
  grows (build_media_index_from sha256 idx media).
Proof.
  revert idx. induction media as [|[rel [|data]] media IH]; intros idx; simpl.
  - apply grows_ret.
  - apply IH.
  - apply grows_bind; [apply grows_sync_media_file|]. intros idx'. apply IH.
Qed.

Lemma grows_migrate_page pi mi src : grows (migrate_page cwd pi mi src).
Proof.
  unfold migrate_page.
  apply grows_bind; [apply grows_lift|]. intros a.
  apply grows_bind; [apply grows_lift|]. intros b.
  apply grows_bind; [apply grows_lift|]. intros raw.
  apply grows_bind; [apply grows_lift|]. intros converted.
  apply grows_write_text_if_changed.
Qed.

Lemma grows_migrate_pages pi mi pages : grows (migrate_pages cwd pi mi pages).
Proof.
  induction pages as [|src pages IH]; simpl; [apply grows_ret|].
  apply grows_bind; [apply grows_migrate_page|]. intros _. apply IH.
Qed.

(** A copy that succeeds leaves something at its destination. *)
Lemma copy_file_if_changed_lands name src dst fs fs' :
  dst <> [] ->
  copy_file_if_changed sha256 name src dst fs = (fs', Ok tt) ->
  is_Some (fs' !! dst).
Proof.
  intros Hne. unfold copy_file_if_changed, mbind, io_bind.
  destruct (safe_mkdir (Fs.parent dst) fs) as [fs1 [[]|e]]; [|done].
  unfold get_tree.
  destruct (Fs.exists_ fs1 dst) eqn:He; cbn [negb].
  - assert (Hs : is_Some (fs1 !! dst)).
    { unfold Fs.exists_ in He. apply orb_true_iff in He as [He|He].
      - by apply bool_decide_eq_true in He.
      - by apply bool_decide_eq_true in He. }
    intros H. revert H.
    destruct (match src with Some _ => _ | None => _ end).
    + by intros [= <-].
    + intros H. eapply grows_copy2; [exact H|done].
  - unfold Fs.copy2. destruct src as [data|]; [|done].
    unfold mbind, io_bind, get_tree.
    assert (Hd : Fs.is_dir fs1 dst = false).
    { unfold Fs.is_dir, Fs.exists_ in *.
      apply orb_false_iff in He as [He1 He2]. rewrite He1. simpl.
      apply bool_decide_eq_false. apply bool_decide_eq_false in He2.
      intros Hd. apply He2. by eexists. }
    rewrite Hd. destruct (_ || _); [done|].
    unfold put. intros [= <-]. rewrite lookup_insert_eq. by eexists.
Qed.

(** Synchronizing one media file, when it succeeds, puts a path into the
    tree that was not there. *)
Lemma sync_media_file_new idx rel data fs fs' idx' :
  sync_media_file sha256 idx rel data fs = (fs', Ok idx') ->
  exists dst, fs !! dst = None /\ is_Some (fs' !! dst).
Proof.
  unfold sync_media_file, mbind, io_bind, lift, get_tree.
  destruct (strip_query _) as [a|e]; [|done].
  destruct (media_dst a) as [dst|e] eqn:Hdst; [|done].
  destruct (unique_path_if_needed fs dst) as [du|e] eqn:Hu; [|done].
  destruct (copy_file_if_changed sha256 _ data du fs) as [fs1 [[]|e]] eqn:Hc;
    [|done].
  destruct (relative_to_media du) as [rf|e] eqn:Hrel; [|done].
  destruct (strip_all _) as [keys|e]; [|done].
  intros [= <- _].
  assert (Hne : du <> []) by (intros ->; done).
  exists du. split.
  - apply unique_path_fresh in Hu. unfold Fs.exists_ in Hu.
    apply orb_false_iff in Hu as [_ Hu]. apply bool_decide_eq_false in Hu.
    by apply eq_None_not_Some.
  - by eapply copy_file_if_changed_lands.
Qed.

Lemma build_media_new idx media fs fs' idx' rel data :
  (rel, MediaFile data) ∈ media ->
  build_media_index_from sha256 idx media fs = (fs', Ok idx') ->
  exists dst, fs !! dst = None /\ is_Some (fs' !! dst).
Proof.
  intros Hin. revert idx fs.
  induction media as [|[rel' [|data']] media IH]; intros idx fs H;
    [by apply elem_of_nil in Hin| |].
  - apply elem_of_cons in Hin as [[=]|Hin]. by eapply IH.
  - simpl in H. unfold mbind, io_bind in H.
    destruct (sync_media_file sha256 idx rel' data' fs)
      as [fs1 [idx1|e]] eqn:Hs; [|done].
    destruct (sync_media_file_new _ _ _ _ _ _ Hs) as (dst & Hn & Hs1).
    exists dst. split; [done|]. eapply grows_build_media; [exact H|done].
Qed.

(** A run that ends normally over a media tree with at least one file
    has put a new path into the output tree. *)
Lemma migrate_new pages media fs fs' rel data :
  (rel, MediaFile data) ∈ media ->
  migrate sha256 cwd pages media fs = (fs', Ok tt) ->
  exists dst, fs !! dst = None /\ is_Some (fs' !! dst).
Proof.
  intros Hin. unfold migrate, mbind, io_bind, lift.
  destruct (safe_mkdir out_notes fs) as [fs1 [[]|e]] eqn:H1; [|done].
  destruct (safe_mkdir out_media fs1) as [fs2 [[]|e]] eqn:H2; [|done].
  destruct (build_page_index pages) as [pi|e]; [|done].
  destruct (build_media_index_and_copy sha256 media fs2)
    as [fs3 [mi|e]] eqn:H3; [|done].
  intros H4.
  destruct (build_media_new _ _ _ _ _ _ _ Hin H3) as (dst & Hn & Hs).
  exists dst. split.
  - apply eq_None_not_Some. intros Hfs. 
    assert (Hs2 : is_Some (fs2 !! dst)).
    { eapply grows_mkdirs; [exact H2|].
      eapply grows_mkdirs; [exact H1|done]. }
    rewrite Hn in Hs2. by destruct Hs2.
  - eapply grows_migrate_pages; [exact H4|done].
Qed.

End Grows.

(** C3, evaluated.  Whenever the synchronizer succeeds on a source file
    it gives the file an output path that did not exist before, whatever
    the file holds; it never lets a file share the path of a copy that is
    already there.  The source files %61.png and a.png hold the same
    bytes and both decode to a.png; one pass over an empty media tree
    gives them the two output paths a.png and a__dup1.png, with the same
    bytes in both. *)
Theorem identical_media_duplicated :
  (forall (sha256 : list N -> list N) (idx idx' : gmap (list N) (list N))
          (rel : list (list N)) (data : option (list N))
          (fs : gmap (list (list N)) node),
     (sync_media_file sha256 idx rel data fs).2 = Ok idx' ->
     exists dst,
       fs !! dst = None
       /\ is_Some ((sync_media_file sha256 idx rel data fs).1 !! dst))
  /\ (forall sha256 : list N -> list N,
        let run :=
          build_media_index_and_copy sha256 media_twins
            (<[[py "media"] := Dir]> ∅) in
        registered run.2 (py "%61.png") = Some (py "a.png")
        /\ registered run.2 (py "a.png") = Some (py "a__dup1.png")
        /\ run.1 !! [py "media"; py "a.png"] = Some (File bytes123)
        /\ run.1 !! [py "media"; py "a__dup1.png"] = Some (File bytes123)).
Proof.
  split.
  - intros sha256 idx idx' rel data fs Hrun.
    destruct (sync_media_file sha256 idx rel data fs) as [fs' r] eqn:Hs.
    simpl in *. subst r. by eapply sync_media_file_new.
  - intros sha256 run.
    split; [vm_compute; reflexivity|]. split; [vm_compute; reflexivity|].
    split; vm_compute; reflexivity.
Qed.

Lemma identical_media_duplicated_witness :
  exists dst,
    tree_with_a !! dst = None
    /\ is_Some ((sync_media_file (fun b => b) ∅ [py "a.png"]
                   (Some bytes123) tree_with_a).1 !! dst).
Proof.
  eapply (proj1 identical_media_duplicated (fun b => b) ∅ _ [py "a.png"]
            (Some bytes123) tree_with_a).
  vm_compute. reflexivity.
Defined.

(** C1, evaluated.  A run of [migrate] that ends normally over a media
    tree with at least one file never leaves the output tree as it found
    it: it puts a path there that did not exist, whatever the tree held
    before.  So a second run is no no-op.  With the page p.txt, which
    embeds a.png, and the media file a.png, from an empty output tree:
    both runs end normally; the second one copies a.png again, to
    media/a__dup1.png, and rewrites notes/p.md to point there. *)
Theorem second_run_changes_outputs :
  (forall (sha256 : list N -> list N) (cwd : list N)
          (pages : list (list (list N) * option (list N)))
          (media : list (list (list N) * media_kind))
          (fs : gmap (list (list N)) node)
          (rel : list (list N)) (data : option (list N)),
     (rel, MediaFile data) ∈ media ->
     (migrate sha256 cwd pages media fs).2 = Ok tt ->
     (migrate sha256 cwd pages media fs).1 <> fs
     /\ exists dst,
          fs !! dst = None
          /\ is_Some ((migrate sha256 cwd pages media fs).1 !! dst))
  /\ (forall sha256 : list N -> list N,
        let run1 := migrate sha256 (py "/home/u") pages_p media_a ∅ in
        let run2 := migrate sha256 (py "/home/u") pages_p media_a run1.1 in
        run1.2 = Ok tt /\ run2.2 = Ok tt
        /\ run1.1 !! [py "media"; py "a.png"] = Some (File bytes123)
        /\ run1.1 !! [py "media"; py "a__dup1.png"] = None
        /\ run2.1 !! [py "media"; py "a__dup1.png"] = Some (File bytes123)
        /\ run1.1 !! [py "notes"; py "p.md"]
           = Some (File (py "see ![](../media/a.png)"))
        /\ run2.1 !! [py "notes"; py "p.md"]
           = Some (File (py "see ![](../media/a__dup1.png)"))).
Proof.
  split.
  - intros sha256 cwd pages media fs rel data Hin Hrun.
    destruct (migrate sha256 cwd pages media fs) as [fs' r] eqn:Hm.
    simpl in *. subst r.
    destruct (migrate_new sha256 cwd pages media fs fs' rel data Hin Hm)
      as (dst & Hn & Hs).
    split; [|by exists dst].
    intros ->. rewrite Hn in Hs. by destruct Hs.
  - intros sha256 run1 run2.
    split; [vm_compute; reflexivity|]. split; [vm_compute; reflexivity|].
    split; [vm_compute; reflexivity|]. split; [vm_compute; reflexivity|].
    split; [vm_compute; reflexivity|]. split; vm_compute; reflexivity.
Qed.

Lemma second_run_changes_outputs_witness :
  (migrate (fun b => b) (py "/home/u") pages_p media_a first_run_tree).1
  <> first_run_tree.
Proof.
  apply (proj1 second_run_changes_outputs (fun b => b) (py "/home/u")
           pages_p media_a first_run_tree [py "a.png"] (Some bytes123)).
  - apply (bool_decide_unpack _). vm_compute. exact I.
  - vm_compute. reflexivity.
Defined.

(** * Further properties of the code *)

Section StripQueryForm.

Implicit Types (s p r : list N).

Lemma before_any_break s :
  c_hash ∉ s -> before_any [c_q; c_hash] s = (Str.break c_q s).1.
Proof.
  induction s as [|c s IH]; intros H; [done|].
  apply not_elem_of_cons in H as [Hc Hs]. cbn [before_any Str.break].
  destruct (decide (c = c_q)) as [->|Hq].
  - rewrite decide_True by (by left). done.
  - rewrite decide_False.
    2:{ intros Hin. apply elem_of_cons in Hin as [?|Hin]; [done|].
        apply elem_of_cons in Hin as [?|Hin]; [done|].
        by apply elem_of_nil in Hin. }
    rewrite IH by done. by destruct (Str.break c_q s).
Qed.

Lemma before_any_app p r :
  c_hash ∉ p ->
  before_any [c_q; c_hash] (p ++ c_hash :: r) = (Str.break c_q p).1.
Proof.
  induction p as [|c p IH]; intros H; [done|].
  apply not_elem_of_cons in H as [Hc Hp].
  rewrite <- app_comm_cons. cbn [before_any Str.break].
  destruct (decide (c = c_q)) as [->|Hq].
    + rewrite decide_True by (by left). done.
    + rewrite decide_False.
      2:{ intros Hin. apply elem_of_cons in Hin as [?|Hin]; [done|].
          apply elem_of_cons in Hin as [?|Hin]; [done|].
          by apply elem_of_nil in Hin. }
      rewrite IH by done. by destruct (Str.break c_q p).
Qed.

Lemma from_first_notin c s : c ∉ s -> from_first c s = [].
Proof.
  induction s as [|d s IH]; intros H; [done|].
  apply not_elem_of_cons in H as [Hd Hs]. simpl.
  rewrite decide_False by done. by apply IH.
Qed.

Lemma from_first_app c p r : c ∉ p -> from_first c (p ++ c :: r) = c :: r.
Proof.
  induction p as [|d p IH]; intros H; simpl.
  - by rewrite decide_True.
  - apply not_elem_of_cons in H as [Hd Hp].
    rewrite decide_False by done. by apply IH.
Qed.

Lemma strip_query_form s :
  strip_query s = Ok (before_any [c_q; c_hash] s ++ from_first c_hash s).
Proof.
  destruct (decide (c_hash ∈ s)) as [Hh|Hh].
  - destruct (elem_of_first _ _ Hh) as (p & r & -> & Hp).
    rewrite before_any_app, from_first_app by done.
    destruct (decide (c_q ∈ p ++ c_hash :: r)) as [Hq|Hq].
    + by apply strip_query_anchor.
    + rewrite strip_query_no_query by done.
      rewrite break_notin; [done|].
      intros H. apply Hq. apply elem_of_app. by left.
  - rewrite from_first_notin, app_nil_r, before_any_break by done.
    destruct (decide (c_q ∈ s)) as [Hq|Hq].
    + by apply strip_query_plain.
    + rewrite strip_query_no_query by done. by rewrite break_notin.
Qed.

Lemma before_any_notin stops s x : x ∈ stops -> x ∉ before_any stops s.
Proof.
  intros Hx. induction s as [|c s IH]; simpl; [apply not_elem_of_nil|].
  case_decide as Hc; [apply not_elem_of_nil|].
  apply not_elem_of_cons. split; [|done]. by intros ->.
Qed.

Lemma break_before_any s t :
  c_hash ∉ t -> (Str.break c_hash (t ++ from_first c_hash s)).1 = t.
Proof.
  intros Ht. destruct (decide (c_hash ∈ s)) as [Hh|Hh].
  - destruct (elem_of_first _ _ Hh) as (p & r & -> & Hp).
    rewrite from_first_app by done. by rewrite break_app.
  - rewrite from_first_notin, app_nil_r by done. by rewrite break_notin.
Qed.

Lemma from_first_length c s : (length (from_first c s) <= length s)%nat.
Proof.
  induction s as [|d s IH]; [done|]. cbn [from_first].
  case_decide; simpl; lia.
Qed.

Lemma strip_query_form_length s :
  (length (before_any [c_q; c_hash] s ++ from_first c_hash s)
   <= length s)%nat.
Proof.
  rewrite length_app. induction s as [|c s IH]; [done|].
  cbn [before_any from_first].
  destruct (decide (c ∈ [c_q; c_hash])) as [Hin|Hin].
  - case_decide; [simpl; lia|].
    pose proof (from_first_length c_hash s). simpl. lia.
  - rewrite decide_False.
    2:{ intros ->. apply Hin. right. by left. }
    simpl. lia.
Qed.

End StripQueryForm.

(** X1.  [strip_query] in closed form: for every string the result is the
    text before the first "?" or "#", followed by the text from the first
    "#" on. *)
Theorem strip_query_closed_form (s : list N) :
  strip_query s = Ok (before_any [c_q; c_hash] s ++ from_first c_hash s).
Proof. apply strip_query_form. Qed.

(** X2.  Whatever [strip_query] returns has no "?" before its first "#",
    ends with the anchor of the input as it was written, and is not
    longer than the input. *)
Theorem strip_query_result (s r : list N) :
  strip_query s = Ok r ->
  (c_q ∉ (Str.break c_hash r).1)
  /\ from_first c_hash r = from_first c_hash s
  /\ (length r <= length s)%nat.
Proof.
  rewrite strip_query_form. intros [= <-].
  assert (Hh : c_hash ∉ before_any [c_q; c_hash] s)
    by (apply before_any_notin; right; by left).
  split; [|split].
  - rewrite break_before_any by done. apply before_any_notin. by left.
  - destruct (decide (c_hash ∈ s)) as [Hin|Hin].
    + destruct (elem_of_first _ _ Hin) as (p & t & -> & Hp).
      rewrite (from_first_app c_hash p t) by done.
      by rewrite from_first_app.
    + rewrite (from_first_notin c_hash s), app_nil_r by done.
      by apply from_first_notin.
  - apply strip_query_form_length.
Qed.

Lemma strip_query_result_witness :
  (c_q ∉ (Str.break c_hash (py "x.pdf#p=2")).1)
  /\ from_first c_hash (py "x.pdf#p=2")
     = from_first c_hash (py "x.pdf?download#p=2")
  /\ (length (py "x.pdf#p=2") <= length (py "x.pdf?download#p=2"))%nat.
Proof.
  apply (strip_query_result (py "x.pdf?download#p=2") (py "x.pdf#p=2")).
  vm_compute. reflexivity.
Defined.

Section Newlines.

Lemma replace_crlf_no_cr (s : list N) : c_cr ∉ s -> replace_crlf s = s.
Proof.
  induction s as [|c s IH]; intros H; [done|].
  apply not_elem_of_cons in H as [Hc Hs].
  cbn [replace_crlf]. destruct s as [|d s]; [done|].
  rewrite (proj2 (N.eqb_neq c c_cr)) by done. cbn [andb].
  by rewrite IH.
Qed.

Lemma normalize_newlines_no_cr (s : list N) :
  c_cr ∉ s -> normalize_newlines s = s.
Proof.
  intros H. unfold normalize_newlines.
  rewrite replace_crlf_no_cr by done. by apply replace_notin.
Qed.

Lemma replace_removes (a b : N) (s : list N) :
  a <> b -> a ∉ Str.replace a b s.
Proof.
  intros Hab. unfold Str.replace. intros Hin.
  apply list_elem_of_fmap in Hin as (c & Hc & _).
  case_decide; congruence.
Qed.

Lemma normalize_newlines_idem (s : list N) :
  normalize_newlines (normalize_newlines s) = normalize_newlines s.
Proof.
  apply normalize_newlines_no_cr. unfold normalize_newlines.
  by apply replace_removes.
Qed.

End Newlines.

Section DecodeClean.

Implicit Types (s : list N) (M : list (list N)).

Lemma split_keeps_out (x sep : N) s :
  x ∉ s -> Forall (fun part => x ∉ part) (Str.split sep s).
Proof.
  induction s as [|c s IH]; intros H.
  - constructor; [apply not_elem_of_nil|constructor].
  - apply not_elem_of_cons in H as [Hc Hs]. specialize (IH Hs).
    cbn [Str.split]. rewrite (split_cons_shape sep s) in IH.
    apply Forall_cons in IH as [Hh Ht].
    case_decide.
    + constructor; [apply not_elem_of_nil|].
      rewrite (split_cons_shape sep s). by constructor.
    + constructor; [|done]. apply not_elem_of_cons. by split.
Qed.

Lemma replace_keeps_out (x a b : N) s :
  x ∉ s -> x <> b -> x ∉ Str.replace a b s.
Proof.
  intros Hs Hb Hin. unfold Str.replace in Hin.
  apply list_elem_of_fmap in Hin as (c & Hc & Hcs).
  case_decide; [congruence|]. by subst.
Qed.

Lemma join_keeps_out (x : N) (sep : list N) M :
  x ∉ sep -> Forall (fun part => x ∉ part) M -> x ∉ Str.join sep M.
Proof.
  intros Hsep. induction 1 as [|p M Hp HM IH]; [apply not_elem_of_nil|].
  destruct M as [|q M]; [done|].
  change (Str.join sep (p :: q :: M)) with (p ++ sep ++ Str.join sep (q :: M)).
  intros Hin. apply elem_of_app in Hin as [?|Hin]; [done|].
  apply elem_of_app in Hin as [?|?]; done.
Qed.

Lemma unquote_all_plain M :
  Forall (fun part => c_pct ∉ part) M -> Urllib.unquote <$> M = M.
Proof.
  induction 1 as [|p M Hp HM IH]; [done|].
  rewrite fmap_cons, IH. by rewrite unquote_no_percent.
Qed.

Lemma Forall_nonempty_filter (P : list N -> Prop) M :
  Forall P M -> Forall P (filter (fun part : list N => part <> []) M).
Proof.
  rewrite !Forall_forall. intros H part Hin.
  apply list_elem_of_filter in Hin as [_ Hin]. by apply H.
Qed.

(** The segments [decode_path_segments] joins. *)
Lemma segments_facts s :
  let segs := filter (fun part : list N => part <> [])
                (Str.split c_slash (to_posix s)) in
  Forall (fun part => c_slash ∉ part) segs
  /\ Forall (fun part => part <> []) segs
  /\ Forall (fun part => c_bslash ∉ part) segs
  /\ (c_pct ∉ s -> Forall (fun part => c_pct ∉ part) segs).
Proof.
  intros segs. unfold segs. repeat split.
  - apply Forall_nonempty_filter. apply split_slash_free.
  - apply Forall_forall. intros part Hin.
    by apply list_elem_of_filter in Hin as [? _].
  - apply Forall_nonempty_filter. apply split_keeps_out.
    unfold to_posix. by apply replace_removes.
  - intros Hp. apply Forall_nonempty_filter. apply split_keeps_out.
    unfold to_posix. by apply replace_keeps_out.
Qed.

Lemma decode_clean s :
  c_pct ∉ s ->
  decode_path_segments s
  = Str.join [c_slash]
      (filter (fun part : list N => part <> [])
         (Str.split c_slash (to_posix s))).
Proof.
  intros Hp. unfold decode_path_segments.
  destruct (segments_facts s) as (_ & _ & _ & H).
  by rewrite unquote_all_plain by by apply H.
Qed.

Lemma decode_clean_idem s :
  c_pct ∉ s ->
  decode_path_segments (decode_path_segments s) = decode_path_segments s.
Proof.
  intros Hp. rewrite (decode_clean s Hp).
  destruct (segments_facts s) as (Hsl & Hne & Hbs & Hpc).
  specialize (Hpc Hp).
  set (segs := filter _ _) in *.
  assert (Hj : c_pct ∉ Str.join [c_slash] segs).
  { apply join_keeps_out; [|done]. compute_done. }
  rewrite (decode_clean _ Hj).
  unfold to_posix at 1.
  rewrite (replace_notin c_bslash c_slash (Str.join [c_slash] segs)).
  2:{ apply join_keeps_out; [|done]. compute_done. }
  destruct (decide (segs = [])) as [->|Hn]; [done|].
  change [c_slash] with Posixpath.sep.
  rewrite split_join by done.
  by rewrite filter_all_nonempty.
Qed.

End DecodeClean.



Section Utf8.

Import Urllib.

Lemma ltb_true a b : a < b -> (a <? b) = true.
Proof. apply N.ltb_lt. Qed.
Lemma ltb_false a b : b <= a -> (a <? b) = false.
Proof. apply N.ltb_ge. Qed.
Lemma leb_true a b : a <= b -> (a <=? b) = true.
Proof. apply N.leb_le. Qed.
Lemma leb_false a b : b < a -> (a <=? b) = false.
Proof. apply N.leb_gt. Qed.
Lemma eqb_false a b : a <> b -> (a =? b) = false.
Proof. apply N.eqb_neq. Qed.

(** Every comparison of the goal is settled by linear arithmetic. *)
Ltac settle :=
  repeat match goal with
  | |- context [?a <? ?b] =>
      first [rewrite (ltb_true a b) by lia | rewrite (ltb_false a b) by lia]
  | |- context [?a <=? ?b] =>
      first [rewrite (leb_true a b) by lia | rewrite (leb_false a b) by lia]
  | |- context [?a =? ?b] =>
      first [rewrite (N.eqb_refl a) | rewrite (eqb_false a b) by lia]
  end.

Lemma decode_encode_char (c : N) (b rest : list N) :
  encode_char c = Some b ->
  decode_utf8_replace (b ++ rest) = c :: decode_utf8_replace rest.
Proof.
  unfold encode_char.
  destruct (N.ltb_spec c 128) as [H1|H1].
  { intros [= <-]. cbn [app decode_utf8_replace]. by rewrite ltb_true. }
  pose proof (N.div_mod' c 64) as Hc.
  pose proof (N.mod_lt c 64 ltac:(done)) as Hm.
  set (q := c / 64) in *. set (m := c mod 64) in *.
  destruct (N.ltb_spec c 2048) as [H2|H2].
  { intros [= <-]. cbn [app decode_utf8_replace]. unfold is_cont.
    settle. cbn [andb]. f_equal. lia. }
  pose proof (N.div_mod' q 64) as Hq.
  pose proof (N.mod_lt q 64 ltac:(done)) as Hm2.
  assert (E2 : c / 4096 = q / 64)
    by (unfold q; rewrite N.Div0.div_div; done).
  rewrite !E2.
  set (q2 := q / 64) in *. set (m2 := q mod 64) in *.
  destruct (N.ltb_spec c 65536) as [H3|H3].
  { destruct (_ && _) eqn:Hs; [done|]. intros [= <-].
    apply andb_false_iff in Hs.
    assert (Hsur : c < 55296 \/ 57343 < c).
    { destruct Hs as [Hs|Hs]; [left; by apply N.leb_gt in Hs|
                               right; by apply N.leb_gt in Hs]. }
    cbn [app decode_utf8_replace]. unfold is_cont.
    settle. cbn [andb orb negb].
    destruct (N.eqb_spec (224 + q2) 224); settle; cbn [andb orb negb];
      (destruct (N.eqb_spec (224 + q2) 237); settle; cbn [andb orb negb]);
      try lia; f_equal; lia. }
  pose proof (N.div_mod' q2 64) as Hq2.
  pose proof (N.mod_lt q2 64 ltac:(done)) as Hm3.
  assert (E3 : c / 262144 = q2 / 64).
  { unfold q2, q. rewrite !N.Div0.div_div. done. }
  rewrite !E3.
  set (q3 := q2 / 64) in *. set (m3 := q2 mod 64) in *.
  destruct (N.ltb_spec c 1114112) as [H4|H4]; [|done].
  intros [= <-].
  cbn [app decode_utf8_replace]. unfold is_cont.
  settle. cbn [andb orb negb].
  destruct (N.eqb_spec (240 + q3) 240); settle; cbn [andb orb negb];
    (destruct (N.eqb_spec (240 + q3) 244); settle; cbn [andb orb negb]);
    try lia; f_equal; lia.
Qed.

Lemma decode_encode (s bs : list N) :
  encode_utf8 s = Some bs -> decode_utf8_replace bs = s.
Proof.
  revert bs. induction s as [|c s IH]; intros bs; simpl.
  - by intros [= <-].
  - destruct (encode_char c) as [b|] eqn:Hb; [|done]. simpl.
    destruct (encode_utf8 s) as [bs'|]; [|done]. simpl.
    intros [= <-]. rewrite (decode_encode_char c b bs' Hb).
    by rewrite IH.
Qed.

End Utf8.

Section Mkdirs.

Implicit Types (fs : gmap (list (list N)) node) (p dst pre todo : list (list N)).

Lemma all_dirs_weaken fs fs' pre todo :
  fs ⊆ fs' -> all_dirs fs pre todo -> all_dirs fs' pre todo.
Proof.
  intros Hsub. revert pre.
  induction todo as [|c todo IH]; intros pre; [done|].
  intros [H1 H2]. split; [|by apply IH].
  by eapply lookup_weaken.
Qed.

Lemma all_dirs_insert fs pre todo p n :
  (length pre + length todo < length p)%nat ->
  all_dirs fs pre todo -> all_dirs (<[p := n]> fs) pre todo.
Proof.
  revert pre. induction todo as [|c todo IH]; intros pre Hlen; [done|].
  intros [H1 H2]. split.
  - rewrite lookup_insert_ne; [done|].
    intros ->. rewrite length_app in Hlen. simpl in Hlen. lia.
  - apply IH; [|done]. rewrite length_app. simpl in *. lia.
Qed.

Lemma all_dirs_last fs pre todo :
  all_dirs fs pre todo -> todo <> [] -> fs !! (pre ++ todo) = Some Dir.
Proof.
  revert pre. induction todo as [|c todo IH]; intros pre H Hne; [done|].
  destruct H as [H1 H2]. destruct todo as [|d todo]; [done|].
  rewrite (cons_middle c), app_assoc. by apply IH.
Qed.

Lemma all_dirs_is_dir fs p : all_dirs fs [] p -> Fs.is_dir fs p = true.
Proof.
  intros H. unfold Fs.is_dir. destruct p as [|c p]; [done|].
  pose proof (all_dirs_last fs [] (c :: p) H ltac:(done)) as Hl.
  rewrite app_nil_l in Hl.
  by rewrite (bool_decide_eq_true_2 _ Hl), orb_true_r.
Qed.

Lemma mkdirs_subseteq pre todo fs fs' r :
  Fs.mkdirs pre todo fs = (fs', r) -> fs ⊆ fs'.
Proof.
  revert pre fs. induction todo as [|c todo IH]; intros pre fs.
  - by intros [= <- _].
  - cbn [Fs.mkdirs]. unfold mbind, io_bind, get_tree, raise, put.
    destruct (fs !! (pre ++ [c])) as [[|]|] eqn:Hq.
    + by intros [= <- _].
    + apply IH.
    + intros H. apply IH in H. etrans; [|exact H].
      by apply insert_subseteq.
Qed.

Lemma mkdirs_raises pre todo fs fs' e :
  Fs.mkdirs pre todo fs = (fs', Raise e) -> e = OSError.
Proof.
  revert pre fs. induction todo as [|c todo IH]; intros pre fs.
  - done.
  - cbn [Fs.mkdirs]. unfold mbind, io_bind, get_tree, raise, put.
    destruct (fs !! (pre ++ [c])) as [[|]|] eqn:Hq.
    + by intros [= _ <-].
    + apply IH.
    + apply IH.
Qed.

Lemma mkdirs_all_dirs pre todo fs fs' :
  Fs.mkdirs pre todo fs = (fs', Ok tt) -> all_dirs fs' pre todo.
Proof.
  revert pre fs. induction todo as [|c todo IH]; intros pre fs; [done|].
  cbn [Fs.mkdirs all_dirs]. unfold mbind, io_bind, get_tree, raise, put.
  destruct (fs !! (pre ++ [c])) as [[|]|] eqn:Hq; [done| |].
  - intros H. split; [|by eapply IH].
    eapply lookup_weaken; [exact Hq|]. by eapply mkdirs_subseteq.
  - intros H. split; [|by eapply IH].
    eapply lookup_weaken; [|by eapply mkdirs_subseteq].
    by rewrite lookup_insert_eq.
Qed.

Lemma mkdirs_idem pre todo fs :
  all_dirs fs pre todo -> Fs.mkdirs pre todo fs = (fs, Ok tt).
Proof.
  revert pre. induction todo as [|c todo IH]; intros pre; [done|].
  intros [H1 H2]. cbn [Fs.mkdirs]. unfold mbind, io_bind, get_tree.
  rewrite H1. by apply IH.
Qed.

(** [mkdirs] leaves alone every path longer than the one it makes. *)
Lemma mkdirs_longer pre todo fs fs' r p :
  Fs.mkdirs pre todo fs = (fs', r) ->
  (length pre + length todo < length p)%nat -> fs' !! p = fs !! p.
Proof.
  revert pre fs. induction todo as [|c todo IH]; intros pre fs.
  - by intros [= <- _].
  - cbn [Fs.mkdirs]. unfold mbind, io_bind, get_tree, raise, put.
    intros H Hlen.
    assert (Hl : (length (pre ++ [c]) + length todo < length p)%nat)
      by (rewrite length_app; simpl in *; lia).
    destruct (fs !! (pre ++ [c])) as [[|]|] eqn:Hq.
    + by injection H as <- _.
    + by eapply IH.
    + rewrite (IH _ _ H Hl). apply lookup_insert_ne.
      intros <-. rewrite length_app in Hlen. simpl in Hlen. lia.
Qed.

Lemma parent_length p : p <> [] -> (length (Fs.parent p) < length p)%nat.
Proof.
  intros Hp. unfold Fs.parent.
  destruct (exists_last Hp) as (q & x & ->).
  rewrite removelast_last, length_app. simpl. lia.
Qed.

End Mkdirs.

(** X5.  [safe_mkdir] that succeeds leaves a directory at the path, changes
    nothing that was in the tree, and succeeds again without changing the
    tree; when it fails the exception is an OSError and still nothing
    that was in the tree has changed. *)
Theorem safe_mkdir_spec (p : list (list N))
    (fs : gmap (list (list N)) node) :
  fs ⊆ (safe_mkdir p fs).1
  /\ ((safe_mkdir p fs).2 = Ok tt ->
      Fs.is_dir (safe_mkdir p fs).1 p = true
      /\ safe_mkdir p (safe_mkdir p fs).1 = ((safe_mkdir p fs).1, Ok tt))
  /\ (forall e, (safe_mkdir p fs).2 = Raise e -> e = OSError).
Proof.
  unfold safe_mkdir. destruct (Fs.mkdirs [] p fs) as [fs' r] eqn:H. simpl.
  split; [by eapply mkdirs_subseteq|]. split.
  - intros ->. pose proof (mkdirs_all_dirs _ _ _ _ H) as Hd.
    split; [by apply all_dirs_is_dir|by apply mkdirs_idem].
  - intros e ->. by eapply mkdirs_raises.
Qed.

Lemma safe_mkdir_spec_witness :
  Fs.is_dir (safe_mkdir [py "notes"; py "a"] ∅).1 [py "notes"; py "a"] = true.
Proof.
  apply (safe_mkdir_spec [py "notes"; py "a"] ∅). vm_compute. reflexivity.
Defined.

Section Writer.

Implicit Types (fs : gmap (list (list N)) node) (dst : list (list N)).

Lemma is_dir_file fs dst data :
  dst <> [] -> fs !! dst = Some (File data) -> Fs.is_dir fs dst = false.
Proof.
  intros Hne H. unfold Fs.is_dir. rewrite H.
  rewrite bool_decide_eq_false_2 by done.
  by rewrite bool_decide_eq_false_2.
Qed.

Lemma is_dir_insert_other fs p q n :
  p <> q -> Fs.is_dir (<[q := n]> fs) p = Fs.is_dir fs p.
Proof. intros H. unfold Fs.is_dir. by rewrite lookup_insert_ne. Qed.

Lemma is_dir_nonempty fs dst : Fs.is_dir fs dst = false -> dst <> [].
Proof. intros H ->. done. Qed.

Lemma parent_ne dst : dst <> [] -> Fs.parent dst <> dst.
Proof.
  intros Hne Heq. pose proof (parent_length dst Hne) as Hl.
  rewrite Heq in Hl. lia.
Qed.

(** What a write that is not skipped does, once the parent exists. *)
Lemma write_text_spec dst text fs fs1 :
  write_text_if_changed dst text fs = (fs1, Ok tt) ->
  write_text_if_changed dst text fs1 = (fs1, Ok tt)
  /\ (exists data,
       fs1 !! dst = Some (File data)
       /\ read_text_bytes data = normalize_newlines text)
  /\ (forall p n, p <> dst -> fs !! p = Some n -> fs1 !! p = Some n).
Proof.
  unfold write_text_if_changed at 1. unfold mbind, io_bind, get_tree.
  destruct (match fs !! dst with Some (File old) => _ | _ => false end)
    eqn:Hun.
  - intros [= <-].
    destruct (fs !! dst) as [[old|]|] eqn:Hd; [|done..].
    apply bool_decide_eq_true in Hun.
    split.
    + unfold write_text_if_changed, mbind, io_bind, get_tree.
      rewrite Hd. by rewrite bool_decide_eq_true_2.
    + split; [|done]. exists old. split; [done|]. rewrite <- Hun.
      unfold read_text_bytes. by rewrite normalize_newlines_idem.
  - destruct (safe_mkdir (Fs.parent dst) fs) as [fsm [[]|e]] eqn:Hm; [|done].
    destruct (Fs.is_dir fsm dst || negb (Fs.is_dir fsm (Fs.parent dst)))
      eqn:Hchk; [done|].
    apply orb_false_iff in Hchk as [Hd Hp]. apply negb_false_iff in Hp.
    destruct (encode_utf8 text) as [data|] eqn:Henc.
    2:{ unfold put, raise. done. }
    unfold put. intros [= <-].
    pose proof (is_dir_nonempty _ _ Hd) as Hne.
    assert (Hl : <[dst := File data]> fsm !! dst = Some (File data))
      by apply lookup_insert_eq.
    split.
    + unfold write_text_if_changed, mbind, io_bind, get_tree.
      rewrite Hl.
      destruct (bool_decide (read_text_bytes data = text)); [done|].
      unfold safe_mkdir in *.
      rewrite mkdirs_idem.
      2:{ apply all_dirs_insert; [|by eapply mkdirs_all_dirs].
          simpl. by apply parent_length. }
      rewrite (is_dir_file _ dst data Hne Hl).
      rewrite is_dir_insert_other by by apply parent_ne.
      rewrite Hp. cbn [orb negb]. rewrite Henc. unfold put.
      by rewrite insert_insert_eq.
    + split.
      * exists data. split; [done|]. unfold read_text_bytes.
        by rewrite (decode_encode text data Henc).
      * intros p n Hp' Hfs. rewrite lookup_insert_ne by done.
        eapply lookup_weaken; [exact Hfs|]. by eapply mkdirs_subseteq.
Qed.

Variable sha256 : list N -> list N.

Lemma exists_file fs dst n : fs !! dst = Some n -> Fs.exists_ fs dst = true.
Proof.
  intros H. unfold Fs.exists_. rewrite H.
  rewrite (bool_decide_eq_true_2 (is_Some (Some n))) by by eexists.
  by rewrite orb_true_r.
Qed.

Lemma not_exists_lookup fs dst :
  Fs.exists_ fs dst = false -> dst <> [] /\ fs !! dst = None.
Proof.
  unfold Fs.exists_. intros H. apply orb_false_iff in H as [H1 H2].
  apply bool_decide_eq_false in H1, H2. split; [done|].
  by apply eq_None_not_Some.
Qed.

(** [copy2] of readable bytes, when it succeeds: where the bytes went. *)
Lemma copy2_spec name data dst fs fs1 :
  Fs.copy2 name (Some data) dst fs = (fs1, Ok tt) ->
  let dst' := if Fs.is_dir fs dst then dst ++ [name] else dst in
  fs1 = <[dst' := File data]> fs
  /\ Fs.is_dir fs dst' = false /\ Fs.is_dir fs (Fs.parent dst') = true.
Proof.
  intros H dst'. unfold Fs.copy2, mbind, io_bind, get_tree in H.
  fold dst' in H.
  destruct (Fs.is_dir fs dst' || negb (Fs.is_dir fs (Fs.parent dst')))
    eqn:Hchk; [done|].
  apply orb_false_iff in Hchk as [Hd Hp]. apply negb_false_iff in Hp.
  unfold put in H. by injection H as <-.
Qed.

(** Copying again what has just been copied to a file changes nothing. *)
Lemma copy2_again name data dst fs :
  dst <> [] -> Fs.is_dir fs (Fs.parent dst) = true ->
  Fs.copy2 name (Some data) dst (<[dst := File data]> fs)
  = (<[dst := File data]> fs, Ok tt).
Proof.
  intros Hne Hp. unfold Fs.copy2, mbind, io_bind, get_tree.
  assert (Hl : <[dst := File data]> fs !! dst = Some (File data))
    by apply lookup_insert_eq.
  cbv zeta. rewrite (is_dir_file _ dst data Hne Hl). cbv iota.
  rewrite (is_dir_file _ dst data Hne Hl).
  rewrite (is_dir_insert_other fs (Fs.parent dst)) by by apply parent_ne.
  rewrite Hp. cbn [orb negb]. unfold put. by rewrite insert_insert_eq.
Qed.

Lemma copy_file_spec name data dst fs fs1 :
  dst <> [] ->
  copy_file_if_changed sha256 name (Some data) dst fs = (fs1, Ok tt) ->
  copy_file_if_changed sha256 name (Some data) dst fs1 = (fs1, Ok tt)
  /\ (forall p n, p <> dst -> p <> dst ++ [name] ->
        fs !! p = Some n -> fs1 !! p = Some n)
  /\ (Fs.is_dir fs1 dst = false ->
      exists old, fs1 !! dst = Some (File old)
                  /\ length old = length data
                  /\ sha256 old = sha256 data)
  /\ (Fs.is_dir fs1 dst = true ->
      fs1 !! (dst ++ [name]) = Some (File data)).
Proof.
  intros Hne0.
  unfold copy_file_if_changed at 1. unfold mbind, io_bind, get_tree.
  destruct (safe_mkdir (Fs.parent dst) fs) as [fsm [[]|e]] eqn:Hm; [|done].
  unfold safe_mkdir in Hm.
  pose proof (mkdirs_all_dirs _ _ _ _ Hm) as Hall.
  pose proof (mkdirs_subseteq _ _ _ _ _ Hm) as Hsub.
  assert (Hkeep : forall q n,
            (length (Fs.parent dst) < length q)%nat ->
            Fs.mkdirs [] (Fs.parent dst) (<[q := n]> fsm)
            = (<[q := n]> fsm, Ok tt)).
  { intros q n Hq. apply mkdirs_idem. by apply all_dirs_insert. }
  destruct (Fs.exists_ fsm dst) eqn:Hex; cbn [negb].
  2:{ (* the destination is new *)
    intros Hc. apply not_exists_lookup in Hex as [Hne Hnone].
    assert (Hd : Fs.is_dir fsm dst = false).
    { unfold Fs.is_dir. rewrite Hnone.
      by rewrite !bool_decide_eq_false_2. }
    apply copy2_spec in Hc. rewrite Hd in Hc. destruct Hc as (-> & _ & Hp).
    assert (Hl : <[dst := File data]> fsm !! dst = Some (File data))
      by apply lookup_insert_eq.
    split; [|split; [|split]].
    - unfold copy_file_if_changed, mbind, io_bind, get_tree, safe_mkdir.
      rewrite Hkeep by (done || by apply parent_length).
      rewrite (exists_file _ _ _ Hl). cbn [negb]. rewrite Hl.
      by rewrite !bool_decide_eq_true_2.
    - intros p n Hp1 _ Hfs. rewrite lookup_insert_ne by done.
      by eapply lookup_weaken.
    - intros _. by exists data.
    - intros Hdir. by rewrite (is_dir_file _ dst data Hne Hl) in Hdir. }
  destruct (match fsm !! dst with Some (File old) => _ | _ => false end)
    eqn:Hsame.
  { (* same size and digest: nothing is copied *)
    intros [= <-].
    destruct (fsm !! dst) as [[old|]|] eqn:Hd; [|done..].
    apply andb_true_iff in Hsame as [Hlen Hsha].
    apply bool_decide_eq_true in Hlen, Hsha.
    split; [|split; [|split]].
    - unfold copy_file_if_changed, mbind, io_bind, get_tree, safe_mkdir.
      rewrite mkdirs_idem by done. rewrite Hex. cbn [negb]. rewrite Hd.
      by rewrite !bool_decide_eq_true_2.
    - intros p n _ _ Hfs. by eapply lookup_weaken.
    - intros _. by exists old.
    - intros Hdir. unfold Fs.is_dir in Hdir. rewrite Hd in Hdir.
      apply orb_true_iff in Hdir as [Hdir|Hdir];
        apply bool_decide_eq_true in Hdir; done. }
  intros Hc. apply copy2_spec in Hc. cbv zeta in Hc.
  destruct (Fs.is_dir fsm dst) eqn:Hdir.
  - (* the destination is a directory *)
    destruct Hc as (-> & Hd' & Hp').
    assert (Hne' : dst ++ [name] <> []) by by destruct dst.
    assert (Hpar : Fs.parent (dst ++ [name]) = dst)
      by (unfold Fs.parent; apply removelast_last).
    assert (Hneq : dst <> dst ++ [name]).
    { intros Heq. apply (f_equal length) in Heq.
      rewrite length_app in Heq. simpl in Heq. lia. }
    assert (Hl : <[dst ++ [name] := File data]> fsm !! (dst ++ [name])
                 = Some (File data)) by apply lookup_insert_eq.
    assert (Hdir1 : Fs.is_dir (<[dst ++ [name] := File data]> fsm) dst = true)
      by by rewrite is_dir_insert_other.
    split; [|split; [|split]].
    + unfold copy_file_if_changed, mbind, io_bind, get_tree, safe_mkdir.
      rewrite Hkeep.
      2:{ rewrite length_app. simpl.
          pose proof (parent_length dst Hne0). lia. }
      assert (Hex1 : Fs.exists_ (<[dst ++ [name] := File data]> fsm) dst
                     = true).
      { unfold Fs.exists_ in *. by rewrite lookup_insert_ne. }
      rewrite Hex1. cbn [negb].
      rewrite lookup_insert_ne by done.
      assert (Hs1 : match fsm !! dst with
                    | Some (File old) =>
                        bool_decide (length data = length old)
                        && bool_decide (sha256 data = sha256 old)
                    | _ => false
                    end = false) by exact Hsame.
      rewrite Hs1.
      unfold Fs.copy2, mbind, io_bind, get_tree.
      rewrite Hdir1, (is_dir_file _ _ data Hne' Hl), Hpar, Hdir1.
      cbn [orb negb]. unfold put. by rewrite insert_insert_eq.
    + intros p n _ Hp2 Hfs. rewrite lookup_insert_ne by done.
      by eapply lookup_weaken.
    + intros Hf. congruence.
    + intros _. done.
  - (* the destination is a file that differs *)
    destruct Hc as (-> & _ & Hp).
    pose proof (is_dir_nonempty _ _ Hdir) as Hne.
    assert (Hl : <[dst := File data]> fsm !! dst = Some (File data))
      by apply lookup_insert_eq.
    split; [|split; [|split]].
    + unfold copy_file_if_changed, mbind, io_bind, get_tree, safe_mkdir.
      rewrite Hkeep by (done || by apply parent_length).
      rewrite (exists_file _ _ _ Hl). cbn [negb]. rewrite Hl.
      by rewrite !bool_decide_eq_true_2.
    + intros p n Hp1 _ Hfs. rewrite lookup_insert_ne by done.
      by eapply lookup_weaken.
    + intros _. by exists data.
    + intros Hd. by rewrite (is_dir_file _ dst data Hne Hl) in Hd.
Qed.

End Writer.

Section UniqueLeast.

Implicit Types (fs : gmap (list (list N)) node) (dst parent : list (list N)).

Lemma first_free_least fs parent stem suffix n i c :
  first_free fs parent stem suffix n i = Ok c ->
  exists k : nat,
    (k < n)%nat /\ c = dup_path parent stem suffix (i + N.of_nat k)
    /\ forall j : nat, (j < k)%nat ->
         Fs.exists_ fs (dup_path parent stem suffix (i + N.of_nat j)) = true.
Proof.
  revert i. induction n as [|n IH]; intros i; cbn [first_free]; [done|].
  fold (dup_path parent stem suffix i).
  destruct (Fs.exists_ fs (dup_path parent stem suffix i)) eqn:He;
    cbn [negb].
  - intros H. destruct (IH _ H) as (k & Hk & -> & Hj).
    exists (S k). split; [lia|]. split; [f_equal; lia|].
    intros [|j] Hlt.
    + by rewrite N.add_0_r.
    + replace (i + N.of_nat (S j)) with (i + 1 + N.of_nat j) by lia.
      apply Hj. lia.
  - intros [= <-]. exists 0%nat. split; [lia|].
    split; [by rewrite N.add_0_r|]. intros j Hj. lia.
Qed.

Lemma first_free_raise fs parent stem suffix n i e :
  first_free fs parent stem suffix n i = Raise e ->
  e = RuntimeError
  /\ forall j : nat, (j < n)%nat ->
       Fs.exists_ fs (dup_path parent stem suffix (i + N.of_nat j)) = true.
Proof.
  revert i. induction n as [|n IH]; intros i; cbn [first_free].
  - intros [= <-]. split; [done|]. intros j Hj. lia.
  - fold (dup_path parent stem suffix i).
    destruct (Fs.exists_ fs (dup_path parent stem suffix i)) eqn:He;
      cbn [negb]; [|done].
    intros H. destruct (IH _ H) as [-> Hj]. split; [done|].
    intros [|j] Hlt.
    + by rewrite N.add_0_r.
    + replace (i + N.of_nat (S j)) with (i + 1 + N.of_nat j) by lia.
      apply Hj. lia.
Qed.

(** The same for any number [n] of candidates. *)
Lemma unique_path_least_upto fs dst (n : nat) (bound : N) :
  N.of_nat n = bound ->
  match (if negb (Fs.exists_ fs dst) then Ok dst
         else first_free fs (Fs.parent dst) (Pathlib.stem_of dst)
                (Pathlib.suffix_of dst) n 1) with
  | Ok c =>
      Fs.exists_ fs c = false
      /\ Fs.parent c = Fs.parent dst
      /\ (if Fs.exists_ fs dst
          then exists i,
                 1 <= i <= bound
                 /\ c = dup_path (Fs.parent dst) (Pathlib.stem_of dst)
                          (Pathlib.suffix_of dst) i
                 /\ forall j, 1 <= j < i ->
                      Fs.exists_ fs
                        (dup_path (Fs.parent dst) (Pathlib.stem_of dst)
                           (Pathlib.suffix_of dst) j) = true
          else c = dst)
  | Raise e =>
      e = RuntimeError
      /\ Fs.exists_ fs dst = true
      /\ forall j, 1 <= j <= bound ->
           Fs.exists_ fs
             (dup_path (Fs.parent dst) (Pathlib.stem_of dst)
                (Pathlib.suffix_of dst) j) = true
  end.
Proof.
  intros Hn. destruct (Fs.exists_ fs dst) eqn:He; cbn [negb].
  2:{ by rewrite He. }
  destruct (first_free fs _ _ _ n 1) as [c|e] eqn:Hu.
  - pose proof (first_free_fresh _ _ _ _ _ _ _ Hu) as Hf.
    apply first_free_least in Hu as (k & Hk & -> & Hj).
    split; [done|].
    split; [unfold dup_path, Fs.parent; apply removelast_last|].
    exists (1 + N.of_nat k). split; [lia|]. split; [done|].
    intros j Hjr.
    replace j with (1 + N.of_nat (N.to_nat (j - 1))) by lia.
    apply Hj. lia.
  - apply first_free_raise in Hu as [-> Hj]. split; [done|]. split; [done|].
    intros j Hjr.
    replace j with (1 + N.of_nat (N.to_nat (j - 1))) by lia.
    apply Hj. lia.
Qed.

End UniqueLeast.

(** X8.  [unique_path_if_needed] returns the destination itself exactly
    when nothing exists there.  Otherwise it returns, in the same
    directory, the name stem__dupN.suffix with the least N from 1 to 9999
    at which nothing exists; the path it returns never exists.  It raises
    only RuntimeError, and only when the destination and all 9999
    candidates exist. *)
Theorem unique_path_least (fs : gmap (list (list N)) node)
    (dst : list (list N)) :
  match unique_path_if_needed fs dst with
  | Ok c =>
      Fs.exists_ fs c = false
      /\ Fs.parent c = Fs.parent dst
      /\ (if Fs.exists_ fs dst
          then exists i,
                 1 <= i <= 9999
                 /\ c = dup_path (Fs.parent dst) (Pathlib.stem_of dst)
                          (Pathlib.suffix_of dst) i
                 /\ forall j, 1 <= j < i ->
                      Fs.exists_ fs
                        (dup_path (Fs.parent dst) (Pathlib.stem_of dst)
                           (Pathlib.suffix_of dst) j) = true
          else c = dst)
  | Raise e =>
      e = RuntimeError
      /\ Fs.exists_ fs dst = true
      /\ forall j, 1 <= j <= 9999 ->
           Fs.exists_ fs
             (dup_path (Fs.parent dst) (Pathlib.stem_of dst)
                (Pathlib.suffix_of dst) j) = true
  end.
Proof. exact (unique_path_least_upto fs dst (N.to_nat 9999) 9999 (N2Nat.id 9999)). Qed.

Section SyncSpec.

Variable sha256 : list N -> list N.
Implicit Types (fs : gmap (list (list N)) node) (dst : list (list N))
  (idx : gmap (list N) (list N)).

Lemma register_keys idx (keys : list (list N)) (v k : list N) :
  foldl (fun idx k => <[k := v]> idx) idx keys !! k
  = if decide (k ∈ keys) then Some v else idx !! k.
Proof.
  revert idx. induction keys as [|k' keys IH]; intros idx; cbn [foldl].
  - destruct (decide (k ∈ [])) as [H|H]; [by apply elem_of_nil in H|done].
  - rewrite IH. destruct (decide (k ∈ keys)) as [Hin|Hin].
    + rewrite decide_True; [done|]. by right.
    + destruct (decide (k = k')) as [->|Hne].
      * rewrite decide_True by (by left). apply lookup_insert_eq.
      * rewrite decide_False.
        2:{ intros H. apply elem_of_cons in H as [?|?]; done. }
        by apply lookup_insert_ne.
Qed.

(** Copying to a path where nothing exists writes the bytes there and
    changes nothing else that was in the tree. *)
Lemma copy_file_new name data dst fs fs1 :
  Fs.exists_ fs dst = false ->
  copy_file_if_changed sha256 name (Some data) dst fs = (fs1, Ok tt) ->
  fs1 !! dst = Some (File data) /\ fs ⊆ fs1.
Proof.
  intros Hex. apply not_exists_lookup in Hex as [Hne Hnone].
  unfold copy_file_if_changed, mbind, io_bind, get_tree.
  destruct (safe_mkdir (Fs.parent dst) fs) as [fsm [[]|e]] eqn:Hm; [|done].
  unfold safe_mkdir in Hm.
  assert (Hm' : fsm !! dst = None).
  { rewrite (mkdirs_longer _ _ _ _ _ dst Hm); [done|].
    simpl. by apply parent_length. }
  assert (Hex' : Fs.exists_ fsm dst = false).
  { unfold Fs.exists_. rewrite Hm'.
    rewrite bool_decide_eq_false_2 by done.
    rewrite bool_decide_eq_false_2; [done|]. by intros []. }
  rewrite Hex'. cbn [negb]. intros Hc. apply copy2_spec in Hc.
  assert (Hd : Fs.is_dir fsm dst = false).
  { unfold Fs.is_dir. rewrite Hm'. by rewrite !bool_decide_eq_false_2. }
  rewrite Hd in Hc. destruct Hc as (-> & _ & _).
  split; [apply lookup_insert_eq|].
  etrans; [by eapply mkdirs_subseteq|]. by apply insert_subseteq.
Qed.

Lemma sync_media_file_spec idx idx' rel data fs fs' :
  sync_media_file sha256 idx rel data fs = (fs', Ok idx') ->
  exists bytes decoded d0 dst rel_final keys,
    data = Some bytes
    /\ strip_query (decode_path_segments (to_posix (PathOps.to_str rel)))
       = Ok decoded
    /\ media_dst decoded = Ok d0
    /\ unique_path_if_needed fs d0 = Ok dst
    /\ relative_to_media dst = Ok rel_final
    /\ strip_all (key_forms (to_posix (PathOps.to_str rel))
                  ++ key_forms decoded
                  ++ key_forms (Urllib.unquote (to_posix (PathOps.to_str rel))))
       = Ok keys
    /\ fs !! dst = None
    /\ fs' !! dst = Some (File bytes)
    /\ fs ⊆ fs'
    /\ forall k,
         idx' !! k
         = if decide (k ∈ keys)
           then Some (to_posix (PathOps.to_str rel_final))
           else idx !! k.
Proof.
  unfold sync_media_file, mbind, io_bind, lift, get_tree.
  destruct (strip_query _) as [decoded|e] eqn:Hdec; [|done].
  destruct (media_dst decoded) as [d0|e] eqn:Hd0; [|done].
  destruct (unique_path_if_needed fs d0) as [dst|e] eqn:Hu; [|done].
  destruct (copy_file_if_changed sha256 _ data dst fs) as [fs1 [[]|e]] eqn:Hc;
    [|done].
  destruct (relative_to_media dst) as [rf|e] eqn:Hrel; [|done].
  destruct (strip_all _) as [keys|e] eqn:Hk; [|done].
  unfold mret, io_ret. intros [= <- <-].
  pose proof (unique_path_fresh _ _ _ Hu) as Hfresh.
  destruct data as [bytes|].
  2:{ exfalso. revert Hc.
      unfold copy_file_if_changed, mbind, io_bind, get_tree.
      destruct (safe_mkdir _ fs) as [fsm [[]|e]]; [|done].
      destruct (negb _); [done|]. done. }
  destruct (copy_file_new _ _ _ _ _ Hfresh Hc) as [Hl Hsub].
  exists bytes, decoded, d0, dst, rf, keys.
  repeat (split; [done|]).
  split; [by apply not_exists_lookup in Hfresh as [_ ?]|].
  split; [done|]. split; [done|].
  intros k. apply register_keys.
Qed.

Lemma build_media_size idx idx' media fs fs' :
  build_media_index_from sha256 idx media fs = (fs', Ok idx') ->
  fs ⊆ fs' /\ (size fs + count_files media <= size fs')%nat.
Proof.
  revert idx fs. induction media as [|[rel [|data]] media IH]; intros idx fs.
  - intros [= <- _]. split; [done|]. simpl. lia.
  - cbn [build_media_index_from count_files]. apply IH.
  - cbn [build_media_index_from count_files]. unfold mbind, io_bind.
    destruct (sync_media_file sha256 idx rel data fs) as [fs1 [idx1|e]] eqn:Hs;
      [|done].
    intros H. apply IH in H as [Hsub Hsize].
    apply sync_media_file_spec in Hs
      as (b & dec & d0 & dst & rf & keys & _ & _ & _ & _ & _ & _
          & Hnone & Hsome & Hsub1 & _).
    split; [by etrans|].
    assert (Hlt : (size fs < size fs1)%nat).
    { apply map_subset_size. split; [done|].
      intros Hback. pose proof (lookup_weaken _ _ _ _ Hsome Hback). congruence. }
    lia.
Qed.

End SyncSpec.

(** X4.  UTF-8 round trip: the bytes [encode_utf8] gives for a string
    decode, under errors="replace", to that string with no replacement
    character added; read back as a text file they give the string with
    its newlines normalized. *)
Theorem utf8_round_trip (s bs : list N) :
  encode_utf8 s = Some bs ->
  Urllib.decode_utf8_replace bs = s
  /\ read_text_bytes bs = normalize_newlines s
  /\ (c_cr ∉ s -> read_text_bytes bs = s).
Proof.
  intros H. pose proof (decode_encode s bs H) as Hd.
  split; [done|]. unfold read_text_bytes. rewrite Hd. split; [done|].
  apply normalize_newlines_no_cr.
Qed.

Lemma utf8_round_trip_witness :
  Urllib.decode_utf8_replace [206; 179; 226; 130; 172; 240; 159; 152; 128]
  = [947; 8364; 128512].
Proof.
  refine (proj1 (utf8_round_trip [947; 8364; 128512]
                   [206; 179; 226; 130; 172; 240; 159; 152; 128] _)).
  vm_compute. reflexivity.
Defined.

(** X6.  A [write_text_if_changed] that succeeds leaves at the
    destination a file that reads back as the text (newlines normalized),
    keeps every other entry of the tree, and is a no-op when repeated:
    the same call on the resulting tree succeeds and returns that tree. *)
Theorem write_text_if_changed_twice (dst : list (list N)) (text : list N)
    (fs : gmap (list (list N)) node) :
  (write_text_if_changed dst text fs).2 = Ok tt ->
  write_text_if_changed dst text (write_text_if_changed dst text fs).1
  = ((write_text_if_changed dst text fs).1, Ok tt)
  /\ (exists data,
        (write_text_if_changed dst text fs).1 !! dst = Some (File data)
        /\ read_text_bytes data = normalize_newlines text)
  /\ (forall p n, p <> dst -> fs !! p = Some n ->
        (write_text_if_changed dst text fs).1 !! p = Some n).
Proof.
  destruct (write_text_if_changed dst text fs) as [fs1 r] eqn:H. simpl.
  intros ->. by apply write_text_spec.
Qed.

Lemma write_text_if_changed_twice_witness :
  write_text_if_changed [py "notes"; py "p.md"] (py "hello")
    (write_text_if_changed [py "notes"; py "p.md"] (py "hello") ∅).1
  = ((write_text_if_changed [py "notes"; py "p.md"] (py "hello") ∅).1, Ok tt).
Proof.
  refine (proj1 (write_text_if_changed_twice [py "notes"; py "p.md"]
                   (py "hello") ∅ _)).
  vm_compute. reflexivity.
Defined.

(** X7.  A [copy_file_if_changed] of a readable source to a destination
    other than the root, when it succeeds, is a no-op when repeated; it
    keeps every entry of the tree other than the destination and the
    file of the source's name below it; a destination that is a file
    then has the size and the digest of the source, and a destination
    that is a directory holds the source's bytes under the source's
    name. *)
Theorem copy_file_if_changed_twice (sha256 : list N -> list N)
    (name data : list N) (dst : list (list N))
    (fs : gmap (list (list N)) node) :
  dst <> [] ->
  (copy_file_if_changed sha256 name (Some data) dst fs).2 = Ok tt ->
  copy_file_if_changed sha256 name (Some data) dst
    (copy_file_if_changed sha256 name (Some data) dst fs).1
  = ((copy_file_if_changed sha256 name (Some data) dst fs).1, Ok tt)
  /\ (forall p n, p <> dst -> p <> dst ++ [name] -> fs !! p = Some n ->
        (copy_file_if_changed sha256 name (Some data) dst fs).1 !! p
        = Some n)
  /\ (Fs.is_dir (copy_file_if_changed sha256 name (Some data) dst fs).1 dst
      = false ->
      exists old,
        (copy_file_if_changed sha256 name (Some data) dst fs).1 !! dst
        = Some (File old)
        /\ length old = length data /\ sha256 old = sha256 data)
  /\ (Fs.is_dir (copy_file_if_changed sha256 name (Some data) dst fs).1 dst
      = true ->
      (copy_file_if_changed sha256 name (Some data) dst fs).1
        !! (dst ++ [name]) = Some (File data)).
Proof.
  intros Hne.
  destruct (copy_file_if_changed sha256 name (Some data) dst fs)
    as [fs1 r] eqn:H. simpl.
  intros ->. by eapply copy_file_spec.
Qed.

Lemma copy_file_if_changed_twice_witness :
  copy_file_if_changed (fun b => b) (py "a.png") (Some bytes123)
    [py "media"; py "a.png"]
    (copy_file_if_changed (fun b => b) (py "a.png") (Some bytes123)
       [py "media"; py "a.png"] ∅).1
  = ((copy_file_if_changed (fun b => b) (py "a.png") (Some bytes123)
        [py "media"; py "a.png"] ∅).1, Ok tt).
Proof.
  refine (proj1 (copy_file_if_changed_twice (fun b => b) (py "a.png")
                   bytes123 [py "media"; py "a.png"] ∅ _ _)).
  - done.
  - vm_compute. reflexivity.
Defined.





Section Adjacent.

Variable P : N -> N -> bool.
Implicit Types (s l r run pre : list N).

Lemma adjacent_app l x r :
  adjacent P (l ++ x :: r) = adjacent P (l ++ [x]) || adjacent P (x :: r).
Proof.
  induction l as [|a l IH]; [done|].
  destruct l as [|b l].
  - cbn. destruct r; cbn; by rewrite ?orb_false_r.
  - change (adjacent P ((a :: b :: l) ++ x :: r))
      with (P a b || adjacent P ((b :: l) ++ x :: r)).
    change (adjacent P ((a :: b :: l) ++ [x]))
      with (P a b || adjacent P ((b :: l) ++ [x])).
    rewrite IH. by rewrite orb_assoc.
Qed.

Lemma adjacent_snoc l x :
  adjacent P l = false -> (forall p, P p x = false) ->
  adjacent P (l ++ [x]) = false.
Proof.
  intros Hl Hx. induction l as [|a l IH]; [done|].
  destruct l as [|b l].
  - cbn. by rewrite Hx.
  - change (adjacent P (a :: b :: l)) with (P a b || adjacent P (b :: l)) in Hl.
    apply orb_false_iff in Hl as [Hab Hl].
    change (adjacent P ((a :: b :: l) ++ [x]))
      with (P a b || adjacent P ((b :: l) ++ [x])).
    rewrite Hab. by apply IH.
Qed.

Lemma adjacent_app_false l r :
  adjacent P (l ++ r) = false ->
  adjacent P l = false /\ adjacent P r = false.
Proof.
  destruct r as [|x r].
  - rewrite app_nil_r. by intros ->.
  - rewrite adjacent_app. intros H. apply orb_false_iff in H as [H1 H2].
    split; [|done]. clear H2. induction l as [|a l IH]; [done|].
    destruct l as [|b l]; [done|].
    change (adjacent P ((a :: b :: l) ++ [x]))
      with (P a b || adjacent P ((b :: l) ++ [x])) in H1.
    apply orb_false_iff in H1 as [Hab H1].
    change (adjacent P (a :: b :: l)) with (P a b || adjacent P (b :: l)).
    rewrite Hab. by apply IH.
Qed.

(** A pass that maps characters one by one. *)
Lemma replace_adjacent (a b : N) s :
  (forall x y,
     P (if decide (x = a) then b else x) (if decide (y = a) then b else y)
     = P x y) ->
  adjacent P (Str.replace a b s) = adjacent P s.
Proof.
  intros HP. unfold Str.replace. induction s as [|x s IH]; [done|].
  destruct s as [|y s]; [done|].
  rewrite !fmap_cons in *.
  change (adjacent P (?u :: ?v :: ?w)) with (P u v || adjacent P (v :: w)).
  by rewrite HP, IH.
Qed.

(** Passes that delete characters in front of a newline make no pair
    that no character forms with a newline. *)
Hypothesis P_lf : forall p, P p c_lf = false.

Lemma replace_crlf_adjacent pre s :
  adjacent P (pre ++ s) = false ->
  adjacent P (pre ++ replace_crlf s) = false.
Proof.
  revert pre. induction s as [|c s IH]; intros pre H; [done|].
  cbn [replace_crlf]. destruct s as [|d s]; [done|].
  destruct ((c =? c_cr) && (d =? c_lf)) eqn:Hcd.
  - apply andb_true_iff in Hcd as [_ Hd]. apply N.eqb_eq in Hd. subst d.
    apply IH. rewrite adjacent_app.
    rewrite adjacent_app in H. apply orb_false_iff in H as [H1 H2].
    apply orb_false_iff. split.
    + apply adjacent_snoc; [|done].
      by apply adjacent_app_false in H1 as [? _].
    + change (adjacent P (c :: c_lf :: s))
        with (P c c_lf || adjacent P (c_lf :: s)) in H2.
      by apply orb_false_iff in H2 as [_ ?].
  - specialize (IH (pre ++ [c])). rewrite <- !app_assoc in IH. by apply IH.
Qed.

Lemma sub_blank_eol_adjacent pre run s :
  adjacent P (pre ++ run ++ s) = false ->
  adjacent P (pre ++ sub_blank_eol run s) = false.
Proof.
  revert pre run. induction s as [|c s IH]; intros pre run H.
  - by rewrite app_nil_r in H.
  - cbn [sub_blank_eol]. destruct (is_blank c).
    + apply IH. by rewrite <- app_assoc.
    + destruct (c =? c_lf) eqn:Hc.
      * apply N.eqb_eq in Hc. subst c.
        rewrite app_assoc in H. rewrite adjacent_app in H.
        apply orb_false_iff in H as [H1 H2].
        specialize (IH (pre ++ [c_lf]) []). rewrite <- !app_assoc in IH.
        apply IH. cbn [app]. rewrite adjacent_app. apply orb_false_iff.
        split; [|done]. apply adjacent_snoc; [|done].
        apply adjacent_app_false in H1 as [H1 _].
        by apply adjacent_app_false in H1 as [? _].
      * specialize (IH ((pre ++ run) ++ [c]) []).
        rewrite <- !app_assoc in IH. by apply IH.
Qed.

End Adjacent.

Section Cleanup.

Implicit Types (s run pre : list N).

Lemma flush_blanks_short run : (length run <= 1)%nat -> flush_blanks run = run.
Proof. destruct run as [|a [|b run]]; simpl; [done|done|lia]. Qed.

(** Replacing a run of blanks by one space makes no pair that the space
    does not form. *)
Lemma sub_multispace_adjacent (P : N -> N -> bool) pre run s :
  (forall p, P p c_sp = false) -> (forall q, P c_sp q = false) ->
  adjacent P (pre ++ run ++ s) = false ->
  adjacent P (pre ++ sub_multispace run s) = false.
Proof.
  intros Hl Hr. revert pre run. induction s as [|c s IH]; intros pre run H.
  - rewrite app_nil_r in H. cbn [sub_multispace].
    destruct run as [|a [|b run]]; [done|done|]. cbn [flush_blanks].
    apply adjacent_snoc; [|done]. by apply adjacent_app_false in H as [? _].
  - cbn [sub_multispace]. destruct (is_blank c).
    + apply IH. by rewrite <- app_assoc.
    + destruct run as [|a [|b run]].
      * cbn [flush_blanks app] in *.
        specialize (IH (pre ++ [c]) []). rewrite <- !app_assoc in IH.
        by apply IH.
      * cbn [flush_blanks] in *.
        specialize (IH ((pre ++ [a]) ++ [c]) []).
        rewrite <- !app_assoc in IH. by apply IH.
      * cbn [flush_blanks].
        specialize (IH ((pre ++ [c_sp]) ++ [c]) []).
        rewrite <- !app_assoc in IH. apply IH. cbn [app].
        rewrite app_assoc in H. rewrite adjacent_app in H.
        apply orb_false_iff in H as [H1 H2].
        rewrite adjacent_app. apply orb_false_iff. split.
        { apply adjacent_snoc; [|done].
          apply adjacent_app_false in H1 as [H1 _].
          by apply adjacent_app_false in H1 as [? _]. }
        change (adjacent P (c_sp :: c :: s))
          with (P c_sp c || adjacent P (c :: s)).
        rewrite Hr. cbn [orb].
        destruct s as [|d s]; [done|].
        change (adjacent P (c :: d :: s))
          with (P c d || adjacent P (d :: s)) in H2.
        change (adjacent P (c :: d :: s))
          with (P c d || adjacent P (d :: s)).
        done.
Qed.


Lemma adjacent_snoc_last (P : N -> N -> bool) l x :
  adjacent P l = false ->
  (forall p, last l = Some p -> P p x = false) ->
  adjacent P (l ++ [x]) = false.
Proof.
  intros Hl Hx. induction l as [|a l IH]; [done|].
  destruct l as [|b l].
  - cbn. rewrite Hx; done.
  - change (adjacent P (a :: b :: l)) with (P a b || adjacent P (b :: l)) in Hl.
    apply orb_false_iff in Hl as [Hab Hl].
    change (adjacent P ((a :: b :: l) ++ [x]))
      with (P a b || adjacent P ((b :: l) ++ [x])).
    rewrite Hab. apply IH; [done|]. intros p Hp. apply Hx.
    by rewrite last_cons, Hp.
Qed.

Lemma ends_nonblank_snoc pre c : is_blank c = false -> ends_nonblank (pre ++ [c]).
Proof. intros Hc p. rewrite last_snoc. by intros [= <-]. Qed.

Lemma sub_multispace_no_double pre run s :
  Forall (fun c => is_blank c = true) run -> ends_nonblank pre ->
  adjacent two_blanks pre = false ->
  adjacent two_blanks (pre ++ sub_multispace run s) = false.
Proof.
  revert pre run. induction s as [|c s IH]; intros pre run Hrun Hpre H.
  - cbn [sub_multispace]. destruct run as [|a [|b run]].
    + by rewrite app_nil_r.
    + apply adjacent_snoc_last; [done|]. intros p Hp. unfold two_blanks.
      by rewrite (Hpre p Hp).
    + apply adjacent_snoc_last; [done|]. intros p Hp. unfold two_blanks.
      by rewrite (Hpre p Hp).
  - cbn [sub_multispace]. destruct (is_blank c) eqn:Hc.
    + apply IH; [|done|done]. apply Forall_app. by split; [|constructor].
    + assert (Hf : adjacent two_blanks (pre ++ flush_blanks run) = false).
      { destruct run as [|a [|b run]]; cbn [flush_blanks].
        - by rewrite app_nil_r.
        - apply adjacent_snoc_last; [done|]. intros p Hp. unfold two_blanks.
          by rewrite (Hpre p Hp).
        - apply adjacent_snoc_last; [done|]. intros p Hp. unfold two_blanks.
          by rewrite (Hpre p Hp). }
      specialize (IH ((pre ++ flush_blanks run) ++ [c]) []).
      rewrite <- !app_assoc in IH. apply IH; [constructor|..].
      * rewrite app_assoc. by apply ends_nonblank_snoc.
      * rewrite app_assoc. apply adjacent_snoc; [done|].
        intros p. unfold two_blanks. rewrite Hc. apply andb_false_r.
Qed.

Lemma adjacent_blanks_lf pre run :
  Forall (fun c => is_blank c = true) run ->
  adjacent blank_then_lf pre = false ->
  adjacent blank_then_lf (pre ++ run) = false.
Proof.
  intros Hrun. revert pre. induction Hrun as [|a run Ha _ IH]; intros pre H.
  - by rewrite app_nil_r.
  - change (a :: run) with ([a] ++ run). rewrite app_assoc. apply IH.
    apply adjacent_snoc; [done|]. intros p. unfold blank_then_lf.
    destruct (N.eqb_spec a c_lf) as [->|_]; [done|]. apply andb_false_r.
Qed.

Lemma sub_blank_eol_no_eol pre run s :
  Forall (fun c => is_blank c = true) run -> ends_nonblank pre ->
  adjacent blank_then_lf pre = false ->
  adjacent blank_then_lf (pre ++ sub_blank_eol run s) = false.
Proof.
  revert pre run. induction s as [|c s IH]; intros pre run Hrun Hpre H.
  - cbn [sub_blank_eol]. by apply adjacent_blanks_lf.
  - cbn [sub_blank_eol]. destruct (is_blank c) eqn:Hc.
    + apply IH; [|done|done]. apply Forall_app. by split; [|constructor].
    + destruct (N.eqb_spec c c_lf) as [->|Hlf].
      * specialize (IH (pre ++ [c_lf]) []). rewrite <- !app_assoc in IH.
        apply IH; [constructor|by apply ends_nonblank_snoc|].
        apply adjacent_snoc_last; [done|]. intros p Hp. unfold blank_then_lf.
        by rewrite (Hpre p Hp).
      * specialize (IH ((pre ++ run) ++ [c]) []).
        rewrite <- !app_assoc in IH. apply IH; [constructor|..].
        -- rewrite app_assoc. by apply ends_nonblank_snoc.
        -- rewrite app_assoc. apply adjacent_snoc.
           ++ by apply adjacent_blanks_lf.
           ++ intros p. unfold blank_then_lf.
              rewrite (proj2 (N.eqb_neq c c_lf)) by done. apply andb_false_r.
Qed.

(** Text that is clean already is left as it is. *)
Lemma sub_multispace_id run s :
  (length run <= 1)%nat -> Forall (fun c => is_blank c = true) run ->
  adjacent two_blanks (run ++ s) = false ->
  sub_multispace run s = run ++ s.
Proof.
  revert run. induction s as [|c s IH]; intros run Hlen Hrun H.
  - cbn [sub_multispace]. rewrite app_nil_r. by apply flush_blanks_short.
  - cbn [sub_multispace]. destruct (is_blank c) eqn:Hc.
    + destruct run as [|a run].
      * apply (IH [c]); [simpl; lia|by repeat constructor|done].
      * exfalso. destruct run; [|simpl in Hlen; lia].
        apply Forall_cons in Hrun as [Ha _].
        change (adjacent two_blanks ([a] ++ c :: s))
          with (two_blanks a c || adjacent two_blanks (c :: s)) in H.
        unfold two_blanks in H at 1. by rewrite Ha, Hc in H.
    + rewrite flush_blanks_short by done. f_equal. f_equal.
      apply (IH []); [simpl; lia|constructor|].
      change (c :: s) with ([c] ++ s) in H. rewrite app_assoc in H.
      by apply adjacent_app_false in H as [_ ?].
Qed.

Lemma sub_blank_eol_id run s :
  Forall (fun c => is_blank c = true) run ->
  adjacent blank_then_lf (run ++ s) = false ->
  sub_blank_eol run s = run ++ s.
Proof.
  revert run. induction s as [|c s IH]; intros run Hrun H.
  - by rewrite app_nil_r.
  - cbn [sub_blank_eol]. destruct (is_blank c) eqn:Hc.
    + rewrite IH; [by rewrite <- app_assoc| |by rewrite <- app_assoc].
      apply Forall_app. by split; [|constructor].
    + assert (Hs : sub_blank_eol [] s = s).
      { apply (IH []); [constructor|].
        change (c :: s) with ([c] ++ s) in H. rewrite app_assoc in H.
        by apply adjacent_app_false in H as [_ ?]. }
      rewrite Hs. destruct (N.eqb_spec c c_lf) as [->|Hlf]; [|done].
      destruct run as [|a run _] using rev_ind; [done|]. exfalso.
      apply Forall_app in Hrun as [_ Ha]. apply Forall_cons in Ha as [Ha _].
      rewrite <- app_assoc in H. apply adjacent_app_false in H as [_ H].
      change (adjacent blank_then_lf ([a] ++ c_lf :: s))
        with (blank_then_lf a c_lf || adjacent blank_then_lf (c_lf :: s)) in H.
      unfold blank_then_lf in H at 1. by rewrite Ha in H.
Qed.

(** The passes add no character but the space. *)
Lemma sub_multispace_keeps_out (x : N) run s :
  x <> c_sp -> x ∉ run ++ s -> x ∉ sub_multispace run s.
Proof.
  intros Hx. revert run. induction s as [|c s IH]; intros run H.
  - rewrite app_nil_r in H. cbn [sub_multispace].
    destruct run as [|a [|b run]]; [done|done|]. cbn [flush_blanks].
    apply not_elem_of_cons; split; [done|apply not_elem_of_nil].
  - cbn [sub_multispace]. destruct (is_blank c).
    + apply IH. by rewrite <- app_assoc.
    + apply not_elem_of_app in H as [Hrun Hcs].
      apply not_elem_of_cons in Hcs as [Hc Hs].
      apply not_elem_of_app. split.
      * destruct run as [|a [|b run]]; [done|done|]. cbn [flush_blanks].
        apply not_elem_of_cons; split; [done|apply not_elem_of_nil].
      * apply not_elem_of_cons. split; [done|]. by apply (IH []).
Qed.

Lemma sub_blank_eol_keeps_out (x : N) run s :
  x ∉ run ++ s -> x ∉ sub_blank_eol run s.
Proof.
  revert run. induction s as [|c s IH]; intros run H.
  - by rewrite app_nil_r in H.
  - cbn [sub_blank_eol]. destruct (is_blank c).
    + apply IH. by rewrite <- app_assoc.
    + apply not_elem_of_app in H as [Hrun Hcs].
      apply not_elem_of_cons in Hcs as [Hc Hs].
      specialize (IH [] Hs).
      destruct (c =? c_lf).
      * by apply not_elem_of_cons.
      * apply not_elem_of_app. split; [done|]. by apply not_elem_of_cons.
Qed.

(** Text without an opening is passed over by a substitution. *)
Lemma sub_brackets_none (o c : N) (repl : list N -> result (list N)) s :
  adjacent (opens o) s = false -> sub_brackets o c repl 0 s = Ok s.
Proof.
  induction s as [|x s IH]; intros H; [done|].
  cbn [sub_brackets]. destruct s as [|b s]; [done|].
  change (adjacent (opens o) (x :: b :: s))
    with (opens o x b || adjacent (opens o) (b :: s)) in H.
  apply orb_false_iff in H as [Hxb Hs].
  unfold match_brackets. unfold opens in Hxb. rewrite Hxb.
  rewrite IH by done. done.
Qed.

Lemma cleanup_spec s :
  (c_bslash ∉ cleanup s)
  /\ adjacent two_blanks (cleanup s) = false
  /\ adjacent blank_then_lf (cleanup s) = false.
Proof.
  unfold cleanup. split; [by apply replace_removes|].
  split.
  - rewrite replace_adjacent.
    2:{ intros x y. unfold two_blanks, is_blank.
        do 2 case_decide; subst; done. }
    apply (sub_blank_eol_adjacent two_blanks) with (pre := []) (run := []).
    { intros p. unfold two_blanks. apply andb_false_r. }
    apply (sub_multispace_no_double [] []); [constructor| |done].
    intros p. done.
  - rewrite replace_adjacent.
    2:{ intros x y. unfold blank_then_lf, is_blank.
        do 2 case_decide; subst; done. }
    apply (sub_blank_eol_no_eol [] []); [constructor| |done].
    intros p. done.
Qed.

Lemma cleanup_id s :
  c_bslash ∉ s -> adjacent two_blanks s = false ->
  adjacent blank_then_lf s = false -> cleanup s = s.
Proof.
  intros Hb Ht Hl. unfold cleanup.
  rewrite (sub_multispace_id [] s); [|simpl; lia|constructor|done].
  cbn [app]. rewrite (sub_blank_eol_id [] s); [|constructor|done].
  by apply replace_notin.
Qed.

Lemma cleanup_idem s : cleanup (cleanup s) = cleanup s.
Proof. destruct (cleanup_spec s) as (? & ? & ?). by apply cleanup_id. Qed.

Lemma cleanup_keeps_out (x : N) s :
  x <> c_sp -> x <> c_slash -> x ∉ s -> x ∉ cleanup s.
Proof.
  intros Hsp Hsl Hs. unfold cleanup. apply replace_keeps_out; [|done].
  apply sub_blank_eol_keeps_out. by apply sub_multispace_keeps_out.
Qed.

Lemma cleanup_opens (o : N) s :
  o <> c_sp -> o <> c_lf -> o <> c_slash -> o <> c_bslash ->
  adjacent (opens o) s = false -> adjacent (opens o) (cleanup s) = false.
Proof.
  intros Hsp Hlf Hsl Hbs Hs. unfold cleanup.
  rewrite replace_adjacent.
  2:{ intros x y. unfold opens. do 2 case_decide; subst;
        rewrite ?(bool_decide_eq_false_2 (c_slash = o)),
                ?(bool_decide_eq_false_2 (c_bslash = o)) by done;
        by rewrite ?andb_false_r. }
  apply (sub_blank_eol_adjacent (opens o)) with (pre := []) (run := []).
  { intros p. unfold opens.
    rewrite (bool_decide_eq_false_2 (c_lf = o)) by done. apply andb_false_r. }
  apply (sub_multispace_adjacent (opens o) [] []); [| |done].
  - intros p. unfold opens.
    rewrite (bool_decide_eq_false_2 (c_sp = o)) by done. apply andb_false_r.
  - intros q. unfold opens.
    by rewrite (bool_decide_eq_false_2 (c_sp = o)) by done.
Qed.

Lemma normalize_newlines_opens (o : N) s :
  o <> c_lf -> o <> c_cr ->
  adjacent (opens o) s = false ->
  adjacent (opens o) (normalize_newlines s) = false.
Proof.
  intros Hlf Hcr Hs. unfold normalize_newlines.
  rewrite replace_adjacent.
  2:{ intros x y. unfold opens. do 2 case_decide; subst;
        rewrite ?(bool_decide_eq_false_2 (c_lf = o)),
                ?(bool_decide_eq_false_2 (c_cr = o)) by done;
        by rewrite ?andb_false_r. }
  apply (replace_crlf_adjacent (opens o)) with (pre := []); [|done].
  intros p. unfold opens.
  rewrite (bool_decide_eq_false_2 (c_lf = o)) by done. apply andb_false_r.
Qed.

Lemma convert_shape cwd text note pi mi out :
  convert_dokuwiki_to_markdown cwd text note pi mi = Ok out ->
  exists t, out = cleanup t.
Proof.
  unfold convert_dokuwiki_to_markdown. bind_ok.
  destruct (sub_brackets (ch "{") _ _ _ _) as [t1|e]; [|done]. bind_ok.
  destruct (sub_brackets (ch "[") _ _ _ _) as [t2|e]; [|done].
  intros [= <-]. by exists t2.
Qed.

Lemma convert_plain cwd text note pi mi :
  adjacent (opens (ch "{")) text = false ->
  adjacent (opens (ch "[")) text = false ->
  convert_dokuwiki_to_markdown cwd text note pi mi
  = Ok (cleanup (normalize_newlines text)).
Proof.
  intros Hc Hs. unfold convert_dokuwiki_to_markdown. bind_ok.
  rewrite sub_brackets_none by by apply normalize_newlines_opens. bind_ok.
  rewrite sub_brackets_none by by apply normalize_newlines_opens.
  done.
Qed.

End Cleanup.

(** X11.  A page without "{{" and without "[[" is converted by the
    cleanup alone: whatever the working directory, the note and the
    two indices, the result is the cleaned text, and converting that
    result again, as any note, returns it unchanged. *)
Theorem convert_plain_text (cwd cwd' text note note' : list N)
    (pi mi pi' mi' : gmap (list N) (list N)) :
  adjacent (opens (ch "{")) text = false ->
  adjacent (opens (ch "[")) text = false ->
  convert_dokuwiki_to_markdown cwd text note pi mi
  = Ok (cleanup (normalize_newlines text))
  /\ convert_dokuwiki_to_markdown cwd' (cleanup (normalize_newlines text))
       note' pi' mi'
     = Ok (cleanup (normalize_newlines text)).
Proof.
  intros Hc Hs. split; [by apply convert_plain|].
  rewrite convert_plain.
  - rewrite normalize_newlines_no_cr; [by rewrite cleanup_idem|].
    apply cleanup_keeps_out; [done|done|].
    unfold normalize_newlines. by apply replace_removes.
  - apply cleanup_opens; [done..|]. by apply normalize_newlines_opens.
  - apply cleanup_opens; [done..|]. by apply normalize_newlines_opens.
Qed.

Lemma convert_plain_text_witness :
  convert_dokuwiki_to_markdown (py "/home/u") (py "a  b \c [x]  ") (py "p.md")
    ∅ ∅
  = Ok (cleanup (normalize_newlines (py "a  b \c [x]  "))).
Proof.
  refine (proj1 (convert_plain_text (py "/home/u") [] (py "a  b \c [x]  ")
                   (py "p.md") [] ∅ ∅ ∅ ∅ _ _)); vm_compute; reflexivity.
Defined.

(** X12.  What [convert_dokuwiki_to_markdown] returns never has a
    backslash, two blanks in a row, or a blank at the end of a line. *)
Theorem convert_output_clean (cwd text note out : list N)
    (pi mi : gmap (list N) (list N)) :
  convert_dokuwiki_to_markdown cwd text note pi mi = Ok out ->
  (c_bslash ∉ out)
  /\ adjacent two_blanks out = false
  /\ adjacent blank_then_lf out = false.
Proof.
  intros H. apply convert_shape in H as [t ->]. apply cleanup_spec.
Qed.

Lemma convert_output_clean_witness :
  (c_bslash ∉ py "see [c](c.md) ")
  /\ adjacent two_blanks (py "see [c](c.md) ") = false
  /\ adjacent blank_then_lf (py "see [c](c.md) ") = false.
Proof.
  apply (convert_output_clean (py "/home/u") (py "see   [[c]]  ")
           (py "a/b/page.md") (py "see [c](c.md) ") ∅ ∅).
  vm_compute. reflexivity.
Defined.

(** X13.  The conversion does not depend on the style of the line ends:
    a page whose newlines are normalized first converts to the same
    result, or fails in the same way. *)
Theorem convert_newline_style (cwd text note : list N)
    (pi mi : gmap (list N) (list N)) :
  convert_dokuwiki_to_markdown cwd (normalize_newlines text) note pi mi
  = convert_dokuwiki_to_markdown cwd text note pi mi.
Proof.
  unfold convert_dokuwiki_to_markdown. by rewrite normalize_newlines_idem.
Qed.

Section Absolute.

Implicit Types (s t run raw cur : list N).

Lemma unquote_run_colon run :
  exists r, Urllib.unquote_run (c_colon :: run) = c_colon :: r.
Proof.
  unfold Urllib.unquote_run, Urllib.unquote_to_bytes.
  cbn [Str.split]. rewrite decide_False by done.
  rewrite (split_cons_shape c_pct run). cbn [hd tl app].
  by eexists.
Qed.

Lemma unquote_parts_colon run s :
  exists r, Urllib.unquote_parts (c_colon :: run) s = c_colon :: r.
Proof.
  revert run. induction s as [|c s IH]; intros run.
  - apply unquote_run_colon.
  - cbn [Urllib.unquote_parts]. destruct (c <? 128).
    + apply (IH (run ++ [c])).
    + destruct (unquote_run_colon run) as [r ->]. by eexists.
Qed.

Lemma unquote_colon s : exists r, Urllib.unquote (c_colon :: s) = c_colon :: r.
Proof.
  unfold Urllib.unquote. case_decide; [|by eexists].
  cbn [Urllib.unquote_parts].
  change (c_colon <? 128) with true. cbn iota. apply unquote_parts_colon.
Qed.

Lemma strip_query_colon s :
  exists r, strip_query (c_colon :: s) = Ok (c_colon :: r).
Proof.
  rewrite strip_query_form. cbn [before_any from_first].
  rewrite decide_False by (by vm_compute; intros H; inversion H as [|? ? ? H1];
    subst; inversion H1 as [|? ? ? H2]; subst; inversion H2).
  rewrite decide_False by done. by eexists.
Qed.

Lemma split_anchor_colon s :
  exists t a, split_anchor (c_colon :: s) = Ok (c_colon :: t, a).
Proof.
  unfold split_anchor. case_decide as Hh; [|by eexists _, _].
  destruct (elem_of_first _ _ Hh) as (p & r & Heq & Hp).
  rewrite Heq. rewrite split1_unpack2 by done. bind_ok.
  destruct p as [|c p]; [discriminate Heq|].
  injection Heq as <- _. by eexists _, _.
Qed.

(** A target that starts with ":" is resolved without the current id. *)
Lemma resolve_page_id_absolute raw :
  Str.startswith [c_colon] (Str.strip raw) = true ->
  exists r, forall cur, resolve_page_id raw cur = Ok r.
Proof.
  intros H. unfold resolve_page_id.
  destruct (Str.strip raw) as [|c t0]; [done|].
  cbn [Str.startswith] in H. apply andb_true_iff in H as [H _].
  apply bool_decide_eq_true in H. subst c.
  destruct (unquote_colon t0) as [u ->].
  destruct (strip_query_colon u) as [q ->]. bind_ok.
  destruct (split_anchor_colon q) as (t & a & ->). bind_ok.
  eexists. intros cur.
  rewrite decide_False by done.
  cbn [Str.startswith]. rewrite (bool_decide_eq_true_2 (c_colon = c_colon)) by done.
  cbn [andb]. rewrite orb_true_r. bind_ok.
  reflexivity.
Qed.

End Absolute.

(** X14.  A page target that starts with ":" is absolute: how it is
    resolved does not depend on the page that holds the link. *)
Theorem absolute_target_ignores_page (raw cur cur' : list N)
    (page_index : gmap (list N) (list N)) :
  Str.startswith [c_colon] (Str.strip raw) = true ->
  resolve_page_target raw cur page_index
  = resolve_page_target raw cur' page_index.
Proof.
  intros H. destruct (resolve_page_id_absolute raw H) as [r Hr].
  unfold resolve_page_target. by rewrite !Hr.
Qed.

Lemma absolute_target_ignores_page_witness :
  resolve_page_target (py " :wiki:syntax#top") (py "a:b:page") ∅
  = resolve_page_target (py " :wiki:syntax#top") (py "x") ∅.
Proof.
  apply absolute_target_ignores_page. vm_compute. reflexivity.
Defined.

Section PageIndex.

Implicit Types (idx : gmap (list N) (list N))
  (pages : list (list (list N) * option (list N))).

Lemma index_page_spec idx idx' src :
  index_page idx src = Ok idx' ->
  exists noext,
    PathOps.with_suffix src.1 [] = Ok noext
    /\ idx' = <[c_colon :: Str.replace c_slash c_colon
                              (to_posix (PathOps.to_str noext))
               := to_posix (PathOps.to_str noext) ++ py ".md"]>
               (<[Str.replace c_slash c_colon (to_posix (PathOps.to_str noext))
                  := to_posix (PathOps.to_str noext) ++ py ".md"]> idx).
Proof.
  unfold index_page.
  destruct (PathOps.with_suffix src.1 []) as [noext|e]; [|done]. bind_ok.
  intros [= <-]. by exists noext.
Qed.

Lemma build_page_index_keeps idx idx' pages k :
  build_page_index_from idx pages = Ok idx' ->
  is_Some (idx !! k) -> is_Some (idx' !! k).
Proof.
  revert idx. induction pages as [|src pages IH]; intros idx.
  - by intros [= <-].
  - cbn [build_page_index_from].
    destruct (index_page idx src) as [idx1|e] eqn:H1; [|done]. bind_ok.
    intros H Hk. apply (IH _ H).
    apply index_page_spec in H1 as (noext & _ & ->).
    rewrite !lookup_insert_is_Some'. tauto.
Qed.

Lemma build_page_index_spec idx idx' pages :
  build_page_index_from idx pages = Ok idx' ->
  (forall src, src ∈ pages ->
     exists noext,
       PathOps.with_suffix src.1 [] = Ok noext
       /\ is_Some (idx' !! Str.replace c_slash c_colon
                             (to_posix (PathOps.to_str noext)))
       /\ is_Some (idx' !! (c_colon :: Str.replace c_slash c_colon
                                         (to_posix (PathOps.to_str noext)))))
  /\ (forall k v, idx' !! k = Some v ->
        idx !! k = Some v
        \/ exists src noext,
             src ∈ pages
             /\ PathOps.with_suffix src.1 [] = Ok noext
             /\ (k = Str.replace c_slash c_colon
                       (to_posix (PathOps.to_str noext))
                 \/ k = c_colon :: Str.replace c_slash c_colon
                                     (to_posix (PathOps.to_str noext)))
             /\ v = to_posix (PathOps.to_str noext) ++ py ".md").
Proof.
  revert idx. induction pages as [|src pages IH]; intros idx.
  - intros [= <-]. split; [|by left]. intros src H. by apply elem_of_nil in H.
  - cbn [build_page_index_from].
    destruct (index_page idx src) as [idx1|e] eqn:H1; [|done]. bind_ok.
    intros H. destruct (IH _ H) as [Hall Hback].
    apply index_page_spec in H1 as (noext & Hno & ->).
    split.
    + intros src' Hin. apply elem_of_cons in Hin as [->|Hin].
      * exists noext. split; [done|].
        split; apply (build_page_index_keeps _ _ _ _ H);
          rewrite !lookup_insert_is_Some'; tauto.
      * by apply Hall.
    + intros k v Hkv. destruct (Hback k v Hkv) as [Hold|Hnew].
      * apply lookup_insert_Some in Hold as [[<- <-]|[Hne Hold]].
        { right. exists src, noext. split; [by left|]. split; [done|].
          split; [by right|done]. }
        apply lookup_insert_Some in Hold as [[<- <-]|[Hne' Hold]].
        { right. exists src, noext. split; [by left|]. split; [done|].
          split; [by left|done]. }
        by left.
      * right. destruct Hnew as (src' & noext' & Hin & Hrest).
        exists src', noext'. split; [by right|done].
Qed.

End PageIndex.

(** X15.  The page index that [build_page_index] returns has, for every
    page, its id and its id after a ":" as keys; and every entry of the
    index is one of these two keys of some page, with the note path of
    that page, which ends in ".md", as its value. *)
Theorem page_index_entries
    (pages : list (list (list N) * option (list N)))
    (idx : gmap (list N) (list N)) :
  build_page_index pages = Ok idx ->
  (forall src, src ∈ pages ->
     exists noext,
       PathOps.with_suffix src.1 [] = Ok noext
       /\ is_Some (idx !! Str.replace c_slash c_colon
                            (to_posix (PathOps.to_str noext)))
       /\ is_Some (idx !! (c_colon :: Str.replace c_slash c_colon
                                        (to_posix (PathOps.to_str noext)))))
  /\ (forall k v, idx !! k = Some v ->
        exists src noext,
          src ∈ pages
          /\ PathOps.with_suffix src.1 [] = Ok noext
          /\ (k = Str.replace c_slash c_colon
                    (to_posix (PathOps.to_str noext))
              \/ k = c_colon :: Str.replace c_slash c_colon
                                  (to_posix (PathOps.to_str noext)))
          /\ v = to_posix (PathOps.to_str noext) ++ py ".md").
Proof.
  intros H. apply build_page_index_spec in H as [Hall Hback].
  split; [done|]. intros k v Hkv.
  destruct (Hback k v Hkv) as [Hold|Hnew]; [|done].
  by rewrite lookup_empty in Hold.
Qed.

Lemma page_index_entries_witness :
  exists noext,
    PathOps.with_suffix [py "a"; py "b"; py "c.txt"] [] = Ok noext
    /\ is_Some (registered (build_page_index two_pages)
                  (Str.replace c_slash c_colon
                     (to_posix (PathOps.to_str noext))))
    /\ is_Some (registered (build_page_index two_pages)
                  (c_colon :: Str.replace c_slash c_colon
                                (to_posix (PathOps.to_str noext)))).
Proof.
  destruct (build_page_index two_pages) as [idx|e] eqn:Hrun;
    [|vm_compute in Hrun; discriminate Hrun].
  refine (proj1 (page_index_entries two_pages idx Hrun)
            ([py "a"; py "b"; py "c.txt"], Some (py "text")) _).
  unfold two_pages. right. left.
Defined.

Section MigrateSpec.

Variable sha256 : list N -> list N.
Variable cwd : list N.
Implicit Types (fs : gmap (list (list N)) node) (dst : list (list N))
  (pi mi : gmap (list N) (list N))
  (pages pre post : list (list (list N) * option (list N))).

(** A write that succeeds turns no directory into a file. *)
Lemma write_text_keeps_dir dst text fs fs1 p :
  write_text_if_changed dst text fs = (fs1, Ok tt) ->
  fs !! p = Some Dir -> fs1 !! p = Some Dir.
Proof.
  intros H Hp. destruct (decide (p = dst)) as [->|Hne].
  2:{ apply write_text_spec in H as (_ & _ & Hk). by apply Hk. }
  exfalso. revert H.
  unfold write_text_if_changed, mbind, io_bind, get_tree.
  rewrite Hp.
  destruct (safe_mkdir (Fs.parent dst) fs) as [fsm [[]|e]] eqn:Hm; [|done].
  assert (Hd : Fs.is_dir fsm dst = true).
  { unfold Fs.is_dir.
    rewrite (bool_decide_eq_true_2 (fsm !! dst = Some Dir));
      [apply orb_true_r|].
    eapply lookup_weaken; [exact Hp|]. by eapply mkdirs_subseteq. }
  by rewrite Hd.
Qed.

Lemma migrate_page_spec pi mi src fs fs' :
  migrate_page cwd pi mi src fs = (fs', Ok tt) ->
  exists md bytes text data,
    note_path src.1 = Ok md
    /\ src.2 = Some bytes
    /\ convert_dokuwiki_to_markdown cwd (read_text_bytes bytes)
         (to_posix (PathOps.to_str md)) pi mi = Ok text
    /\ fs' !! (out_notes ++ md) = Some (File data)
    /\ read_text_bytes data = normalize_newlines text
    /\ (forall p n, p <> out_notes ++ md -> fs !! p = Some n ->
          fs' !! p = Some n)
    /\ (forall p, fs !! p = Some Dir -> fs' !! p = Some Dir).
Proof.
  unfold migrate_page, note_path, lift, mbind at 1 2 3 4, io_bind.
  destruct (PathOps.with_suffix src.1 []) as [noext|e]; [|done]. bind_ok.
  destruct (PathOps.with_suffix noext (py ".md")) as [md|e]; [|done].
  destruct src.2 as [bytes|]; [|done].
  destruct (convert_dokuwiki_to_markdown _ _ _ _ _) as [text|e] eqn:Hc;
    [|done].
  intros H. pose proof (fun p => write_text_keeps_dir _ _ _ _ p H) as Hdir.
  apply write_text_spec in H as (_ & (data & Hl & Hr) & Hk).
  exists md, bytes, text, data. repeat (split; [done|]).
  intros p. apply Hdir.
Qed.

(** The loop leaves alone every path that is no note of its pages. *)
Lemma migrate_pages_frame pi mi pages fs fs' p n :
  migrate_pages cwd pi mi pages fs = (fs', Ok tt) ->
  (forall src md, src ∈ pages -> note_path src.1 = Ok md ->
     p <> out_notes ++ md) ->
  fs !! p = Some n -> fs' !! p = Some n.
Proof.
  revert fs. induction pages as [|src pages IH]; intros fs.
  - by intros [= <-].
  - cbn [migrate_pages]. unfold mbind, io_bind.
    destruct (migrate_page cwd pi mi src fs) as [fs1 [[]|e]] eqn:H1; [|done].
    intros H Hp Hl. apply (IH _ H).
    + intros src' md Hin. apply Hp. by right.
    + apply migrate_page_spec in H1
        as (md & bytes & text & data & Hn & _ & _ & _ & _ & Hk & _).
      apply Hk; [|done]. apply (Hp src); [by left|done].
Qed.

Lemma migrate_pages_kinds pi mi pages fs fs' :
  migrate_pages cwd pi mi pages fs = (fs', Ok tt) ->
  (forall p, fs !! p = Some Dir -> fs' !! p = Some Dir)
  /\ (forall p d, fs !! p = Some (File d) ->
        exists d', fs' !! p = Some (File d')).
Proof.
  revert fs. induction pages as [|src pages IH]; intros fs.
  - intros [= <-]. split; [done|]. intros p d ?. by exists d.
  - cbn [migrate_pages]. unfold mbind, io_bind.
    destruct (migrate_page cwd pi mi src fs) as [fs1 [[]|e]] eqn:H1; [|done].
    intros H. destruct (IH _ H) as [Hd Hf].
    apply migrate_page_spec in H1
      as (md & bytes & text & data & _ & _ & _ & Hl & _ & Hk & Hdir).
    split.
    + intros p Hp. by apply Hd, Hdir.
    + intros p d Hp. destruct (decide (p = out_notes ++ md)) as [->|Hne].
      * by apply (Hf _ data).
      * apply (Hf p d). by apply Hk.
Qed.

Lemma migrate_pages_spec pi mi pages fs fs' :
  migrate_pages cwd pi mi pages fs = (fs', Ok tt) ->
  forall pre src post, pages = pre ++ src :: post ->
    exists md bytes text data,
      note_path src.1 = Ok md
      /\ src.2 = Some bytes
      /\ convert_dokuwiki_to_markdown cwd (read_text_bytes bytes)
           (to_posix (PathOps.to_str md)) pi mi = Ok text
      /\ fs' !! (out_notes ++ md) = Some (File data)
      /\ ((forall src', src' ∈ post -> note_path src'.1 <> Ok md) ->
          read_text_bytes data = normalize_newlines text).
Proof.
  intros H pre src post ->. rewrite migrate_pages_app in H.
  destruct (migrate_pages cwd pi mi pre fs) as [fs0 [[]|e]]; [|done].
  cbn [migrate_pages] in H. unfold mbind, io_bind in H.
  destruct (migrate_page cwd pi mi src fs0) as [fs1 [[]|e]] eqn:H1; [|done].
  apply migrate_page_spec in H1
    as (md & bytes & text & data & Hn & Hb & Hc & Hl & Hr & _ & _).
  exists md, bytes, text. 
  destruct (migrate_pages_kinds _ _ _ _ _ H) as [_ Hf].
  destruct (Hf _ _ Hl) as [d' Hd'].
  exists d'. repeat (split; [done|]).
  intros Hpost.
  assert (Hsame : fs' !! (out_notes ++ md) = Some (File data)).
  { eapply migrate_pages_frame; [exact H| |exact Hl].
    intros src' md' Hin Hn' Heq. apply app_inv_head in Heq. subst md'.
    by apply (Hpost src'). }
  rewrite Hsame in Hd'. by injection Hd' as <-.
Qed.

Lemma is_dir_weaken fs fs' p :
  (forall q, fs !! q = Some Dir -> fs' !! q = Some Dir) ->
  Fs.is_dir fs p = true -> Fs.is_dir fs' p = true.
Proof.
  intros Hk. unfold Fs.is_dir. intros H. apply orb_true_iff in H as [H|H].
  - by rewrite H.
  - apply bool_decide_eq_true in H.
    by rewrite (bool_decide_eq_true_2 _ (Hk _ H)), orb_true_r.
Qed.

Lemma migrate_spec pages media fs fs' :
  migrate sha256 cwd pages media fs = (fs', Ok tt) ->
  Fs.is_dir fs' out_notes = true
  /\ Fs.is_dir fs' out_media = true
  /\ exists pi mi fsm,
       build_page_index pages = Ok pi
       /\ build_media_index_and_copy sha256 media
            (safe_mkdir out_media (safe_mkdir out_notes fs).1).1
          = (fsm, Ok mi)
       /\ forall pre src post, pages = pre ++ src :: post ->
            exists md bytes text data,
              note_path src.1 = Ok md
              /\ src.2 = Some bytes
              /\ convert_dokuwiki_to_markdown cwd (read_text_bytes bytes)
                   (to_posix (PathOps.to_str md)) pi mi = Ok text
              /\ fs' !! (out_notes ++ md) = Some (File data)
              /\ ((forall src', src' ∈ post -> note_path src'.1 <> Ok md) ->
                  read_text_bytes data = normalize_newlines text).
Proof.
  unfold migrate, mbind at 1 2 3 4, io_bind, lift.
  destruct (safe_mkdir out_notes fs) as [fs1 [[]|e]] eqn:Hn; [|done].
  cbn [fst].
  destruct (safe_mkdir out_media fs1) as [fs2 [[]|e]] eqn:Hm; [|done].
  cbn [fst].
  destruct (build_page_index pages) as [pi|e]; [|done].
  destruct (build_media_index_and_copy sha256 media fs2) as [fs3 [mi|e]]
    eqn:Hb; [|done].
  intros H.
  destruct (migrate_pages_kinds _ _ _ _ _ H) as [Hd _].
  pose proof (build_media_size sha256 _ _ _ _ _ Hb) as [Hsub _].
  unfold safe_mkdir in Hn, Hm.
  assert (Hk : forall q, fs1 !! q = Some Dir -> fs' !! q = Some Dir).
  { intros q Hq. apply Hd. eapply lookup_weaken; [|exact Hsub].
    eapply lookup_weaken; [exact Hq|]. by eapply mkdirs_subseteq. }
  assert (Hk2 : forall q, fs2 !! q = Some Dir -> fs' !! q = Some Dir).
  { intros q Hq. apply Hd. by eapply lookup_weaken. }
  split.
  { apply (is_dir_weaken fs1); [done|].
    apply all_dirs_is_dir. by eapply mkdirs_all_dirs. }
  split.
  { apply (is_dir_weaken fs2); [done|].
    apply all_dirs_is_dir. by eapply mkdirs_all_dirs. }
  exists pi, mi, fs3. split; [done|]. split; [done|].
  by apply (migrate_pages_spec _ _ _ _ _ H).
Qed.

End MigrateSpec.



Section NotePath.

Implicit Types (rel noext md l : list (list N)) (x : list N).

Lemma join_last l :
  exists pfx, forall x, Str.join [c_slash] (l ++ [x]) = pfx ++ x.
Proof.
  induction l as [|c l [pfx IH]]; [by exists []|].
  exists (c ++ [c_slash] ++ pfx). intros x.
  specialize (IH x). destruct l as [|d l].
  - rewrite <- !app_assoc, <- IH. done.
  - change (Str.join [c_slash] ((c :: d :: l) ++ [x]))
      with (c ++ [c_slash] ++ Str.join [c_slash] ((d :: l) ++ [x])).
    rewrite IH. by rewrite <- !app_assoc.
Qed.

Lemma to_str_last l :
  exists pfx, forall x, PathOps.to_str (l ++ [x]) = pfx ++ x.
Proof.
  destruct (join_last l) as [pfx H]. exists pfx. intros x.
  unfold PathOps.to_str. rewrite decide_False; [done|].
  by destruct l.
Qed.

Lemma named_last l :
  Pathlib.name_of l <> [] -> l = removelast l ++ [Pathlib.name_of l].
Proof.
  unfold Pathlib.name_of. intros H.
  destruct l as [|c l _] using rev_ind; [done|].
  by rewrite removelast_last, last_snoc.
Qed.

Lemma with_suffix_ok rel suffix q :
  PathOps.with_suffix rel suffix = Ok q -> Pathlib.name_of rel <> [].
Proof.
  unfold PathOps.with_suffix. destruct (_ || _); [done|].
  by case_decide.
Qed.

Lemma to_posix_length x : length (to_posix x) = length x.
Proof. unfold to_posix, Str.replace. apply length_fmap. Qed.

End NotePath.

(** X17.  Where the index and the writer agree.  The page index gives a
    page the path of its name without the suffix, followed by ".md";
    [migrate] writes the note where with_suffix(".md") points.  The two
    are the same path exactly when the name of the page, its suffix
    taken off, has no suffix left: the note of "v1.2.txt" is indexed as
    "v1.2.md" and written to "v1.md". *)
Theorem note_path_matches_index (rel noext : list (list N)) :
  PathOps.with_suffix rel [] = Ok noext ->
  exists md,
    note_path rel = Ok md
    /\ (to_posix (PathOps.to_str md)
        = to_posix (PathOps.to_str noext) ++ py ".md"
        <-> Pathlib.suffix_of noext = []).
Proof.
  intros H. unfold note_path. rewrite H. bind_ok.
  pose proof (with_suffix_ok _ _ _ H) as Hn.
  destruct (with_suffix_named rel [] eq_refl Hn) as (q & Hq & Hname).
  rewrite H in Hq. injection Hq as <-.
  unfold PathOps.with_suffix.
  change (bool_decide (c_slash ∈ py ".md")
          || bool_decide (py ".md" <> [])
             && negb (Str.startswith [c_dot] (py ".md"))
          || bool_decide (py ".md" = [c_dot])) with false.
  cbn iota. rewrite decide_False by done.
  eexists. split; [done|].
  destruct (to_str_last (removelast noext)) as [pfx Hpfx].
  assert (Hto : PathOps.to_str noext = pfx ++ Pathlib.name_of noext).
  { rewrite <- Hpfx. by rewrite <- named_last. }
  rewrite Hpfx, Hto.
  rewrite !to_posix_app.
  case_decide as Hs.
  - split; [done|]. intros _.
    rewrite (to_posix_app (Pathlib.name_of noext)).
    change (to_posix (py ".md")) with (py ".md"). by rewrite <- app_assoc.
  - split; [|done]. intros Heq. exfalso.
    rewrite <- app_assoc in Heq. apply app_inv_head in Heq.
    apply (f_equal length) in Heq.
    rewrite ?length_app, ?to_posix_length, ?length_app, length_take in Heq.
    change (length (py ".md")) with 3%nat in Heq.
    assert (0 < length (Pathlib.suffix_of noext))%nat
      by (destruct (Pathlib.suffix_of noext); [done|simpl; lia]).
    assert (0 < length (Pathlib.name_of noext))%nat
      by (destruct (Pathlib.name_of noext); [done|simpl; lia]).
    lia.
Qed.

Lemma note_path_matches_index_witness :
  exists md,
    note_path [py "a"; py "v1.2.txt"] = Ok md
    /\ (to_posix (PathOps.to_str md)
        = to_posix (PathOps.to_str [py "a"; py "v1.2"]) ++ py ".md"
        <-> Pathlib.suffix_of [py "a"; py "v1.2"] = []).
Proof.
  apply (note_path_matches_index [py "a"; py "v1.2.txt"] [py "a"; py "v1.2"]).
  vm_compute. reflexivity.
Defined.

Section External.

Implicit Types (g target title cwd dir id : list N)
  (pi mi : gmap (list N) (list N)).

Lemma is_external_nonempty g : is_external g = true -> g <> [].
Proof. by intros H ->. Qed.

Lemma repl_link_external cwd dir id pi mi g :
  Str.strip g = g -> c_pipe ∉ g -> is_external g = true ->
  repl_link cwd dir id pi mi g = Ok (py "[" ++ g ++ py "](" ++ g ++ py ")").
Proof.
  intros Hs Hp He. unfold repl_link. cbv zeta. rewrite !Hs.
  rewrite (decide_False (P := c_pipe ∈ g)) by done. bind_ok.
  rewrite (decide_False (P := g = [])) by by apply is_external_nonempty.
  rewrite He. by rewrite (decide_True (P := @nil N = [])).
Qed.

Lemma repl_link_external_titled cwd dir id pi mi target title :
  Str.strip (target ++ c_pipe :: title) = target ++ c_pipe :: title ->
  Str.strip target = target -> Str.strip title = title ->
  c_pipe ∉ target -> title <> [] -> is_external target = true ->
  repl_link cwd dir id pi mi (target ++ c_pipe :: title)
  = Ok (py "[" ++ title ++ py "](" ++ target ++ py ")").
Proof.
  intros Hs Ht Hl Hp Hne He. unfold repl_link. cbv zeta. rewrite Hs.
  rewrite (decide_True (P := c_pipe ∈ target ++ c_pipe :: title)).
  2:{ apply elem_of_app. right. by left. }
  rewrite split1_unpack2 by done. bind_ok. rewrite Ht, Hl.
  rewrite (decide_False (P := target = [])) by by apply is_external_nonempty.
  rewrite He. by rewrite (decide_False (P := title = [])).
Qed.

Lemma repl_media_external cwd dir mi g :
  Str.strip g = g -> c_pipe ∉ g -> is_external g = true ->
  repl_media cwd dir mi g = Ok g.
Proof.
  intros Hs Hp He. unfold repl_media. cbv zeta. rewrite Hs.
  unfold Str.split1. rewrite break_notin by done.
  cbn [Str.index0]. bind_ok. rewrite Hs.
  rewrite (decide_False (P := g = [])) by by apply is_external_nonempty.
  by rewrite He.
Qed.

End External.

Section ExternalPage.

Implicit Types (g u s post cwd note : list N)
  (pi mi : gmap (list N) (list N)).

(** Membership in a text put together from known parts. *)
Ltac peel Hin :=
  repeat first
    [ apply elem_of_cons in Hin as [Hin|Hin]; [done|]
    | apply elem_of_app in Hin as [Hin|Hin]; [done|] ];
  by apply elem_of_nil in Hin.

Lemma adjacent_join (P : N -> N -> bool) (l r : list N) (x : N) :
  (forall p, P p x = false) -> (forall q, P x q = false) ->
  adjacent P l = false -> adjacent P r = false ->
  adjacent P (l ++ x :: r) = false.
Proof.
  intros Hl Hr Hal Har. rewrite adjacent_app. apply orb_false_iff. split.
  - by apply adjacent_snoc.
  - destruct r as [|q r]; [done|].
    change (adjacent P (x :: q :: r)) with (P x q || adjacent P (q :: r)).
    by rewrite Hr.
Qed.

(** A reference that is all of the text from its opening on. *)
Lemma match_brackets_whole (o c : N) u post :
  u <> [] -> c ∉ u ->
  match_brackets o c (o :: o :: u ++ c :: c :: post) = Some u.
Proof.
  intros Hne Hc. unfold match_brackets.
  rewrite !bool_decide_eq_true_2 by done. cbn [andb].
  rewrite break_app by done.
  rewrite (bool_decide_eq_true_2 (u <> [])) by done.
  cbn [andb Str.startswith]. by rewrite bool_decide_eq_true_2.
Qed.

Lemma sub_brackets_skipped (o c : N) (repl : list N -> result (list N))
    (n : nat) s :
  (length s <= n)%nat -> sub_brackets o c repl n s = Ok [].
Proof.
  revert n. induction s as [|x s IH]; intros n Hn; [done|].
  cbn [sub_brackets]. destruct n as [|k]; [simpl in Hn; lia|].
  apply IH. simpl in Hn. lia.
Qed.

Lemma sub_brackets_single (o c : N) (repl : list N -> result (list N)) u :
  u <> [] -> c ∉ u ->
  sub_brackets o c repl 0 (o :: o :: u ++ [c; c])
  = r ← repl u; Ok (r ++ []).
Proof.
  intros Hne Hc.
  change (sub_brackets o c repl 0 (o :: o :: u ++ [c; c]))
    with (match match_brackets o c (o :: o :: u ++ [c; c]) with
          | Some g =>
              r ← repl g;
              rest ← sub_brackets o c repl (length g + 3) (o :: u ++ [c; c]);
              Ok (r ++ rest)
          | None =>
              rest ← sub_brackets o c repl 0 (o :: u ++ [c; c]);
              Ok (o :: rest)
          end).
  rewrite (match_brackets_whole o c u []) by done.
  rewrite sub_brackets_skipped; [done|].
  simpl. rewrite length_app. simpl. lia.
Qed.

Lemma wrapped_opens (o a b : N) u :
  a <> o -> b <> o -> adjacent (opens o) u = false ->
  adjacent (opens o) (a :: a :: u ++ [b; b]) = false.
Proof.
  intros Ha Hb Hu.
  assert (Hl : forall x p, x <> o -> opens o p x = false).
  { intros x p Hx. unfold opens.
    rewrite (bool_decide_eq_false_2 (x = o)) by done. apply andb_false_r. }
  assert (Hr : forall x q, x <> o -> opens o x q = false).
  { intros x q Hx. unfold opens.
    by rewrite (bool_decide_eq_false_2 (x = o)) by done. }
  apply (adjacent_join _ [] (a :: u ++ [b; b])); [intros ?; by apply Hl|intros ?; by apply Hr|done|].
  apply (adjacent_join _ [] (u ++ [b; b])); [intros ?; by apply Hl|intros ?; by apply Hr|done|].
  apply (adjacent_join _ u [b]); [intros ?; by apply Hl|intros ?; by apply Hr|done|done].
Qed.

(** The rendered link is left alone by the cleanup when the URL is. *)
Lemma cleanup_rendered_link u :
  c_bslash ∉ u -> adjacent two_blanks u = false ->
  adjacent blank_then_lf u = false ->
  cleanup (py "[" ++ u ++ py "](" ++ u ++ py ")")
  = py "[" ++ u ++ py "](" ++ u ++ py ")".
Proof.
  intros Hb Ht Hl.
  change (py "[" ++ u ++ py "](" ++ u ++ py ")")
    with ([] ++ 91 :: (u ++ 93 :: ([] ++ 40 :: (u ++ 41 :: [])))).
  assert (Hd : forall x : N, is_blank x = false -> x <> c_lf ->
            (forall p, two_blanks p x = false)
            /\ (forall q, two_blanks x q = false)
            /\ (forall p, blank_then_lf p x = false)
            /\ (forall q, blank_then_lf x q = false)).
  { intros x Hx Hlf. unfold two_blanks, blank_then_lf. rewrite Hx.
    rewrite (proj2 (N.eqb_neq x c_lf)) by done.
    repeat split; intros; by rewrite ?andb_false_r. }
  destruct (Hd 91 eq_refl ltac:(done)) as (A1 & A2 & A3 & A4).
  destruct (Hd 93 eq_refl ltac:(done)) as (B1 & B2 & B3 & B4).
  destruct (Hd 40 eq_refl ltac:(done)) as (C1 & C2 & C3 & C4).
  destruct (Hd 41 eq_refl ltac:(done)) as (D1 & D2 & D3 & D4).
  apply cleanup_id.
  - cbn [app]. intros Hin. peel Hin.
  - repeat (apply adjacent_join; try done).
  - repeat (apply adjacent_join; try done).
Qed.

Lemma convert_external_link cwd note pi mi u :
  Str.strip u = u -> c_pipe ∉ u -> is_external u = true ->
  ch "]" ∉ u -> c_cr ∉ u -> c_bslash ∉ u ->
  adjacent two_blanks u = false -> adjacent blank_then_lf u = false ->
  adjacent (opens (ch "{")) u = false ->
  convert_dokuwiki_to_markdown cwd (py "[[" ++ u ++ py "]]") note pi mi
  = Ok (py "[" ++ u ++ py "](" ++ u ++ py ")").
Proof.
  intros Hs Hp He Hc Hcr Hb Ht Hl Ho.
  unfold convert_dokuwiki_to_markdown. cbv zeta.
  change (py "[[" ++ u ++ py "]]") with (91 :: 91 :: u ++ [93; 93]).
  rewrite normalize_newlines_no_cr.
  2:{ intros Hin. peel Hin. }
  rewrite sub_brackets_none by (by apply wrapped_opens).
  bind_ok.
  rewrite (sub_brackets_single (ch "[") (ch "]"))
    by (done || by apply is_external_nonempty).
  rewrite repl_link_external by done. bind_ok. rewrite app_nil_r.
  f_equal. by apply cleanup_rendered_link.
Qed.

Lemma convert_external_media cwd note pi mi u :
  Str.strip u = u -> c_pipe ∉ u -> is_external u = true ->
  ch "}" ∉ u -> c_cr ∉ u -> c_bslash ∉ u ->
  adjacent two_blanks u = false -> adjacent blank_then_lf u = false ->
  adjacent (opens (ch "[")) u = false ->
  convert_dokuwiki_to_markdown cwd (py "{{" ++ u ++ py "}}") note pi mi
  = Ok u.
Proof.
  intros Hs Hp He Hc Hcr Hb Ht Hl Ho.
  unfold convert_dokuwiki_to_markdown. cbv zeta.
  change (py "{{" ++ u ++ py "}}") with (123 :: 123 :: u ++ [125; 125]).
  rewrite normalize_newlines_no_cr.
  2:{ intros Hin. peel Hin. }
  rewrite (sub_brackets_single (ch "{") (ch "}"))
    by (done || by apply is_external_nonempty).
  rewrite repl_media_external by done. bind_ok. rewrite app_nil_r.
  rewrite sub_brackets_none by done. bind_ok.
  f_equal. by apply cleanup_id.
Qed.

End ExternalPage.

(** X18.  A reference to an http, https or ftp URL is not resolved,
    decoded or looked up.  For a group that is such a URL, with no white
    space at its ends and no "|", [repl_link] returns the link with the
    URL as it is written, query string and escapes included, under the
    URL or under the title, and [repl_media] returns the URL alone,
    whatever the note, the working directory and the indices.  A page
    that is such a link or embedding and nothing else converts to just
    that, when the URL has nothing the other passes act on: no carriage
    return, no backslash, no two blanks in a row, no blank before a
    newline, no closing bracket of the reference and no opening of the
    other kind of reference.  Where the URL has one of these the passes
    still apply: a backslash becomes a slash, blanks are squeezed, and a
    link inside an embedded URL is rendered. *)
Theorem external_url_kept (cwd dir id url title note : list N)
    (pi mi : gmap (list N) (list N)) :
  Str.strip url = url -> c_pipe ∉ url -> is_external url = true ->
  repl_link cwd dir id pi mi url
  = Ok (py "[" ++ url ++ py "](" ++ url ++ py ")")
  /\ repl_media cwd dir mi url = Ok url
  /\ (Str.strip title = title -> title <> [] ->
      Str.strip (url ++ c_pipe :: title) = url ++ c_pipe :: title ->
      repl_link cwd dir id pi mi (url ++ c_pipe :: title)
      = Ok (py "[" ++ title ++ py "](" ++ url ++ py ")"))
  /\ (c_cr ∉ url -> c_bslash ∉ url ->
      adjacent two_blanks url = false ->
      adjacent blank_then_lf url = false ->
      (ch "]" ∉ url -> adjacent (opens (ch "{")) url = false ->
       convert_dokuwiki_to_markdown cwd (py "[[" ++ url ++ py "]]") note
         pi mi
       = Ok (py "[" ++ url ++ py "](" ++ url ++ py ")"))
      /\ (ch "}" ∉ url -> adjacent (opens (ch "[")) url = false ->
          convert_dokuwiki_to_markdown cwd (py "{{" ++ url ++ py "}}") note
            pi mi
          = Ok url))
  /\ convert_dokuwiki_to_markdown (py "/home/u")
       (py "[[http://h/a\b?q=1  2]]") (py "p.md") ∅ ∅
     = Ok (py "[http://h/a/b?q=1 2](http://h/a/b?q=1 2)")
  /\ convert_dokuwiki_to_markdown (py "/home/u")
       (py "{{http://h/[[y]]}}") (py "p.md") ∅ ∅
     = Ok (py "http://h/[y](y.md)").
Proof.
  intros Hs Hp He. split; [by apply repl_link_external|].
  split; [by apply repl_media_external|].
  split; [intros Ht Hne Hg; by apply repl_link_external_titled|].
  split.
  - intros Hcr Hb Ht Hl. split.
    + intros Hc Ho. by apply convert_external_link.
    + intros Hc Ho. by apply convert_external_media.
  - split; vm_compute; reflexivity.
Qed.

Lemma external_url_kept_witness :
  convert_dokuwiki_to_markdown (py "/home/u")
    (py "[[" ++ py "HTTPS://example.org/a%20b.png?w=800#top" ++ py "]]")
    (py "a/b/page.md") ∅ ∅
  = Ok (py "[" ++ py "HTTPS://example.org/a%20b.png?w=800#top" ++ py "]("
        ++ py "HTTPS://example.org/a%20b.png?w=800#top" ++ py ")").
Proof.
  refine (proj1 (proj1 (proj2 (proj2 (proj2
            (external_url_kept (py "/home/u") (py "a/b") (py "a:b:page")
               (py "HTTPS://example.org/a%20b.png?w=800#top") []
               (py "a/b/page.md") ∅ ∅ _ _ _)))) _ _ _ _) _ _);
    try (vm_compute; reflexivity);
    apply (bool_decide_eq_false_1 _); vm_compute; reflexivity.
Defined.

Section PageId.

Implicit Types (q : list N).

Lemma lower_app (s t : list N) :
  Str.lower (s ++ t) = Str.lower s ++ Str.lower t.
Proof. unfold Str.lower. apply fmap_app. Qed.

Lemma startswith_app (p s : list N) : Str.startswith p (p ++ s) = true.
Proof.
  induction p as [|c p IH]; [done|]. cbn [app Str.startswith].
  by rewrite bool_decide_eq_true_2, IH.
Qed.

Lemma endswith_app (p s : list N) : Str.endswith p (s ++ p) = true.
Proof.
  unfold Str.endswith. rewrite reverse_app. apply startswith_app.
Qed.

Lemma replace_back (a b : N) q :
  b ∉ q -> Str.replace b a (Str.replace a b q) = q.
Proof.
  unfold Str.replace. induction q as [|c q IH]; intros H; [done|].
  apply not_elem_of_cons in H as [Hc Hq]. rewrite !fmap_cons, IH by done.
  f_equal. destruct (decide (c = a)) as [->|Hca].
  - by rewrite decide_True.
  - by rewrite decide_False.
Qed.

Lemma page_id_of_note q :
  current_page_id_from_rel (q ++ py ".md") = Str.replace c_slash c_colon q.
Proof.
  unfold current_page_id_from_rel. rewrite lower_app.
  change (Str.lower (py ".md")) with (py ".md"). rewrite endswith_app.
  rewrite length_app. change (length (py ".md")) with 3%nat.
  replace (length q + 3 - 3)%nat with (length q) by lia.
  by rewrite take_app_length.
Qed.

End PageId.



Section NeverRaises.

Implicit Types (s t q g cur raw note cwd dir : list N)
  (pi mi : gmap (list N) (list N)).

Lemma split_anchor_spec q :
  exists t a,
    split_anchor q = Ok (t, a) /\ q = t ++ a /\ (c_hash ∉ t)
    /\ (a = [] \/ exists r, a = c_hash :: r).
Proof.
  unfold split_anchor. case_decide as Hh.
  - destruct (elem_of_first _ _ Hh) as (p & r & -> & Hp).
    rewrite split1_unpack2 by done. bind_ok. eexists _, _.
    repeat (split; [done|]). right. by eexists.
  - exists q, []. rewrite app_nil_r. repeat (split; [done|]). by left.
Qed.

Lemma lstrip_by_keeps_out (x : N) (f : N -> bool) s :
  x ∉ s -> x ∉ Str.lstrip_by f s.
Proof.
  induction s as [|c s IH]; [done|]. intros H. cbn [Str.lstrip_by].
  destruct (f c); [|done]. apply IH. by apply not_elem_of_cons in H as [_ ?].
Qed.

Lemma strip_keeps_out (x : N) s : x ∉ s -> x ∉ Str.strip s.
Proof.
  intros H. unfold Str.strip, Str.rstrip_by. rewrite elem_of_reverse.
  apply lstrip_by_keeps_out. rewrite elem_of_reverse.
  by apply lstrip_by_keeps_out.
Qed.

Lemma sub_spaces_keeps_out (x : N) (b : bool) s :
  x <> c_sp -> x ∉ s -> x ∉ sub_spaces b s.
Proof.
  intros Hx. revert b. induction s as [|c s IH]; intros b H; [done|].
  apply not_elem_of_cons in H as [Hc Hs]. cbn [sub_spaces].
  destruct (Str.isspace c); [destruct b|]; rewrite ?not_elem_of_cons; auto.
Qed.

Lemma namespace_keeps_out (x : N) cur ns :
  x ∉ cur ->
  (if decide (c_colon ∈ cur) then Str.index0 (Str.rsplit1 c_colon cur)
   else Ok []) = Ok ns ->
  x ∉ ns.
Proof.
  intros Hx. case_decide as Hc.
  2:{ intros [= <-]. apply not_elem_of_nil. }
  apply elem_of_reverse in Hc.
  destruct (elem_of_first _ _ Hc) as (p & r & Heq & Hp).
  apply (f_equal reverse) in Heq.
  rewrite reverse_involutive, reverse_app, reverse_cons, <- app_assoc in Heq.
  cbn [app] in Heq. subst cur.
  rewrite rsplit1_last by by rewrite elem_of_reverse.
  intros [= <-]. intros H. apply Hx. apply elem_of_app. by left.
Qed.

(** The id a target is resolved to has no "#" unless the current id has. *)
Lemma resolve_page_id_no_hash raw cur rid anchor :
  c_hash ∉ cur ->
  resolve_page_id raw cur = Ok (Some (rid, anchor)) -> c_hash ∉ rid.
Proof.
  intros Hcur. unfold resolve_page_id.
  destruct (strip_query_total (Urllib.unquote (Str.strip raw))) as [q ->].
  bind_ok.
  destruct (split_anchor_spec q) as (t & a & -> & _ & Ht & _). bind_ok.
  case_decide; [done|].
  assert (Ht2 : c_hash ∉ (if Str.startswith [c_colon] t then drop 1 t else t)).
  { destruct (Str.startswith [c_colon] t); [|done].
    intros H'. apply Ht. by apply (subseteq_drop 1 t). }
  set (t2 := if Str.startswith [c_colon] t then drop 1 t else t) in *.
  destruct (bool_decide (c_colon ∈ t2) || Str.startswith [c_colon] t).
  - bind_ok. intros [= <- _].
    apply strip_keeps_out. by apply sub_spaces_keeps_out.
  - destruct (if decide (c_colon ∈ cur) then _ else _) as [ns|e] eqn:Hns;
      [|done].
    bind_ok. intros [= <- _].
    apply strip_keeps_out. apply sub_spaces_keeps_out; [done|].
    pose proof (namespace_keeps_out c_hash cur ns Hcur Hns) as Hn.
    destruct (decide (ns = [])); [done|].
    apply not_elem_of_app. split; [done|]. by apply not_elem_of_cons.
Qed.

(** A resolved page path is empty or starts with a character that is
    no "#". *)
Lemma resolve_page_target_head raw cur pi tm :
  c_hash ∉ cur ->
  (forall k v, pi !! k = Some v -> v <> [] /\ head v <> Some c_hash) ->
  resolve_page_target raw cur pi = Ok tm ->
  tm = [] \/ exists c rest, tm = c :: rest /\ c <> c_hash.
Proof.
  intros Hcur Hpi. unfold resolve_page_target.
  destruct (resolve_page_id raw cur) as [[[rid anchor]|]|e] eqn:Hr;
    bind_ok; [|intros [= <-]; by left|done].
  apply resolve_page_id_no_hash in Hr; [|done].
  intros [= <-]. right.
  assert (Hout : exists c rest,
            match py_or (pi !! rid) (pi !! (c_colon :: rid)) with
            | Some v => v
            | None => synth_md rid
            end = c :: rest /\ c <> c_hash).
  { destruct (py_or (pi !! rid) (pi !! (c_colon :: rid))) as [v|] eqn:Hor.
    - assert (Hv : v <> [] /\ head v <> Some c_hash).
      { unfold py_or in Hor. destruct (pi !! rid) as [[|x l]|] eqn:H1.
        + by apply (Hpi (c_colon :: rid)).
        + injection Hor as <-. by apply (Hpi rid).
        + by apply (Hpi (c_colon :: rid)). }
      destruct Hv as [Hne Hh]. destruct v as [|c rest]; [done|].
      exists c, rest. split; [done|]. intros ->. by apply Hh.
    - unfold synth_md. destruct rid as [|c rid]; [by exists c_dot, (py "md")|].
      apply not_elem_of_cons in Hr as [Hc _].
      unfold Str.replace. rewrite fmap_cons. cbn [app].
      eexists _, _. split; [done|]. by case_decide. }
  destruct Hout as (c & rest & -> & Hc).
  unfold Str.replace. rewrite fmap_cons. cbn [app].
  eexists _, _. split; [done|]. by case_decide.
Qed.

Lemma normpath_nonempty s : Posixpath.normpath s <> [].
Proof.
  unfold Posixpath.normpath. case_decide; [done|]. cbv zeta.
  by case_decide.
Qed.

Lemma media_rel_total cwd dir v : exists r, media_rel cwd dir v = Ok r.
Proof. apply relposix_nonempty, normpath_nonempty. Qed.

Lemma normalize_media_target_total raw :
  exists r, normalize_media_target raw = Ok r.
Proof.
  unfold normalize_media_target.
  destruct (strip_query_total (Urllib.unquote (Str.strip raw))) as [q ->].
  bind_ok. destruct (split_anchor_spec q) as (t & a & -> & _). bind_ok.
  destruct (strip_query_total
              (decode_path_segments
                 (Str.replace c_colon c_slash
                    (to_posix (if Str.startswith [c_colon] t
                               then drop 1 t else t))))) as [r ->].
  bind_ok. by eexists.
Qed.

Lemma first_hit_total mi (candidates : list (list N)) :
  exists r, first_hit mi candidates = Ok r.
Proof.
  induction candidates as [|c cs IH]; [by eexists|].
  cbn [first_hit]. destruct (strip_query_total c) as [c' ->]. bind_ok.
  destruct (mi !! c'); [by eexists|done].
Qed.

Lemma split1_first (sep : N) s : exists x, Str.index0 (Str.split1 sep s) = Ok x.
Proof. unfold Str.split1. destruct (Str.break sep s) as [p [r|]]; by eexists. Qed.

(** An embedded reference is replaced without an exception. *)
Lemma repl_media_total cwd dir mi g : exists r, repl_media cwd dir mi g = Ok r.
Proof.
  unfold repl_media. cbv zeta.
  destruct (split1_first c_pipe (Str.strip g)) as [left ->]. bind_ok.
  case_decide; [by eexists|].
  destruct (is_external _); [by eexists|].
  destruct (strip_query_total (Urllib.unquote (Str.strip (Str.strip left))))
    as [nk ->]. bind_ok.
  destruct (normalize_media_target_total (Str.strip nk)) as [nmt ->]. bind_ok.
  match goal with |- context [first_hit mi ?c] =>
    destruct (first_hit_total mi c) as [hit ->] end. bind_ok.
  assert (Hout : exists v,
            match hit with
            | Some v => Ok v
            | None =>
                t ← normalize_media_target (Str.strip left);
                Str.index0 (Str.split1 c_hash t)
            end = Ok v).
  { destruct hit; [by eexists|].
    destruct (normalize_media_target_total (Str.strip left)) as [t ->].
    bind_ok. apply split1_first. }
  destruct Hout as [v ->]. bind_ok.
  destruct (media_rel_total cwd dir v) as [rel ->]. bind_ok.
  case_decide; by eexists.
Qed.

Lemma first_key_out mi keys (fallback : result (list N)) :
  (exists v, fallback = Ok v) ->
  exists v, match first_key mi keys with
            | Some v => Ok v
            | None => fallback
            end = Ok v.
Proof. intros [v ->]. destruct (first_key mi keys); by eexists. Qed.

(** A link is replaced without an exception when no "#" can come first
    in the path of the target page. *)
Lemma repl_link_total cwd dir cur pi mi g :
  c_hash ∉ cur ->
  (forall k v, pi !! k = Some v -> v <> [] /\ head v <> Some c_hash) ->
  exists r, repl_link cwd dir cur pi mi g = Ok r.
Proof.
  intros Hcur Hpi. unfold repl_link. cbv zeta.
  assert (Hsplit : exists target title,
            (if decide (c_pipe ∈ Str.strip g)
             then '(target, title) ← Str.unpack2
                                       (Str.split1 c_pipe (Str.strip g));
                  Ok (Str.strip target, Str.strip title)
             else Ok (Str.strip (Str.strip g), [])) = Ok (target, title)).
  { case_decide as Hp; [|by eexists _, _].
    destruct (elem_of_first _ _ Hp) as (p & r & -> & Hn).
    rewrite split1_unpack2 by done. bind_ok. by eexists _, _. }
  destruct Hsplit as (target & title & ->). bind_ok.
  case_decide; [by eexists|].
  destruct (is_external target); [by eexists|].
  destruct (strip_query_total target) as [tq ->]. bind_ok.
  set (t_norm := Str.strip (Urllib.unquote tq)).
  destruct (split_anchor_spec t_norm) as (base & anchor & -> & _). bind_ok.
  destruct (_ && _).
  - destruct (normalize_media_target_total t_norm) as [mt ->]. bind_ok.
    destruct (strip_query_total t_norm) as [k1 ->]. bind_ok.
    destruct (strip_query_total
                (if Str.startswith [c_colon] t_norm then t_norm
                 else c_colon :: t_norm)) as [k2 ->]. bind_ok.
    destruct (strip_query_total mt) as [k3 ->]. bind_ok.
    destruct (strip_query_total (with_colon mt)) as [k4 ->]. bind_ok.
    destruct (strip_query_total (Str.replace c_colon c_slash t_norm))
      as [k5 ->]. bind_ok.
    destruct (strip_query_total
                (if Str.startswith [c_colon] t_norm
                 then Str.replace c_colon c_slash t_norm
                 else c_colon :: Str.replace c_colon c_slash t_norm))
      as [k6 ->]. bind_ok.
    destruct (strip_query_total (Str.replace c_slash c_colon t_norm))
      as [k7 ->]. bind_ok.
    destruct (strip_query_total
                (if Str.startswith [c_colon] t_norm
                 then Str.replace c_slash c_colon t_norm
                 else c_colon :: Str.replace c_slash c_colon t_norm))
      as [k8 ->]. bind_ok.
    destruct (first_key_out mi [k1; k2; k3; k4; k5; k6; k7; k8]
                (Str.index0 (Str.split1 c_hash mt)) (split1_first _ _))
      as [v ->]. bind_ok.
    destruct (media_rel_total cwd dir v) as [rel ->]. bind_ok.
    repeat case_decide; by eexists.
  - destruct (resolve_page_target t_norm cur pi) as [tm|e] eqn:Hres.
    2:{ destruct (resolve_page_target_total t_norm cur pi) as [r Hr].
        congruence. }
    bind_ok. case_decide as Htm; [by eexists|].
    destruct (resolve_page_target_head _ _ _ _ Hcur Hpi Hres)
      as [?|(c & rest & -> & Hc)]; [done|].
    destruct (split_anchor_spec (c :: rest)) as (b & a & -> & Heq & _ & Ha).
    bind_ok.
    assert (Hne : b <> []).
    { intros ->. cbn [app] in Heq. subst a.
      destruct Ha as [?|[r [= ? _]]]; done. }
    destruct (relposix_nonempty cwd dir b Hne) as [rel ->]. bind_ok.
    assert (Hlabel : exists l,
              (if decide (title = [])
               then if decide (c_colon ∈ base)
                    then index_last (Str.split c_colon base)
                    else Ok (Pathlib.name base)
               else Ok title) = Ok l).
    { case_decide; [|by eexists]. case_decide; [|by eexists].
      unfold index_last. rewrite (split_cons_shape c_colon base).
      rewrite last_cons. destruct (last _); by eexists. }
    destruct Hlabel as [l ->]. bind_ok. by eexists.
Qed.

Lemma sub_brackets_total (o c : N) (repl : list N -> result (list N)) :
  (forall g, exists r, repl g = Ok r) ->
  forall s skip, exists r, sub_brackets o c repl skip s = Ok r.
Proof.
  intros Hrepl. induction s as [|x s IH]; intros skip; [by eexists|].
  cbn [sub_brackets]. destruct skip as [|k]; [|apply IH].
  destruct (match_brackets o c (x :: s)) as [g|].
  - destruct (Hrepl g) as [r ->]. bind_ok.
    destruct (IH (length g + 3)%nat) as [rest ->]. bind_ok. by eexists.
  - destruct (IH 0%nat) as [rest ->]. bind_ok. by eexists.
Qed.

Lemma page_id_no_hash note :
  c_hash ∉ note -> c_hash ∉ current_page_id_from_rel note.
Proof.
  intros H. unfold current_page_id_from_rel.
  apply replace_keeps_out; [|done].
  destruct (Str.endswith _ _); [|done].
  intros Hin. apply H. by apply (subseteq_take (length note - 3) note).
Qed.

Lemma convert_total cwd text note pi mi :
  c_hash ∉ note ->
  (forall k v, pi !! k = Some v -> v <> [] /\ head v <> Some c_hash) ->
  exists out, convert_dokuwiki_to_markdown cwd text note pi mi = Ok out.
Proof.
  intros Hnote Hpi. unfold convert_dokuwiki_to_markdown. cbv zeta.
  destruct (sub_brackets_total (ch "{") (ch "}")
              (repl_media cwd (Posixpath.dirname note) mi)
              (repl_media_total cwd (Posixpath.dirname note) mi)
              (normalize_newlines text) 0%nat) as [t1 ->]. bind_ok.
  destruct (sub_brackets_total (ch "[") (ch "]")
              (repl_link cwd (Posixpath.dirname note)
                 (current_page_id_from_rel note) pi mi)
              (fun g => repl_link_total cwd (Posixpath.dirname note)
                          (current_page_id_from_rel note) pi mi g
                          (page_id_no_hash note Hnote) Hpi)
              t1 0%nat) as [t2 ->]. bind_ok.
  by eexists.
Qed.

End NeverRaises.

(** X20.  The conversion of a page never raises an exception, whatever
    the text, the media index and the working directory, when the path
    of the note has no "#" and no value of the page index is empty or
    starts with "#".  Every embedded reference is replaced without an
    exception in any case; only a page link whose path starts with "#"
    makes [relposix] fail. *)
Theorem convert_never_raises (cwd text note : list N)
    (pi mi : gmap (list N) (list N)) :
  c_hash ∉ note ->
  (forall k v, pi !! k = Some v -> v <> [] /\ head v <> Some c_hash) ->
  (exists out, convert_dokuwiki_to_markdown cwd text note pi mi = Ok out)
  /\ (forall dir g, exists r, repl_media cwd dir mi g = Ok r).
Proof.
  intros Hnote Hpi. split; [by apply convert_total|].
  intros dir g. apply repl_media_total.
Qed.

Lemma convert_never_raises_witness :
  exists out,
    convert_dokuwiki_to_markdown (py "/home/u")
      (py "{{:img:a.png?200|x}} [[..:b#c|t]] [[%zz]]") (py "a/b/page.md")
      ∅ ∅ = Ok out.
Proof.
  refine (proj1 (convert_never_raises (py "/home/u")
                   (py "{{:img:a.png?200|x}} [[..:b#c|t]] [[%zz]]")
                   (py "a/b/page.md") ∅ ∅ _ _)).
  - apply (bool_decide_eq_false_1 _). vm_compute. reflexivity.
  - intros k v H. by rewrite lookup_empty in H.
Defined.

(** The proviso on the note is needed: a page in a directory whose name
    starts with "#" cannot hold a relative link. *)
Lemma convert_raises_below_hash (cwd : list N) :
  convert_dokuwiki_to_markdown cwd (py "[[x]]") (py "#d/p.md") ∅ ∅
  = Raise ValueError.
Proof. vm_compute. reflexivity. Qed.

(** ** Escapes in path segments *)

Section DecodeEscapes.

Implicit Types (s run bs : list N) (M : list (list N)).

Lemma decode_ascii bs :
  Forall (fun b => b < 128) bs -> Urllib.decode_utf8_replace bs = bs.
Proof.
  induction 1 as [|b bs Hb _ IH]; [done|].
  cbn [Urllib.decode_utf8_replace].
  rewrite (proj2 (N.ltb_lt b 128)) by done. by rewrite IH.
Qed.

Lemma unquote_parts_ascii run s :
  Forall (fun b => b < 128) s ->
  Urllib.unquote_parts run s = Urllib.unquote_run (run ++ s).
Proof.
  intros H. revert run. induction H as [|c s Hc _ IH]; intros run.
  - by rewrite app_nil_r.
  - cbn [Urllib.unquote_parts]. rewrite (proj2 (N.ltb_lt c 128)) by done.
    rewrite IH. by rewrite <- app_assoc.
Qed.

Lemma hexval_ascii (x h : N) : Urllib.hexval x = Some h -> x < 128 /\ h < 16.
Proof.
  unfold Urllib.hexval.
  destruct ((48 <=? x) && (x <=? 57)) eqn:H1.
  { apply andb_true_iff in H1 as [H1 H2]. apply N.leb_le in H1, H2.
    intros [= ?]. lia. }
  destruct ((65 <=? x) && (x <=? 70)) eqn:H2.
  { apply andb_true_iff in H2 as [H2 H3]. apply N.leb_le in H2, H3.
    intros [= ?]. lia. }
  destruct ((97 <=? x) && (x <=? 102)) eqn:H3; [|intros [=]].
  apply andb_true_iff in H3 as [H3 H4]. apply N.leb_le in H3, H4.
  intros [= ?]. lia.
Qed.

(** One escape in a run of ASCII characters becomes the byte it names. *)
Lemma unquote_one_escape s1 s2 (x y h l : N) :
  Forall (fun b => b < 128) s1 -> Forall (fun b => b < 128) s2 ->
  c_pct ∉ s1 -> c_pct ∉ s2 ->
  Urllib.hexval x = Some h -> Urllib.hexval y = Some l -> 16 * h + l < 128 ->
  Urllib.unquote (s1 ++ c_pct :: x :: y :: s2) = s1 ++ (16 * h + l) :: s2.
Proof.
  intros H1 H2 Hp1 Hp2 Hx Hy Hlt.
  destruct (hexval_ascii _ _ Hx) as [Hxa _].
  destruct (hexval_ascii _ _ Hy) as [Hya _].
  unfold Urllib.unquote. rewrite decide_True.
  2:{ apply elem_of_app. right. by left. }
  rewrite unquote_parts_ascii.
  2:{ apply Forall_app. split; [done|]. repeat (constructor; [done|]).
      done. }
  cbn [app]. unfold Urllib.unquote_run, Urllib.unquote_to_bytes.
  rewrite split_app, (split_notin c_pct s1) by done.
  rewrite (split_notin c_pct (x :: y :: s2)).
  2:{ rewrite !not_elem_of_cons. repeat split; [| |done].
      - intros <-. by vm_compute in Hx.
      - intros <-. by vm_compute in Hy. }
  cbn [app fmap list_fmap concat Urllib.unquote_item].
  rewrite Hx, Hy, app_nil_r. apply decode_ascii.
  apply Forall_app. split; [done|]. by constructor.
Qed.

(** The segments between the slashes are unquoted one by one. *)
Lemma decode_joined M :
  Forall (fun part => part <> [] /\ (c_slash ∉ part) /\ (c_bslash ∉ part)) M ->
  decode_path_segments (Str.join [c_slash] M)
  = Str.join [c_slash] (Urllib.unquote <$> M).
Proof.
  intros HM. destruct (decide (M = [])) as [->|Hne]; [done|].
  unfold decode_path_segments, to_posix.
  rewrite replace_notin.
  2:{ apply join_keeps_out; [by vm_compute; intros H; inversion H as [|? ? ? H']; inversion H'|].
      eapply Forall_impl; [exact HM|]. by intros part (_ & _ & ?). }
  rewrite split_join; [|done|].
  2:{ eapply Forall_impl; [exact HM|]. by intros part (_ & ? & _). }
  rewrite filter_all_nonempty; [done|].
  eapply Forall_impl; [exact HM|]. by intros part (? & _).
Qed.

End DecodeEscapes.

(** C9.  [decode_path_segments] turns backslashes into slashes, splits at
    the slashes, drops the empty segments and unquotes each of the others
    on its own.  A path made of segments that are not empty is decoded
    segment by segment; in a segment of ASCII characters an escape "%xy"
    of two hex digits becomes the character it names; no segment becomes
    empty by decoding; a leading slash, a trailing slash and a doubled
    slash change nothing, and a backslash counts as a slash.  So "/a//b/"
    gives what "a/b" gives, "a%20b/%CE%B3" gives "a b/" and U+03B3, an
    escape that is cut by a slash or is no hex pair stays as it is, and
    the slash that "%2F" decodes to does not split the segment again. *)
Theorem decode_path_segments_drops_empty :
  (forall M : list (list N),
     Forall (fun part => part <> [] /\ (c_slash ∉ part) /\ (c_bslash ∉ part)) M ->
     decode_path_segments (Str.join [c_slash] M)
     = Str.join [c_slash] (Urllib.unquote <$> M))
  /\ (forall (s1 s2 : list N) (x y h l : N),
        Forall (fun b => b < 128) s1 -> Forall (fun b => b < 128) s2 ->
        Forall (fun b => b <> c_pct /\ b <> c_slash /\ b <> c_bslash) s1 ->
        Forall (fun b => b <> c_pct /\ b <> c_slash /\ b <> c_bslash) s2 ->
        Urllib.hexval x = Some h -> Urllib.hexval y = Some l ->
        16 * h + l < 128 ->
        decode_path_segments (s1 ++ c_pct :: x :: y :: s2)
        = s1 ++ (16 * h + l) :: s2)
  /\ (forall s : list N,
        Forall (fun part => part <> [])
          (Urllib.unquote
            <$> filter (fun part => part <> [])
                  (Str.split c_slash (Str.replace c_bslash c_slash s))))
  /\ (forall s : list N,
        decode_path_segments (c_slash :: s) = decode_path_segments s)
  /\ (forall s : list N,
        decode_path_segments (s ++ [c_slash]) = decode_path_segments s)
  /\ (forall s1 s2 : list N,
        decode_path_segments (s1 ++ c_slash :: c_slash :: s2)
        = decode_path_segments (s1 ++ c_slash :: s2))
  /\ (forall s1 s2 : list N,
        decode_path_segments (s1 ++ c_bslash :: s2)
        = decode_path_segments (s1 ++ c_slash :: s2))
  /\ decode_path_segments (py "/a//b/") = py "a/b"
  /\ decode_path_segments (py "a/b") = py "a/b"
  /\ decode_path_segments (py "a%20b/%CE%B3") = py "a b/" ++ [947]
  /\ decode_path_segments (py "%zz/a%2") = py "%zz/a%2"
  /\ decode_path_segments (py "%4/1") = py "%4/1"
  /\ decode_path_segments (py "x/a%2Fb") = py "x/a/b".
Proof.
  split; [apply decode_joined|].
  split.
  { intros s1 s2 x y h l A1 A2 P1 P2 Hx Hy Hlt.
    assert (Hout : forall (c : N) (s : list N),
              Forall (fun b => b <> c_pct /\ b <> c_slash /\ b <> c_bslash) s ->
              c = c_pct \/ c = c_slash \/ c = c_bslash -> c ∉ s).
    { intros c s Hs Hc Hin. rewrite Forall_forall in Hs.
      destruct (Hs c Hin) as (? & ? & ?). by destruct Hc as [?|[?|?]]. }
    assert (Hhex : forall c k, Urllib.hexval c = Some k ->
              c <> c_slash /\ c <> c_bslash).
    { intros c k Hc. split; intros ->; by vm_compute in Hc. }
    destruct (Hhex x h Hx) as [Hx1 Hx2]. destruct (Hhex y l Hy) as [Hy1 Hy2].
    pose proof (decode_joined [s1 ++ c_pct :: x :: y :: s2]) as Hd.
    cbn [Str.join fmap list_fmap] in Hd. rewrite Hd.
    - apply unquote_one_escape; auto.
    - constructor; [|constructor]. split; [by destruct s1|].
      split; apply not_elem_of_app; (split; [auto|]);
        rewrite !not_elem_of_cons; repeat split; auto. }
  split.
  { intros s. apply Forall_fmap, Forall_forall. intros part Hin. simpl.
    apply unquote_nonempty.
    by apply list_elem_of_filter in Hin as [? _]. }
  split.
  { intros s. unfold decode_path_segments.
    change (to_posix (c_slash :: s)) with ([] ++ c_slash :: to_posix s).
    rewrite split_app. change (Str.split c_slash []) with [@nil N].
    rewrite filter_app, filter_cons_False, filter_nil by tauto. done. }
  split.
  { intros s. unfold decode_path_segments.
    rewrite to_posix_app.
    change (to_posix [c_slash]) with ([] ++ c_slash :: @nil N).
    rewrite app_nil_l, split_app. change (Str.split c_slash []) with [@nil N].
    by rewrite filter_app, filter_cons_False, filter_nil, app_nil_r by tauto. }
  split.
  { intros s1 s2. unfold decode_path_segments.
    rewrite !to_posix_app.
    change (to_posix (c_slash :: c_slash :: s2))
      with (c_slash :: ([] ++ c_slash :: to_posix s2)).
    change (to_posix (c_slash :: s2)) with (c_slash :: to_posix s2).
    rewrite !split_app. change (Str.split c_slash []) with [@nil N].
    by rewrite !filter_app, filter_cons_False, filter_nil by tauto. }
  split.
  { intros s1 s2. unfold decode_path_segments.
    by rewrite !to_posix_app. }
  split; [by vm_compute|]. split; [by vm_compute|].
  split; [by vm_compute|]. split; [by vm_compute|].
  split; by vm_compute.
Qed.

Lemma decode_path_segments_drops_empty_witness :
  decode_path_segments (py "img" ++ c_pct :: ch "4" :: ch "1" :: py ".png")
  = py "img" ++ (16 * 4 + 1) :: py ".png".
Proof.
  apply (proj1 (proj2 decode_path_segments_drops_empty)
           (py "img") (py ".png") (ch "4") (ch "1") 4 1);
    try (vm_compute; reflexivity);
    repeat constructor; done.
Defined.

(** ** A dangling link from a page below a directory named with "#" *)

Section BelowHash.

Implicit Types (cwd : list N) (pi mi : gmap (list N) (list N)).

Lemma nopage_bare : bare_name (py "nopage").
Proof. split; [done|]. repeat constructor. Qed.

Lemma resolve_nopage_below_hash pi :
  pi !! py "#d:nopage" = None -> pi !! py ":#d:nopage" = None ->
  resolve_page_target (py "nopage") (py "#d:page") pi = Ok (py "#d/nopage.md").
Proof.
  intros H1 H2.
  rewrite (resolve_page_target_dangling _ _ pi (py "#d:nopage") []);
    [done|by vm_compute|done|done].
Qed.

Lemma repl_link_below_hash cwd pi mi :
  pi !! py "#d:nopage" = None -> pi !! py ":#d:nopage" = None ->
  repl_link cwd (py "#d") (py "#d:page") pi mi (py "nopage")
  = Raise ValueError.
Proof.
  intros H1 H2.
  pose proof nopage_bare as Ht. pose proof (bare_nospace _ Ht) as Hsp.
  unfold repl_link. cbv zeta.
  rewrite !(strip_id (py "nopage")) by done.
  rewrite (decide_False (P := c_pipe ∈ py "nopage"))
    by by apply (bare_notin _ _ Ht).
  bind_ok. rewrite (decide_False (P := py "nopage" = [])) by done.
  rewrite is_external_colon by by apply (bare_notin _ _ Ht).
  rewrite strip_query_no_query by by apply (bare_notin _ _ Ht).
  bind_ok. rewrite unquote_no_percent by by apply (bare_notin _ _ Ht).
  rewrite !(strip_id (py "nopage")) by done.
  rewrite split_anchor_none by by apply (bare_notin _ _ Ht).
  bind_ok. rewrite bare_suffix by done.
  change (bool_decide (Str.lower [] <> []) && _) with false. cbv iota.
  rewrite resolve_nopage_below_hash by done. bind_ok.
  rewrite (decide_False (P := py "#d/nopage.md" = [])) by done.
  change (split_anchor (py "#d/nopage.md"))
    with (Ok (@nil N, py "#d/nopage.md") : result (list N * list N)).
  bind_ok. by rewrite relposix_empty.
Qed.

End BelowHash.

(** C8, at the input where the code fails.  The page #d/page.txt holds
    the link [[nopage]] and the Page Index has the identifier #d:nopage
    neither as it is nor with a leading colon.  [resolve_page_target]
    returns the path made from the identifier, #d/nopage.md, with no
    anchor; [repl_link] then splits that path at its first "#", takes the
    empty string for the path, and [relposix] raises ValueError on it: the
    link is not rendered and the conversion of the page fails, for every
    working directory and every media index. *)
Theorem dangling_link_below_hash_raises (cwd : list N)
    (pi mi : gmap (list N) (list N)) :
  pi !! py "#d:nopage" = None -> pi !! py ":#d:nopage" = None ->
  resolve_page_target (py "nopage")
    (current_page_id_from_rel (py "#d/page.md")) pi
  = Ok (py "#d/nopage.md")
  /\ repl_link cwd (Posixpath.dirname (py "#d/page.md"))
       (current_page_id_from_rel (py "#d/page.md")) pi mi (py "nopage")
     = Raise ValueError
  /\ convert_dokuwiki_to_markdown cwd (py "[[nopage]]") (py "#d/page.md")
       pi mi
     = Raise ValueError.
Proof.
  intros H1 H2.
  change (current_page_id_from_rel (py "#d/page.md")) with (py "#d:page").
  change (Posixpath.dirname (py "#d/page.md")) with (py "#d").
  split; [by apply resolve_nopage_below_hash|].
  split; [by apply repl_link_below_hash|].
  unfold convert_dokuwiki_to_markdown. cbv zeta.
  change (current_page_id_from_rel (py "#d/page.md")) with (py "#d:page").
  change (Posixpath.dirname (py "#d/page.md")) with (py "#d").
  rewrite normalize_newlines_no_cr by (apply (bool_decide_eq_false_1 _); by vm_compute).
  rewrite sub_brackets_none by by vm_compute. bind_ok.
  assert (E : forall rl, sub_brackets (ch "[") (ch "]") rl 0 (py "[[nopage]]")
                         = r ← rl (py "nopage"); Ok (r ++ [])).
  { intros rl. vm_compute. by destruct (rl _). }
  rewrite E. by rewrite repl_link_below_hash.
Qed.

Lemma dangling_link_below_hash_raises_witness :
  convert_dokuwiki_to_markdown (py "/home/u") (py "[[nopage]]")
    (py "#d/page.md") ∅ ∅
  = Raise ValueError.
Proof.
  refine (proj2 (proj2 (dangling_link_below_hash_raises (py "/home/u") ∅ ∅
                          _ _))); apply lookup_empty.
Defined.
